(** * The kernel terminal and the kernel worker of the portfolio web app

    A shallow embedding of
    - [apps/web/src/kernel/terminal.ts]: the tokenizer, path resolution,
      the command handlers, the recursive tree renderer and [exec];
    - [apps/web/src/kernel/kernel.worker.ts]: [persist] and the message
      handler [self.onmessage];
    followed by the properties the specification states about them.

    JavaScript strings are sequences of UTF-16 code units: a string is a
    [list N] here, so that [input[i]], [/\s/], [split], [join] and the
    box-drawing connectors of the tree renderer are what they are in the
    source. *)

From Stdlib Require Import String Ascii DecimalString.
From Stdlib Require Import List NArith ZArith Bool Lia.
From Stdlib Require Import Sorting.Sorted Sorting.Permutation.
Import ListNotations.
Open Scope N_scope.
Open Scope list_scope.

Set Implicit Arguments.

(* ================================================================== *)
(** ** JavaScript strings *)

Module JsString.

Definition code_unit := N.
Definition jsstring := list code_unit.

(** String literals of the source, written in ASCII. *)
Definition js (s : string) : jsstring := map N_of_ascii (list_ascii_of_string s).

Definition TAB : code_unit := 9.
Definition LF : code_unit := 10.
Definition SPACE : code_unit := 32.
Definition DQUOTE : code_unit := 34.
Definition QUOTE : code_unit := 39.
Definition DOT : code_unit := 46.
Definition SLASH : code_unit := 47.
Definition GT : code_unit := 62.
Definition BACKSLASH : code_unit := 92.
Definition LOWER_N : code_unit := 110.
Definition LOWER_T : code_unit := 116.

(** [/\s/.test(ch)] on one code unit, which is also the set that
    [String.prototype.trim] strips: WhiteSpace and LineTerminator. *)
Definition is_space (ch : code_unit) : bool :=
  ((9 <=? ch) && (ch <=? 13))
  || (ch =? 32) || (ch =? 160) || (ch =? 5760)
  || ((8192 <=? ch) && (ch <=? 8202))
  || (ch =? 8232) || (ch =? 8233) || (ch =? 8239) || (ch =? 8287)
  || (ch =? 12288) || (ch =? 65279).

Fixpoint str_eqb (a b : jsstring) : bool :=
  match a, b with
  | [], [] => true
  | x :: a', y :: b' => (x =? y) && str_eqb a' b'
  | _, _ => false
  end.

(** String comparison of [Array.prototype.sort] without a comparator:
    code unit by code unit, a proper prefix first. *)
Fixpoint str_leb (a b : jsstring) : bool :=
  match a, b with
  | [], _ => true
  | _ :: _, [] => false
  | x :: a', y :: b' => if x <? y then true else if y <? x then false else str_leb a' b'
  end.

(** Truthiness of a string: [if (cur)], [!p], [!trimmed]. *)
Definition nonempty (s : jsstring) : bool :=
  match s with [] => false | _ :: _ => true end.

Fixpoint dropWhile {A} (f : A -> bool) (l : list A) : list A :=
  match l with
  | [] => []
  | x :: l' => if f x then dropWhile f l' else l
  end.

Definition dropWhileEnd {A} (f : A -> bool) (l : list A) : list A :=
  rev (dropWhile f (rev l)).

(** [s.trim()] *)
Definition trim (s : jsstring) : jsstring := dropWhileEnd is_space (dropWhile is_space s).

(** [s.split(sep)] for a one-character separator; [''.split(sep)] is [['']]. *)
Fixpoint split_on (sep : code_unit) (s : jsstring) : list jsstring :=
  match s with
  | [] => [[]]
  | c :: rest =>
      if c =? sep then [] :: split_on sep rest
      else match split_on sep rest with
           | [] => [[c]]
           | seg :: segs => (c :: seg) :: segs
           end
  end.

(** [l.join(sep)] *)
Fixpoint join (sep : jsstring) (l : list jsstring) : jsstring :=
  match l with
  | [] => []
  | [x] => x
  | x :: rest => x ++ sep ++ join sep rest
  end.

(** [s.startsWith(c)] for a one-character [c]. *)
Definition startsWith (c : code_unit) (s : jsstring) : bool :=
  match s with
  | [] => false
  | x :: _ => x =? c
  end.

(** [l.sort()] on strings: the result is the sorted arrangement of the
    elements, whatever algorithm the engine runs; insertion sort gives it. *)
Fixpoint insert_sorted (x : jsstring) (l : list jsstring) : list jsstring :=
  match l with
  | [] => [x]
  | y :: l' => if str_leb x y then x :: l else y :: insert_sorted x l'
  end.

Fixpoint sort (l : list jsstring) : list jsstring :=
  match l with
  | [] => []
  | x :: l' => insert_sorted x (sort l')
  end.

End JsString.
Import JsString.

(* ================================================================== *)
(** ** terminal.ts: tokenize *)

Inductive mode := none | single | double.

(** [if (cur) out.push(cur)] *)
Definition flush (cur : jsstring) (out : list jsstring) : list jsstring :=
  if nonempty cur then out ++ [cur] else out.

(** The character appended for the escape [\next] in double quotes. *)
Definition escape (next : code_unit) : code_unit :=
  if next =? LOWER_N then LF
  else if next =? LOWER_T then TAB
  else if (next =? DQUOTE) || (next =? BACKSLASH) then next
  else next.

(** The [while (i < input.length)] loop: [input] is what is left from
    index [i] on; the escape branch is the one that advances by two. *)
Fixpoint scan (m : mode) (cur : jsstring) (out : list jsstring) (input : jsstring)
  : list jsstring :=
  match input with
  | [] => flush cur out
  | ch :: rest =>
      match m with
      | none =>
          if is_space ch then scan none [] (flush cur out) rest
          else if ch =? QUOTE then scan single cur out rest
          else if ch =? DQUOTE then scan double cur out rest
          else scan none (cur ++ [ch]) out rest
      | single =>
          if ch =? QUOTE then scan none cur out rest
          else scan single (cur ++ [ch]) out rest
      | double =>
          if ch =? DQUOTE then scan none cur out rest
          else if ch =? BACKSLASH then
            match rest with
            | [] => flush cur out (* next is '', and i += 2 leaves the loop *)
            | next :: rest' => scan double (cur ++ [escape next]) out rest'
            end
          else scan double (cur ++ [ch]) out rest
      end
  end.

Definition tokenize (input : jsstring) : list jsstring := scan none [] [] input.

(* ================================================================== *)
(** ** terminal.ts: resolvePath, normalizePath *)

(** [cwd.replace(/\/+$/, '')] *)
Definition strip_trailing_slashes (cwd : jsstring) : jsstring :=
  dropWhileEnd (fun c => c =? SLASH) cwd.

Definition resolvePath (cwd p : jsstring) : jsstring :=
  if negb (nonempty p) || str_eqb p [DOT] then cwd
  else if startsWith SLASH p then p
  else strip_trailing_slashes cwd ++ [SLASH] ++ p.

(** One round of the [for (const part of parts)] loop; [stack.pop()] on an
    empty array does nothing. *)
Definition normalize_step (stack : list jsstring) (part : jsstring) : list jsstring :=
  if str_eqb part [DOT] then stack
  else if str_eqb part [DOT; DOT] then removelast stack
  else stack ++ [part].

Definition normalizePath (path : jsstring) : jsstring :=
  let parts := filter nonempty (split_on SLASH path) in
  let stack := fold_left normalize_step parts [] in
  SLASH :: join [SLASH] stack.

(* ================================================================== *)
(** ** terminal.ts: what the terminal talks to *)

Definition bytes := list Byte.byte.

(** The result of awaiting a promise: the value it resolves to, or the
    [message] of the error it rejects with (every [catch] of the source
    reads nothing else of the error). *)
Inductive reply (A : Type) : Type :=
| Resolved (a : A)
| Rejected (message : jsstring).
Arguments Resolved {A} a.
Arguments Rejected {A} message.

Record Stat := { is_dir : bool; is_file : bool; size : N }.

(** [KernelClient]: the asynchronous facade of the storage engine. [K] is
    the state of the filesystem behind it. Queries leave it as it is;
    mutations return the next state, also when they reject. *)
Class KernelClient (K : Type) := {
  hello : jsstring -> K -> reply jsstring;
  fs_stat : jsstring -> K -> reply Stat;
  fs_readdir : jsstring -> K -> reply (list jsstring);
  fs_read_file : jsstring -> K -> reply bytes;
  fs_mkdir : jsstring -> K -> reply unit * K;
  fs_write_file : jsstring -> bytes -> K -> reply unit * K;
  fs_rm : jsstring -> K -> reply unit * K;
  fs_rmdir : jsstring -> K -> reply unit * K;
  fs_mv : jsstring -> jsstring -> K -> reply unit * K;
  fs_cp : jsstring -> jsstring -> K -> reply unit * K
}.

(** The browser around the terminal: [window], IndexedDB ([clearDatabase]
    of idbDriver) and the text codecs. [H] is its state. *)
Class Host (H : Type) := {
  clearDatabase : H -> reply unit * H;
  reload : H -> H;
  openFile : jsstring -> H -> H;
  openEditor : jsstring -> H -> H;
  encode : jsstring -> bytes;
  decode : bytes -> jsstring
}.

Record TerminalResult := { stdout : jsstring; stderr : jsstring; code : Z }.

Definition ok (stdout : jsstring) : TerminalResult :=
  {| stdout := stdout; stderr := []; code := 0%Z |}.

Definition fail (stderr : jsstring) : TerminalResult :=
  {| stdout := []; stderr := stderr; code := 1%Z |}.

(** The fields of [class Terminal], with the two worlds its handlers act on. *)
Record Terminal (K H : Type) := {
  cwd : jsstring;
  promptStr : jsstring;
  clearScreenCode : jsstring;
  history : list jsstring;
  remote : K;
  host : H
}.

(** How a piece of handler code ends: it returns, it throws, or the model
    ran out of [fuel] (only [buildTree] recurses). *)
Inductive outcome (A : Type) : Type :=
| Returned (a : A)
| Thrown (message : jsstring)
| OutOfFuel.
Arguments Returned {A} a.
Arguments Thrown {A} message.
Arguments OutOfFuel {A}.

(** [Array.prototype.indexOf], [-1] when absent. *)
Fixpoint indexOf (x : jsstring) (l : list jsstring) : Z :=
  match l with
  | [] => (-1)%Z
  | y :: l' =>
      if str_eqb y x then 0%Z
      else match indexOf x l' with
           | Zneg _ => (-1)%Z
           | i => (i + 1)%Z
           end
  end.

(** [l.slice(0, e)]: a negative [e] counts from the end. *)
Definition slice0 {A} (e : Z) (l : list A) : list A :=
  let len := Z.of_nat (length l) in
  let k := if (e <? 0)%Z then Z.max (len + e) 0 else Z.min e len in
  firstn (Z.to_nat k) l.

(** [l[i]], [undefined] out of range. *)
Definition at_index {A} (l : list A) (i : Z) : option A :=
  if (i <? 0)%Z then None else nth_error l (Z.to_nat i).

(** [l.includes(x)] *)
Definition includes (x : jsstring) (l : list jsstring) : bool := existsb (str_eqb x) l.

(** [`${n}`] for a byte count. *)
Definition decimal (n : N) : jsstring := js (NilEmpty.string_of_uint (N.to_uint n)).

Section TerminalModel.

Context {K H : Type} `{KernelClient K} `{Host H}.

Definition M (A : Type) : Type := Terminal K H -> outcome A * Terminal K H.

Definition ret {A} (a : A) : M A := fun t => (Returned a, t).

Definition bind {A B} (m : M A) (f : A -> M B) : M B :=
  fun t =>
    match m t with
    | (Returned a, t') => f a t'
    | (Thrown msg, t') => (Thrown msg, t')
    | (OutOfFuel, t') => (OutOfFuel, t')
    end.

(** [try { m } catch (err) { handler(err.message) }] *)
Definition try_catch {A} (m : M A) (handler : jsstring -> M A) : M A :=
  fun t =>
    match m t with
    | (Thrown msg, t') => handler msg t'
    | r => r
    end.

Definition get_cwd : M jsstring := fun t => (Returned (cwd t), t).

Definition set_cwd (p : jsstring) : M unit :=
  fun t => (Returned tt,
            {| cwd := p; promptStr := promptStr t; clearScreenCode := clearScreenCode t;
               history := history t; remote := remote t; host := host t |}).

(** [this.history.push(line)] *)
Definition push_history (line : jsstring) : M unit :=
  fun t => (Returned tt,
            {| cwd := cwd t; promptStr := promptStr t; clearScreenCode := clearScreenCode t;
               history := history t ++ [line]; remote := remote t; host := host t |}).

Definition with_remote (t : Terminal K H) (k : K) : Terminal K H :=
  {| cwd := cwd t; promptStr := promptStr t; clearScreenCode := clearScreenCode t;
     history := history t; remote := k; host := host t |}.

Definition with_host (t : Terminal K H) (h : H) : Terminal K H :=
  {| cwd := cwd t; promptStr := promptStr t; clearScreenCode := clearScreenCode t;
     history := history t; remote := remote t; host := h |}.

Definition of_reply {A} (r : reply A) : outcome A :=
  match r with
  | Resolved a => Returned a
  | Rejected msg => Thrown msg
  end.

(** [await this.kernel.q(...)] for a query *)
Definition query {A} (q : K -> reply A) : M A :=
  fun t => (of_reply (q (remote t)), t).

(** [await this.kernel.m(...)] for a mutation *)
Definition mutate (m : K -> reply unit * K) : M unit :=
  fun t => let (r, k) := m (remote t) in (of_reply r, with_remote t k).

Definition host_call (f : H -> reply unit * H) : M unit :=
  fun t => let (r, h) := f (host t) in (of_reply r, with_host t h).

Definition host_do (f : H -> H) : M unit :=
  fun t => (Returned tt, with_host t (f (host t))).

End TerminalModel.

Declare Scope term_scope.
Delimit Scope term_scope with term.
Notation "x <- m ;; f" := (bind m (fun x => f))
  (at level 61, m at next level, right associativity) : term_scope.
Notation "m ;;; f" := (bind m (fun _ => f))
  (at level 61, right associativity) : term_scope.

(* ================================================================== *)
(** ** terminal.ts: buildTree *)

Definition BRANCH : jsstring := [9500; 9472; 9472; 32].   (* '├── ' *)
Definition LAST_BRANCH : jsstring := [9492; 9472; 9472; 32]. (* '└── ' *)
Definition PIPE_INDENT : jsstring := [9474; 32; 32; 32].  (* '│   ' *)
Definition BLANK_INDENT : jsstring := [32; 32; 32; 32].   (* '    ' *)

(** [`${path === '/' ? '' : path}/${entry}`] *)
Definition entry_path (path entry : jsstring) : jsstring :=
  (if str_eqb path [SLASH] then [] else path) ++ [SLASH] ++ entry.

Section BuildTree.

Context {K : Type} `{KernelClient K}.
Variable k : K.

(** The first loop: [stat] every entry; what is not known to be a
    directory goes with the files. *)
Fixpoint classify (path : jsstring) (entries dirEntries fileEntries : list jsstring)
  : list jsstring * list jsstring :=
  match entries with
  | [] => (dirEntries, fileEntries)
  | entry :: rest =>
      match fs_stat (entry_path path entry) k with
      | Resolved stat =>
          if is_dir stat then classify path rest (dirEntries ++ [entry]) fileEntries
          else classify path rest dirEntries (fileEntries ++ [entry])
      | Rejected _ => classify path rest dirEntries (fileEntries ++ [entry])
      end
  end.

(** The second loop, over [sorted] from index [i] on: [isLast] says that
    nothing follows. [rec] is the recursive call of [buildTree]. *)
Fixpoint render (rec : jsstring -> jsstring -> bool -> option jsstring)
  (path prefix : jsstring) (sorted : list jsstring) (lines : list jsstring)
  : option (list jsstring) :=
  match sorted with
  | [] => Some lines
  | entry :: rest =>
      let entryPath := entry_path path entry in
      let isLast := match rest with [] => true | _ :: _ => false end in
      let connector := if isLast then LAST_BRANCH else BRANCH in
      match fs_stat entryPath k with
      | Resolved stat =>
          if is_dir stat then
            let nextPrefix := prefix ++ (if isLast then BLANK_INDENT else PIPE_INDENT) in
            match rec entryPath nextPrefix false with
            | Some subTree =>
                let subLines := filter nonempty (split_on LF subTree) in
                render rec path prefix rest
                  ((lines ++ [prefix ++ connector ++ entry ++ [SLASH]]) ++ subLines)
            | None => None
            end
          else render rec path prefix rest (lines ++ [prefix ++ connector ++ entry])
      | Rejected _ => render rec path prefix rest (lines ++ [prefix ++ connector ++ entry])
      end
  end.

(** [buildTree] never throws: a failed [readdir] ends in its empty
    [catch]. [None] is the model running out of [fuel]. *)
Fixpoint buildTree (fuel : nat) (path prefix : jsstring) (isRoot : bool) : option jsstring :=
  match fuel with
  | O => None
  | S fuel' =>
      let lines := if isRoot then [path] else [] in
      match fs_readdir path k with
      | Resolved entries =>
          let (dirEntries, fileEntries) := classify path entries [] [] in
          let sorted := sort dirEntries ++ sort fileEntries in
          match render (buildTree fuel') path prefix sorted lines with
          | Some lines' => Some (join [LF] lines')
          | None => None
          end
      | Rejected _ => Some (join [LF] lines)
      end
  end.

End BuildTree.

(* ================================================================== *)
(** ** terminal.ts: the command handlers and exec *)

Section Handlers.

Context {K H : Type} `{KernelClient K} `{Host H}.
Open Scope term_scope.

Definition CommandHandler : Type := list jsstring -> M (K:=K) (H:=H) TerminalResult.

Definition help_text : jsstring :=
  join [LF]
    [ js "Commands:";
      js "  help                   - Show this help message";
      js "  clear                  - Clear the terminal";
      js "  hello <name>           - Greet someone";
      js "  pwd                    - Print working directory";
      js "  cd <path>              - Change directory";
      js "  ls [path]              - List directory contents";
      js "  tree [path]            - Display directory tree";
      js "  mkdir <path>           - Create a directory";
      js "  cat <file>             - Display file contents";
      js "  open <file>            - Open file in text viewer";
      js "  edit <file>            - Edit file in text editor";
      js "  echo <text> > <file>   - Write text to file";
      js "  rm <file>              - Remove a file";
      js "  rmdir <dir>            - Remove an empty directory";
      js "  mv <from> <to>         - Move/rename file or directory";
      js "  cp <from> <to>         - Copy a file";
      js "  stat <path>            - Show file/directory information";
      js "  reset                  - Clear terminal (same as clear)";
      js "  sudo reset --confirm   - Clear filesystem and reload";
      [];
      js "Examples:";
      js "  mkdir /docs";
      js "  echo " ++ [DQUOTE] ++ js "Hello World" ++ [DQUOTE] ++ js " > /docs/hello.txt";
      js "  cat /docs/hello.txt";
      js "  tree /docs" ].

Definition help_handler : CommandHandler := fun _ => ret (ok help_text).

Definition clear_handler : CommandHandler :=
  fun _ => fun t => (Returned (ok (clearScreenCode t)), t).

Definition reset_handler : CommandHandler :=
  fun _ => ret (fail (js "Permission denied. Use " ++ [DQUOTE] ++ js "sudo reset" ++ [DQUOTE]
                      ++ js " to reset the filesystem.")).

Definition sudo_handler : CommandHandler :=
  fun args =>
    match args with
    | [] => ret (fail (js "usage: sudo <command> [args...]"))
    | subCommand :: _ =>
        if str_eqb subCommand (js "reset") then
          let hasConfirm := includes (js "--confirm") args in
          if negb hasConfirm then
            ret (fail (join [LF]
                   [ js "WARNING: This will permanently delete all files and directories!";
                     [];
                     js "If you are sure, type: sudo reset --confirm" ]))
          else
            try_catch
              (host_call clearDatabase ;;;
               host_do reload ;;;
               ret (ok (js "Resetting filesystem...")))
              (fun message => ret (fail (js "Failed to reset: " ++ message)))
        else ret (fail (js "sudo: " ++ subCommand ++ js ": command not found"))
    end.

Definition hello_handler : CommandHandler :=
  fun args =>
    let joined := join [SPACE] args in
    let name := if nonempty joined then joined else js "world" in
    res <- query (hello name) ;;
    ret (ok res).

Definition pwd_handler : CommandHandler :=
  fun _ => c <- get_cwd ;; ret (ok c).

Definition open_handler : CommandHandler :=
  fun args =>
    match args with
    | [] => ret (fail (js "usage: open <file>"))
    | arg0 :: _ =>
        c <- get_cwd ;;
        let filePath := normalizePath (resolvePath c arg0) in
        try_catch
          (stat <- query (fs_stat filePath) ;;
           if is_dir stat then ret (fail (filePath ++ js " is a directory, not a file"))
           else host_do (openFile filePath) ;;;
                ret (ok (js "Opening " ++ filePath ++ js "...")))
          (fun message =>
             ret (fail (js "cannot open '" ++ filePath ++ js "': " ++ message)))
    end.

Definition edit_handler : CommandHandler :=
  fun args =>
    match args with
    | [] => ret (fail (js "usage: edit <file>"))
    | arg0 :: _ =>
        c <- get_cwd ;;
        let filePath := normalizePath (resolvePath c arg0) in
        early <- try_catch
                   (stat <- query (fs_stat filePath) ;;
                    if is_dir stat
                    then ret (Some (fail (filePath ++ js " is a directory, not a file")))
                    else ret None)
                   (fun _ => mutate (fs_write_file filePath (encode [])) ;;; ret None) ;;
        match early with
        | Some result => ret result
        | None => host_do (openEditor filePath) ;;;
                  ret (ok (js "Editing " ++ filePath ++ js "..."))
        end
    end.

Definition cd_handler : CommandHandler :=
  fun args =>
    let target := match args with [] => [SLASH] | arg0 :: _ => arg0 end in
    c <- get_cwd ;;
    let newPath := normalizePath (resolvePath c target) in
    try_catch
      (stat <- query (fs_stat newPath) ;;
       if negb (is_dir stat) then ret (fail (js "not a directory: " ++ newPath))
       else set_cwd newPath ;;; ret (ok []))
      (fun _ => ret (fail (js "directory not found: " ++ newPath))).

(** [args[0] ? normalizePath(resolvePath(this.cwd, args[0])) : this.cwd] *)
Definition target_or_cwd (c : jsstring) (args : list jsstring) : jsstring :=
  match args with
  | arg0 :: _ => if nonempty arg0 then normalizePath (resolvePath c arg0) else c
  | [] => c
  end.

Definition ls_handler : CommandHandler :=
  fun args =>
    c <- get_cwd ;;
    let target := target_or_cwd c args in
    try_catch
      (entries <- query (fs_readdir target) ;;
       match entries with
       | [] => ret (ok [])
       | _ :: _ => ret (ok (join [LF] entries))
       end)
      (fun message => ret (fail message)).

Definition tree_handler (fuel : nat) : CommandHandler :=
  fun args =>
    c <- get_cwd ;;
    let target := target_or_cwd c args in
    fun t =>
      match buildTree (remote t) fuel target [] true with
      | Some tree => (Returned (ok tree), t)
      | None => (OutOfFuel, t)
      end.

(** The shape shared by [mkdir], [rm] and [rmdir]; [mv] and [cp] end the
    same way. *)
Definition run_mutation (m : K -> reply unit * K) : M (K:=K) (H:=H) TerminalResult :=
  try_catch (mutate m ;;; ret (ok [])) (fun message => ret (fail message)).

Definition mkdir_handler : CommandHandler :=
  fun args =>
    match args with
    | [] => ret (fail (js "usage: mkdir <path>"))
    | arg0 :: _ =>
        c <- get_cwd ;;
        run_mutation (fs_mkdir (normalizePath (resolvePath c arg0)))
    end.

Definition cat_handler : CommandHandler :=
  fun args =>
    match args with
    | [] => ret (fail (js "usage: cat <file>"))
    | arg0 :: _ =>
        c <- get_cwd ;;
        let path := normalizePath (resolvePath c arg0) in
        try_catch
          (data <- query (fs_read_file path) ;;
           ret (ok (decode data)))
          (fun message => ret (fail message))
    end.

Definition echo_handler : CommandHandler :=
  fun args =>
    let redirectIndex := indexOf [GT] args in
    if (redirectIndex =? Z.of_nat (List.length args) - 1)%Z then
      ret (fail (js "usage: echo <text> > <file>"))
    else
      let text := join [SPACE] (slice0 redirectIndex args) in
      let file := at_index args (redirectIndex + 1) in
      c <- get_cwd ;;
      (* resolvePath on an undefined [file] returns [cwd], by its [!p] *)
      let path := normalizePath (match file with
                                 | Some f => resolvePath c f
                                 | None => c
                                 end) in
      run_mutation (fs_write_file path (encode text)).

Definition rm_handler : CommandHandler :=
  fun args =>
    match args with
    | [] => ret (fail (js "usage: rm <file>"))
    | arg0 :: _ =>
        c <- get_cwd ;;
        run_mutation (fs_rm (normalizePath (resolvePath c arg0)))
    end.

Definition rmdir_handler : CommandHandler :=
  fun args =>
    match args with
    | [] => ret (fail (js "usage: rmdir <directory>"))
    | arg0 :: _ =>
        c <- get_cwd ;;
        run_mutation (fs_rmdir (normalizePath (resolvePath c arg0)))
    end.

Definition mv_handler : CommandHandler :=
  fun args =>
    match args with
    | arg0 :: arg1 :: _ =>
        c <- get_cwd ;;
        run_mutation (fs_mv (normalizePath (resolvePath c arg0))
                            (normalizePath (resolvePath c arg1)))
    | _ => ret (fail (js "usage: mv <from> <to>"))
    end.

Definition cp_handler : CommandHandler :=
  fun args =>
    match args with
    | arg0 :: arg1 :: _ =>
        c <- get_cwd ;;
        run_mutation (fs_cp (normalizePath (resolvePath c arg0))
                            (normalizePath (resolvePath c arg1)))
    | _ => ret (fail (js "usage: cp <from> <to>"))
    end.

Definition stat_handler : CommandHandler :=
  fun args =>
    match args with
    | [] => ret (fail (js "usage: stat <path>"))
    | arg0 :: _ =>
        c <- get_cwd ;;
        let path := normalizePath (resolvePath c arg0) in
        try_catch
          (stat <- query (fs_stat path) ;;
           let type := if is_dir stat then js "directory" else js "file" in
           ret (ok (join [LF] [ js "Path: " ++ path;
                                js "Type: " ++ type;
                                js "Size: " ++ decimal (size stat) ++ js " bytes" ])))
          (fun message => ret (fail message))
    end.

(** [registerBuiltins]: the [handlers] map, in the order of its [set]s. *)
Definition handlers (fuel : nat) : list (jsstring * CommandHandler) :=
  [ (js "help", help_handler);
    (js "clear", clear_handler);
    (js "reset", reset_handler);
    (js "sudo", sudo_handler);
    (js "hello", hello_handler);
    (js "pwd", pwd_handler);
    (js "open", open_handler);
    (js "edit", edit_handler);
    (js "cd", cd_handler);
    (js "ls", ls_handler);
    (js "tree", tree_handler fuel);
    (js "mkdir", mkdir_handler);
    (js "cat", cat_handler);
    (js "echo", echo_handler);
    (js "rm", rm_handler);
    (js "rmdir", rmdir_handler);
    (js "mv", mv_handler);
    (js "cp", cp_handler);
    (js "stat", stat_handler) ].

(** [this.handlers.get(cmd)] *)
Fixpoint handlers_get (table : list (jsstring * CommandHandler)) (cmd : jsstring)
  : option CommandHandler :=
  match table with
  | [] => None
  | (name, handler) :: rest => if str_eqb name cmd then Some handler else handlers_get rest cmd
  end.

Definition exec (fuel : nat) (line : jsstring) : M (K:=K) (H:=H) TerminalResult :=
  let trimmed := trim line in
  if negb (nonempty trimmed) then ret (ok [])
  else
    push_history trimmed ;;;
    match tokenize trimmed with
    | [] => ret (ok [])
    | cmd :: args =>
        match handlers_get (handlers fuel) cmd with
        | None => ret (fail (js "command not found: " ++ cmd))
        | Some handler => try_catch (handler args) (fun message => ret (fail message))
        end
    end.

End Handlers.

(* ================================================================== *)
(** ** kernel.worker.ts: persist and self.onmessage *)

Module Worker.

(** The values a field of an inbound message can hold, as far as the
    guard [!req.id || !req.type] and the [switch] tell them apart. *)
Inductive jsval :=
| JUndefined
| JNull
| JBool (b : bool)
| JNumber (z : Z)
| JString (s : jsstring).

Definition truthy (v : jsval) : bool :=
  match v with
  | JUndefined | JNull => false
  | JBool b => b
  | JNumber z => negb (z =? 0)%Z
  | JString s => nonempty s
  end.

(** An [Error] after [err instanceof Error ? err : new Error(String(err))]. *)
Record JsError := { message : jsstring; stack : jsstring }.

(** A synchronous call returns or throws. *)
Inductive completion (A : Type) : Type :=
| Normal (a : A)
| Throw (e : JsError).
Arguments Normal {A} a.
Arguments Throw {A} e.

(** [KernelAPI]: the storage engine (the WebAssembly module). [FS] is the
    tree it holds. *)
Class KernelAPI (FS : Type) := {
  hello : jsstring -> FS -> completion jsstring;
  fs_dump_state : FS -> completion bytes;
  fs_mkdir : jsstring -> FS -> completion unit * FS;
  fs_read_file : jsstring -> FS -> completion bytes;
  fs_readdir : jsstring -> FS -> completion (list jsstring);
  fs_write_file : jsstring -> bytes -> FS -> completion unit * FS;
  fs_stat : jsstring -> FS -> completion Stat;
  fs_rm : jsstring -> FS -> completion unit * FS;
  fs_rmdir : jsstring -> FS -> completion unit * FS;
  fs_mv : jsstring -> jsstring -> FS -> completion unit * FS;
  fs_cp : jsstring -> jsstring -> FS -> completion unit * FS
}.

(** The fields of every variant of [KernelRequest] side by side; a variant
    reads only its own. *)
Record KernelRequest := {
  req_id : jsval;
  req_type : jsval;
  req_name : jsstring;
  req_path : jsstring;
  req_data : bytes;
  req_from : jsstring;
  req_to : jsstring
}.

(** The worker's surroundings: the durable byte store behind
    [idbSetBytes], the key [FS_KEY] of appConfig, and what the engine adds
    to an [Error] made here. [D] is the state of the store. *)
Class WorkerHost (D : Type) := {
  FS_KEY : jsstring;
  idbSetBytes : jsstring -> bytes -> D -> completion unit * D;
  new_Error : jsstring -> JsError;
  JSON_stringify : KernelRequest -> jsstring
}.

(** What [result] holds in a success response; [PUndefined] when the
    [switch] never assigned it. *)
Inductive payload :=
| PUndefined
| PString (s : jsstring)
| PNames (names : list jsstring)
| PBytes (b : bytes)
| PStat (s : Stat).

(** [KernelResponse]; [None] is a key the object literal does not have. *)
Record KernelResponse := {
  resp_id : jsval;
  resp_ok : bool;
  resp_result : option payload;
  resp_error : option JsError
}.

(** What the handler does to the outside, in the order it does it. *)
Inductive event :=
| IdbSet (key : jsstring) (value : bytes)
| PostMessage (response : KernelResponse).

(** [api] ([None] is [null]) and the byte store. *)
Record state (FS D : Type) := { api : option FS; idb : D }.

Section Handler.

Context {FS D : Type} `{KernelAPI FS} `{WorkerHost D}.

Definition persist (w : state FS D) : completion unit * state FS D * list event :=
  match api w with
  | None => (Throw (new_Error (js "Kernel not initialized")), w, [])
  | Some fs =>
      match fs_dump_state fs with
      | Normal dump =>
          let (r, d) := idbSetBytes FS_KEY dump (idb w) in
          (r, {| api := api w; idb := d |}, [IdbSet FS_KEY dump])
      | Throw e => (Throw e, w, [])
      end
  end.

Definition type_is (req : KernelRequest) (tag : string) : bool :=
  match req_type req with
  | JString s => str_eqb s (js tag)
  | _ => false
  end.

(** [result = api.q(...)]: [needsPersist] stays [false]. *)
Definition read {A} (wrap : A -> payload) (r : completion A) (fs : FS)
  : completion (payload * bool) * FS :=
  match r with
  | Normal a => (Normal (wrap a, false), fs)
  | Throw e => (Throw e, fs)
  end.

(** [api.m(...); needsPersist = true]: [result] stays [undefined]. *)
Definition write (r : completion unit * FS) : completion (payload * bool) * FS :=
  match r with
  | (Normal _, fs') => (Normal (PUndefined, true), fs')
  | (Throw e, fs') => (Throw e, fs')
  end.

(** The [switch (req.type)]: [result] and [needsPersist] after it. *)
Definition run_switch (req : KernelRequest) (fs : FS) : completion (payload * bool) * FS :=
  if type_is req "hello" then read PString (hello (req_name req) fs) fs
  else if type_is req "fs_mkdir" then write (fs_mkdir (req_path req) fs)
  else if type_is req "fs_readdir" then read PNames (fs_readdir (req_path req) fs) fs
  else if type_is req "fs_write_file" then write (fs_write_file (req_path req) (req_data req) fs)
  else if type_is req "fs_read_file" then read PBytes (fs_read_file (req_path req) fs) fs
  else if type_is req "fs_stat" then read PStat (fs_stat (req_path req) fs) fs
  else if type_is req "fs_rm" then write (fs_rm (req_path req) fs)
  else if type_is req "fs_rmdir" then write (fs_rmdir (req_path req) fs)
  else if type_is req "fs_mv" then write (fs_mv (req_from req) (req_to req) fs)
  else if type_is req "fs_cp" then write (fs_cp (req_from req) (req_to req) fs)
  else (Throw (new_Error (js "Unknown request type: " ++ JSON_stringify req)), fs).

(** The [try] block up to the point where the response is built. *)
Definition try_block (req : KernelRequest) (w : state FS D)
  : completion payload * state FS D * list event :=
  match api w with
  | None => (Throw (new_Error (js "Kernel not initialized")), w, [])
  | Some fs =>
      match run_switch req fs with
      | (Normal (result, needsPersist), fs') =>
          let w1 := {| api := Some fs'; idb := idb w |} in
          if needsPersist then
            match persist w1 with
            | (Normal _, w2, evs) => (Normal result, w2, evs)
            | (Throw e, w2, evs) => (Throw e, w2, evs)
            end
          else (Normal result, w1, [])
      | (Throw e, fs') => (Throw e, {| api := Some fs'; idb := idb w |}, [])
      end
  end.

(** [self.onmessage]; [ev] is [ev.data], [None] when it is null or
    undefined. *)
Definition onmessage (ev : option KernelRequest) (w : state FS D)
  : state FS D * list event :=
  match ev with
  | None => (w, [])
  | Some req =>
      if negb (truthy (req_id req)) || negb (truthy (req_type req)) then (w, [])
      else
        match try_block req w with
        | (Normal result, w', evs) =>
            (w', evs ++ [PostMessage {| resp_id := req_id req; resp_ok := true;
                                        resp_result := Some result; resp_error := None |}])
        | (Throw e, w', evs) =>
            (w', evs ++ [PostMessage {| resp_id := req_id req; resp_ok := false;
                                        resp_result := None; resp_error := Some e |}])
        end
  end.

End Handler.

(** The tags of the requests that change the tree, and of those that only
    read. *)
Definition mutating_tags : list string :=
  ["fs_mkdir"; "fs_write_file"; "fs_rm"; "fs_rmdir"; "fs_mv"; "fs_cp"]%string.

Definition read_only_tags : list string :=
  ["hello"; "fs_readdir"; "fs_read_file"; "fs_stat"]%string.

Definition mutating (req : KernelRequest) : bool := existsb (type_is req) mutating_tags.
Definition read_only (req : KernelRequest) : bool := existsb (type_is req) read_only_tags.
Definition recognized (req : KernelRequest) : bool := mutating req || read_only req.

Definition is_post (e : event) : bool :=
  match e with PostMessage _ => true | IdbSet _ _ => false end.

Definition is_store_write (e : event) : bool :=
  match e with IdbSet _ _ => true | PostMessage _ => false end.

(** The response [onmessage] builds from the outcome of its [try] block. *)
Definition response_to (req : KernelRequest) (r : completion payload) : KernelResponse :=
  match r with
  | Normal result => {| resp_id := req_id req; resp_ok := true;
                        resp_result := Some result; resp_error := None |}
  | Throw e => {| resp_id := req_id req; resp_ok := false;
                  resp_result := None; resp_error := Some e |}
  end.

End Worker.

(* ================================================================== *)
(** ** An in-memory storage engine, for running the model on examples *)

Module MemFs.

Inductive node :=
| FileNode (content : bytes)
| DirNode.

(** Modelled from the spec: the storage engine (the [kernel] WebAssembly
    module and the client in front of it are not among the sources), after
    the table of its operations: a map from absolute normalized paths to
    nodes, the root being a directory that is always there. Only the
    examples run on it; every general statement is about any engine. *)
Definition tree := list (jsstring * node).

Definition segments (p : jsstring) : list jsstring := filter nonempty (split_on SLASH p).

Definition parent (p : jsstring) : jsstring := SLASH :: join [SLASH] (removelast (segments p)).

Definition basename (p : jsstring) : jsstring := last (segments p) [].

Fixpoint assoc (p : jsstring) (t : tree) : option node :=
  match t with
  | [] => None
  | (q, n) :: t' => if str_eqb q p then Some n else assoc p t'
  end.

Definition lookup (p : jsstring) (t : tree) : option node :=
  if str_eqb p [SLASH] then Some DirNode else assoc p t.

Definition remove (p : jsstring) (t : tree) : tree :=
  filter (fun e => negb (str_eqb (fst e) p)) t.

Definition children (p : jsstring) (t : tree) : list jsstring :=
  map (fun e => basename (fst e)) (filter (fun e => str_eqb (parent (fst e)) p) t).

Definition stat (p : jsstring) (t : tree) : reply Stat :=
  match lookup p t with
  | Some DirNode => Resolved {| is_dir := true; is_file := false; size := 0 |}
  | Some (FileNode c) =>
      Resolved {| is_dir := false; is_file := true; size := N.of_nat (List.length c) |}
  | None => Rejected (js "not found: " ++ p)
  end.

Definition readdir (p : jsstring) (t : tree) : reply (list jsstring) :=
  match lookup p t with
  | Some DirNode => Resolved (children p t)
  | Some (FileNode _) => Rejected (js "not a directory: " ++ p)
  | None => Rejected (js "not found: " ++ p)
  end.

Definition read_file (p : jsstring) (t : tree) : reply bytes :=
  match lookup p t with
  | Some (FileNode c) => Resolved c
  | Some DirNode => Rejected (js "is a directory: " ++ p)
  | None => Rejected (js "not found: " ++ p)
  end.

Definition write_file (p : jsstring) (c : bytes) (t : tree) : reply unit * tree :=
  match lookup p t, lookup (parent p) t with
  | Some DirNode, _ => (Rejected (js "is a directory: " ++ p), t)
  | _, Some DirNode => (Resolved tt, remove p t ++ [(p, FileNode c)])
  | _, _ => (Rejected (js "parent not found: " ++ p), t)
  end.

Definition mkdir (p : jsstring) (t : tree) : reply unit * tree :=
  match lookup p t, lookup (parent p) t with
  | Some _, _ => (Rejected (js "already exists: " ++ p), t)
  | None, Some DirNode => (Resolved tt, t ++ [(p, DirNode)])
  | None, _ => (Rejected (js "parent not found: " ++ p), t)
  end.

Definition rm (p : jsstring) (t : tree) : reply unit * tree :=
  match assoc p t with
  | Some (FileNode _) => (Resolved tt, remove p t)
  | Some DirNode => (Rejected (js "is a directory: " ++ p), t)
  | None => (Rejected (js "not found: " ++ p), t)
  end.

Definition rmdir (p : jsstring) (t : tree) : reply unit * tree :=
  match assoc p t with
  | Some DirNode =>
      match children p t with
      | [] => (Resolved tt, remove p t)
      | _ :: _ => (Rejected (js "directory not empty: " ++ p), t)
      end
  | Some (FileNode _) => (Rejected (js "not a directory: " ++ p), t)
  | None => (Rejected (js "not found: " ++ p), t)
  end.

Fixpoint is_prefix (a b : jsstring) : bool :=
  match a, b with
  | [], _ => true
  | x :: a', y :: b' => (x =? y) && is_prefix a' b'
  | _ :: _, [] => false
  end.

Definition rename (from to q : jsstring) : jsstring :=
  if str_eqb q from then to
  else if is_prefix (from ++ [SLASH]) q then to ++ skipn (List.length from) q
  else q.

Definition mv (from to : jsstring) (t : tree) : reply unit * tree :=
  match assoc from t, lookup to t with
  | None, _ => (Rejected (js "not found: " ++ from), t)
  | Some _, Some _ => (Rejected (js "already exists: " ++ to), t)
  | Some _, None => (Resolved tt, map (fun e => (rename from to (fst e), snd e)) t)
  end.

Definition cp (from to : jsstring) (t : tree) : reply unit * tree :=
  match assoc from t with
  | Some (FileNode c) => write_file to c t
  | Some DirNode => (Rejected (js "is a directory: " ++ from), t)
  | None => (Rejected (js "not found: " ++ from), t)
  end.

#[global] Instance client : KernelClient tree := {|
  hello := fun name _ => Resolved (js "Hello, " ++ name ++ js "!");
  fs_stat := stat;
  fs_readdir := readdir;
  fs_read_file := read_file;
  fs_mkdir := mkdir;
  fs_write_file := write_file;
  fs_rm := rm;
  fs_rmdir := rmdir;
  fs_mv := mv;
  fs_cp := cp
|}.

(** What happened to the browser, in order. *)
Inductive host_event :=
| DatabaseCleared
| Reloaded
| FileOpened (path : jsstring)
| EditorOpened (path : jsstring).

Definition byte_of (c : code_unit) : Byte.byte :=
  match Byte.of_N (c mod 256) with
  | Some b => b
  | None => Byte.x00
  end.

(** The text codecs are exact on ASCII text, which is all the examples
    use. *)
#[global] Instance browser : Host (list host_event) := {|
  clearDatabase := fun h => (Resolved tt, h ++ [DatabaseCleared]);
  reload := fun h => h ++ [Reloaded];
  openFile := fun p h => h ++ [FileOpened p];
  openEditor := fun p h => h ++ [EditorOpened p];
  encode := map byte_of;
  decode := map Byte.to_N
|}.

Definition terminal (c : jsstring) (t : tree) : Terminal tree (list host_event) :=
  {| cwd := c; promptStr := js "user"; clearScreenCode := [27; 99];
     history := []; remote := t; host := [] |}.

(** The worker's side of the same engine. *)
Definition thrown {A} (r : reply A) : Worker.completion A :=
  match r with
  | Resolved a => Worker.Normal a
  | Rejected msg => Worker.Throw {| Worker.message := msg; Worker.stack := [] |}
  end.

Definition thrown_with {A} (r : reply A * tree) : Worker.completion A * tree :=
  (thrown (fst r), snd r).

Definition dump (t : tree) : bytes :=
  flat_map (fun e => map byte_of (fst e) ++ [Byte.x00]
                     ++ match snd e with
                        | FileNode c => Byte.x01 :: c
                        | DirNode => [Byte.x02]
                        end ++ [Byte.x00]) t.

#[global] Instance engine : Worker.KernelAPI tree := {|
  Worker.hello := fun name _ => Worker.Normal (js "Hello, " ++ name ++ js "!");
  Worker.fs_dump_state := fun t => Worker.Normal (dump t);
  Worker.fs_mkdir := fun p t => thrown_with (mkdir p t);
  Worker.fs_read_file := fun p t => thrown (read_file p t);
  Worker.fs_readdir := fun p t => thrown (readdir p t);
  Worker.fs_write_file := fun p c t => thrown_with (write_file p c t);
  Worker.fs_stat := fun p t => thrown (stat p t);
  Worker.fs_rm := fun p t => thrown_with (rm p t);
  Worker.fs_rmdir := fun p t => thrown_with (rmdir p t);
  Worker.fs_mv := fun a b t => thrown_with (mv a b t);
  Worker.fs_cp := fun a b t => thrown_with (cp a b t)
|}.

(** The byte store as a list of keys and values, newest first. *)
Definition store := list (jsstring * bytes).

#[global] Instance worker_host : Worker.WorkerHost store := {|
  Worker.FS_KEY := js "fs_state";
  Worker.idbSetBytes := fun key value d => (Worker.Normal tt, (key, value) :: d);
  Worker.new_Error := fun msg => {| Worker.message := msg; Worker.stack := [] |};
  Worker.JSON_stringify := fun _ => js "{}"
|}.

Definition request (id : jsstring) (type : string) (path : jsstring) : Worker.KernelRequest :=
  {| Worker.req_id := Worker.JString id; Worker.req_type := Worker.JString (js type);
     Worker.req_name := []; Worker.req_path := path; Worker.req_data := [];
     Worker.req_from := []; Worker.req_to := [] |}.

End MemFs.

(* ================================================================== *)
(** ** The vocabulary of the properties *)

Definition all_nonempty (tokens : list jsstring) : Prop := Forall (fun t => t <> []) tokens.

(** Characters that are neither white space nor a quote. *)
Definition plain (c : code_unit) : bool :=
  negb (is_space c) && negb (c =? QUOTE) && negb (c =? DQUOTE).

Definition no_quote (c : code_unit) : bool := negb (c =? QUOTE).

(** In double quotes, only the closing quote and the backslash are special. *)
Definition no_dquote_backslash (c : code_unit) : bool :=
  negb (c =? DQUOTE) && negb (c =? BACKSLASH).

Definition free_of (sep : code_unit) (s : jsstring) : bool :=
  forallb (fun c => negb (c =? sep)) s.

(** A segment that [normalizePath] keeps. *)
Definition kept (part : jsstring) : bool :=
  nonempty part && free_of SLASH part
  && negb (str_eqb part [DOT]) && negb (str_eqb part [DOT; DOT]).

Section HistoryVocabulary.

Context {K H : Type} `{KernelClient K} `{Host H}.

(** A computation that leaves [history] as it found it. *)
Definition keeps_history {A} (m : M (K:=K) (H:=H) A) : Prop :=
  forall t, history (snd (m t)) = history t.

End HistoryVocabulary.

(** The lines of a session, one [exec] after the other. *)
Fixpoint exec_all {K H : Type} `{KernelClient K} `{Host H}
  (fuel : nat) (lines : list jsstring) (t : Terminal K H) : Terminal K H :=
  match lines with
  | [] => t
  | line :: rest => exec_all fuel rest (snd (exec fuel line t))
  end.

Definition echo_usage : TerminalResult := fail (js "usage: echo <text> > <file>").

Definition str_le (a b : jsstring) : Prop := str_leb a b = true.

(** Two lists of lines that print as the same text. *)
Definition same_text (a b : list jsstring) : Prop :=
  join [LF] a = join [LF] b /\ (a = [] <-> b = []).

(** Lines that come back whole from [split('\n')] and the filter: none
    of them has an empty piece. *)
Definition solid (lines : list jsstring) : bool :=
  forallb (fun line => forallb nonempty (split_on LF line)) lines.

(** The rendering of [tree] written after the words of the specification,
    to be compared with what [buildTree] returns. *)
Section TreeSpecification.

Context {K : Type} `{KernelClient K}.
Variable k : K.

(** What [stat] does not report as a directory is a leaf. *)
Definition is_directory (p : jsstring) : bool :=
  match fs_stat p k with
  | Resolved stat => is_dir stat
  | Rejected _ => false
  end.

(** A directory that cannot be read has no children. *)
Definition listing (path : jsstring) : list jsstring :=
  match fs_readdir path k with
  | Resolved entries => entries
  | Rejected _ => []
  end.

(** Directories first, each group in order. *)
Definition ordered (path : jsstring) : list jsstring :=
  sort (filter (fun entry => is_directory (entry_path path entry)) (listing path))
  ++ sort (filter (fun entry => negb (is_directory (entry_path path entry))) (listing path)).

(** The lines of one level: every child on a line of its own behind its
    connector, a subdirectory followed by the lines of its own children
    under the extended prefix. [below] renders a subdirectory. *)
Fixpoint level_lines (below : jsstring -> jsstring -> option (list jsstring))
  (path prefix : jsstring) (entries : list jsstring) : option (list jsstring) :=
  match entries with
  | [] => Some []
  | entry :: rest =>
      let isLast := match rest with [] => true | _ :: _ => false end in
      let connector := if isLast then LAST_BRANCH else BRANCH in
      let indent := if isLast then BLANK_INDENT else PIPE_INDENT in
      match level_lines below path prefix rest with
      | None => None
      | Some after =>
          if is_directory (entry_path path entry) then
            match below (entry_path path entry) (prefix ++ indent) with
            | Some inner => Some ((prefix ++ connector ++ entry ++ [SLASH]) :: inner ++ after)
            | None => None
            end
          else Some ((prefix ++ connector ++ entry) :: after)
      end
  end.

(** The lines under [path], for a tree of less than [depth] levels. *)
Fixpoint tree_lines (depth : nat) (path prefix : jsstring) : option (list jsstring) :=
  match depth with
  | O => None
  | S depth' => level_lines (tree_lines depth') path prefix (ordered path)
  end.

(** The subdirectories of [path] render to solid lines: these are the
    lines that the call for [path] reads back from the text of its
    recursive calls. *)
Definition solid_below (depth : nat) (path prefix : jsstring) : Prop :=
  forall entry indent inner,
    In entry (listing path) ->
    is_directory (entry_path path entry) = true ->
    indent = BLANK_INDENT \/ indent = PIPE_INDENT ->
    tree_lines depth (entry_path path entry) (prefix ++ indent) = Some inner ->
    solid inner = true.

(** A tree of at most [n] levels below [path]. *)
Inductive shallow : nat -> jsstring -> Prop :=
| shallow_level (n : nat) (path : jsstring) :
    (forall entry,
        In entry (listing path) -> is_directory (entry_path path entry) = true ->
        shallow n (entry_path path entry)) ->
    shallow (S n) path.

End TreeSpecification.

(* ================================================================== *)
(** ** terminal.ts: the constructor and the getters *)

(** [TerminalOptions]; [None] is a field that is not given. *)
Record TerminalOptions := {
  opt_cwd : option jsstring;
  opt_prompt : option jsstring;
  opt_clearScreenCode : option jsstring
}.

(** What the constructor reads of [defaultAppConfig] (config/appConfig is
    not among the sources): [filesystem.rootPath], [terminal.promptDefault]
    and [terminal.clearScreenCode]. *)
Record TerminalDefaults := {
  rootPath : jsstring;
  promptDefault : jsstring;
  defaultClearScreenCode : jsstring
}.

(** [a ?? b] *)
Definition or_default {A} (a : option A) (b : A) : A :=
  match a with
  | Some x => x
  | None => b
  end.

(** [new Terminal(kernel, opts)]: [kernel] is the state behind the client
    and [h] the browser the terminal runs in. *)
Definition new_Terminal {K H : Type} (d : TerminalDefaults) (kernel : K) (h : H)
  (opts : TerminalOptions) : Terminal K H :=
  {| cwd := normalizePath (or_default (opt_cwd opts) (rootPath d));
     promptStr := or_default (opt_prompt opts) (promptDefault d);
     clearScreenCode := or_default (opt_clearScreenCode opts) (defaultClearScreenCode d);
     history := [];
     remote := kernel;
     host := h |}.

(** [get prompt()] *)
Definition prompt {K H : Type} (t : Terminal K H) : jsstring :=
  promptStr t ++ js ":" ++ cwd t ++ js "$".

(** [getCwd()] and [getHistory()] are the fields [cwd] and [history]. *)

(** ** More vocabulary *)

(** The two shapes of a [TerminalResult]: what [ok] and what [fail] make. *)
Definition shaped (r : TerminalResult) : Prop :=
  (code r = 0%Z /\ stderr r = []) \/ (code r = 1%Z /\ stdout r = []).

(** A path that [normalizePath] leaves as it is. *)
Definition normalized (p : jsstring) : Prop := normalizePath p = p.

(** The stack [normalizePath] ends with. *)
Definition stack_of (path : jsstring) : list jsstring :=
  fold_left normalize_step (filter nonempty (split_on SLASH path)) [].

(** The commands that call a mutation of the kernel, and those that reach
    for the browser. *)
Definition mutating_commands : list jsstring :=
  [js "mkdir"; js "echo"; js "rm"; js "rmdir"; js "mv"; js "cp"; js "edit"].

Definition host_commands : list jsstring := [js "open"; js "edit"; js "sudo"].

(** The command a line names: its first token, if it has one. *)
Definition command_of (line : jsstring) : option jsstring :=
  match tokenize (trim line) with
  | [] => None
  | cmd :: _ => Some cmd
  end.

Definition is_one_of (cmd : option jsstring) (names : list jsstring) : bool :=
  match cmd with
  | Some c => existsb (str_eqb c) names
  | None => false
  end.

(** The names [registerBuiltins] registers. *)
Definition command_names : list jsstring :=
  [ js "help"; js "clear"; js "reset"; js "sudo"; js "hello"; js "pwd"; js "open";
    js "edit"; js "cd"; js "ls"; js "tree"; js "mkdir"; js "cat"; js "echo"; js "rm";
    js "rmdir"; js "mv"; js "cp"; js "stat" ].

(** A word that needs no quoting: not empty, no white space, no quote. *)
Definition bare_word (w : jsstring) : bool := nonempty w && forallb plain w.

(** The non-empty segments of a path: [path.split('/').filter(...)]. *)
Definition segments (path : jsstring) : list jsstring :=
  filter nonempty (split_on SLASH path).

(** A path argument that is resolved against [cwd]: one that does not
    start with a slash. *)
Definition relative (p : jsstring) : bool := negb (startsWith SLASH p).

(* ================================================================== *)
(** ** kernel.worker.ts: the handlers of many messages *)

Module WorkerRun.
Import Worker.

(** A message the guard of [onmessage] lets through. *)
Definition well_formed (ev : option KernelRequest) : bool :=
  match ev with
  | Some req => truthy (req_id req) && truthy (req_type req)
  | None => false
  end.

Definition id_of (ev : option KernelRequest) : jsval :=
  match ev with
  | Some req => req_id req
  | None => JUndefined
  end.

Definition is_mutating (ev : option KernelRequest) : bool :=
  match ev with
  | Some req => mutating req
  | None => false
  end.

(** The identifiers of the responses among the events, in order. *)
Fixpoint response_ids (events : list event) : list jsval :=
  match events with
  | [] => []
  | PostMessage response :: rest => resp_id response :: response_ids rest
  | IdbSet _ _ :: rest => response_ids rest
  end.

(** [self.onmessage] is an [async] function. A handler runs without
    interruption up to the one point where it waits for something outside
    the worker: [await persist()], once [persist] has called
    [idbSetBytes]. Until the store settles that call, the event loop
    dispatches other messages. A handler that waits there is kept as the
    request it will answer, the [result] it holds and the bytes it gave to
    the store. *)
Record waiting := { asked : KernelRequest; held : payload; sent : bytes }.

Definition waiting_id (p : waiting) : jsval := req_id (asked p).

(** The worker between two turns of the event loop: [api] and the store as
    they are now, and the handlers that wait for the store, oldest
    first. *)
Record worker (FS D : Type) := { now : state FS D; waiters : list waiting }.

(** A turn of the event loop: a message is dispatched; the store settles
    the call of the waiting handler at an index, which resumes it; or the
    start of the worker, the only other code that assigns [api] and writes
    the store, moves on and leaves them as given. *)
Inductive turn (FS D : Type) :=
| Message (ev : option KernelRequest)
| Settled (n : nat)
| Elsewhere (w : state FS D).
Arguments Message {FS D} ev.
Arguments Settled {FS D} n.
Arguments Elsewhere {FS D} w.

(** The messages dispatched in a run, in order. *)
Fixpoint delivered {FS D : Type} (turns : list (turn FS D)) : list (option KernelRequest) :=
  match turns with
  | [] => []
  | Message ev :: rest => ev :: delivered rest
  | _ :: rest => delivered rest
  end.

(** The element at an index, and the list without it. *)
Fixpoint take {A : Type} (n : nat) (l : list A) : option (A * list A) :=
  match l, n with
  | [], _ => None
  | x :: rest, O => Some (x, rest)
  | x :: rest, S n' =>
      match take n' rest with
      | Some (y, rest') => Some (y, x :: rest')
      | None => None
      end
  end.

Section Run.

Context {FS D : Type} `{KernelAPI FS} `{WorkerHost D}.

(** The handler from its start to its end, or to [await persist()] with
    [idbSetBytes] called: the guard, the [switch], [fs_dump_state]. An
    exception on the way is caught and answered at once. *)
Definition to_await (ev : option KernelRequest) (w : state FS D)
  : state FS D * list event * option waiting :=
  match ev with
  | None => (w, [], None)
  | Some req =>
      if negb (truthy (req_id req)) || negb (truthy (req_type req)) then (w, [], None)
      else
        match api w with
        | None =>
            (w, [PostMessage (response_to req (Throw (new_Error (js "Kernel not initialized"))))],
             None)
        | Some fs =>
            match run_switch req fs with
            | (Normal (result, needsPersist), fs') =>
                let w1 := {| api := Some fs'; idb := idb w |} in
                if needsPersist then
                  match fs_dump_state fs' with
                  | Normal dump =>
                      (w1, [IdbSet FS_KEY dump],
                       Some {| asked := req; held := result; sent := dump |})
                  | Throw e => (w1, [PostMessage (response_to req (Throw e))], None)
                  end
                else (w1, [PostMessage (response_to req (Normal result))], None)
            | (Throw e, fs') =>
                ({| api := Some fs'; idb := idb w |},
                 [PostMessage (response_to req (Throw e))], None)
            end
        end
  end.

(** The rest of a handler that waited: the store has done what it was
    asked, or has failed, and the response is posted. The write takes
    effect in the turn in which the store settles it, so that calls can
    take effect in any order; a store that serves them in the order of
    the calls is the case where the handlers resume oldest first. *)
Definition from_await (p : waiting) (w : state FS D) : state FS D * list event :=
  let (r, d) := idbSetBytes FS_KEY (sent p) (idb w) in
  ({| api := api w; idb := d |},
   [PostMessage (response_to (asked p)
                   match r with
                   | Normal _ => Normal (held p)
                   | Throw e => Throw e
                   end)]).

Definition step (t : turn FS D) (s : worker FS D) : worker FS D * list event :=
  match t with
  | Message ev =>
      match to_await ev (now s) with
      | (w, events, Some p) => ({| now := w; waiters := waiters s ++ [p] |}, events)
      | (w, events, None) => ({| now := w; waiters := waiters s |}, events)
      end
  | Settled n =>
      match take n (waiters s) with
      | Some (p, rest) =>
          let (w, events) := from_await p (now s) in
          ({| now := w; waiters := rest |}, events)
      | None => (s, [])
      end
  | Elsewhere w => ({| now := w; waiters := waiters s |}, [])
  end.

(** The turns of a run, one after the other, and what the handlers do to
    the outside in them. *)
Fixpoint run (turns : list (turn FS D)) (s : worker FS D) : worker FS D * list event :=
  match turns with
  | [] => (s, [])
  | t :: rest =>
      let (s1, events1) := step t s in
      let (s2, events2) := run rest s1 in
      (s2, events1 ++ events2)
  end.

End Run.

End WorkerRun.

(* ================================================================== *)
(** ** kernel.worker.ts: the start of the worker *)

Module Boot.
Import Worker.

(** What the start needs beyond [KernelAPI]: restoring the tree from the
    persisted bytes, or making an empty one when there are none. *)
Class BootEngine (FS : Type) := {
  fs_init_from_bytes : option bytes -> FS -> completion unit * FS
}.

(** Importing the [kernel] module and initializing it, and reading the
    byte store ([None] is [undefined]: nothing stored under the key). *)
Class BootHost (D : Type) := {
  import_kernel : completion unit;
  idbGetBytes : jsstring -> D -> completion (option bytes)
}.

(** The documents the start writes, encoded: [JSON.stringify] of
    [defaultAppConfig], [defaultThemeCss] (both from files that are not
    among the sources) and the texts that are array literals in the
    worker. What is proved of the start holds whatever they say. *)
Record Documents := {
  configText : bytes;
  themeCss : bytes;
  welcomeText : bytes;
  terminalInfo : bytes;
  textviewerInfo : bytes;
  filebrowserInfo : bytes;
  notesInfo : bytes;
  editorInfo : bytes;
  resumeText : bytes;
  repairedEditorInfo : bytes
}.

Inductive lifecycle :=
| Ready
| Fatal (e : JsError).

(** What the start does to the outside, in order. *)
Inductive boot_event :=
| StoreWrite (key : jsstring) (value : bytes)
| Post (m : lifecycle).

Definition of_event (e : event) : list boot_event :=
  match e with
  | IdbSet key value => [StoreWrite key value]
  | PostMessage _ => []
  end.

Definition baseDirs : list jsstring :=
  [ js "/home"; js "/bin"; js "/etc"; js "/tmp"; js "/var"; js "/usr"; js "/usr/local";
    js "/opt"; js "/dev"; js "/apps" ].

Definition appDirs : list jsstring :=
  [ js "/apps/terminal"; js "/apps/textviewer"; js "/apps/filebrowser"; js "/apps/notes";
    js "/apps/editor" ].

Section Start.

Context {FS D : Type} `{KernelAPI FS} `{WorkerHost D} `{BootEngine FS} `{BootHost D}.
Variable docs : Documents.

(** A stretch of the start, once [api] is set: it runs on the tree and the
    store, and returns or throws. *)
Definition step : Type := FS * D -> completion unit * (FS * D) * list boot_event.

Definition skip : step := fun s => (Normal tt, s, []).

Definition seq (a b : step) : step :=
  fun s =>
    match a s with
    | (Normal _, s1, events1) =>
        let '(r, s2, events2) := b s1 in (r, s2, events1 ++ events2)
    | (Throw e, s1, events1) => (Throw e, s1, events1)
    end.

(** [api.m(...)] *)
Definition call (m : FS -> completion unit * FS) : step :=
  fun s => let (r, fs') := m (fst s) in (r, (fs', snd s), []).

(** [await persist()] *)
Definition persisting : step :=
  fun s =>
    let '(r, w, events) := persist {| api := Some (fst s); idb := snd s |} in
    (r, (match api w with Some fs => fs | None => fst s end, idb w),
     flat_map of_event events).

(** [for (const dir of dirs) api.fs_mkdir(dir)] *)
Fixpoint mkdirs (dirs : list jsstring) : step :=
  match dirs with
  | [] => skip
  | dir :: rest => seq (call (fs_mkdir dir)) (mkdirs rest)
  end.

(** The body of the [try] under [if (!persisted)]. *)
Definition seed : step :=
  seq (mkdirs baseDirs)
  (seq (mkdirs appDirs)
  (seq (call (fs_write_file (js "/etc/app-config.json") (configText docs)))
  (seq (call (fs_write_file (js "/etc/theme.css") (themeCss docs)))
  (seq (call (fs_write_file (js "/home/welcome.txt") (welcomeText docs)))
  (seq (call (fs_write_file (js "/apps/terminal/README.txt") (terminalInfo docs)))
  (seq (call (fs_write_file (js "/apps/textviewer/README.txt") (textviewerInfo docs)))
  (seq (call (fs_write_file (js "/apps/filebrowser/README.txt") (filebrowserInfo docs)))
  (seq (call (fs_write_file (js "/apps/notes/README.txt") (notesInfo docs)))
  (seq (call (fs_write_file (js "/apps/editor/README.txt") (editorInfo docs)))
  (seq (call (fs_write_file (js "/home/resume.txt") (resumeText docs)))
       persisting)))))))))).

(** [try { a } catch (err) { console.error(...) }] *)
Definition logged (a : step) : step :=
  fun s =>
    match a s with
    | (Throw _, s1, events1) => (Normal tt, s1, events1)
    | r => r
    end.

(** [try { api.fs_stat(path) } catch { repair }] *)
Definition probe (path : jsstring) (repair : step) : step :=
  fun s =>
    match fs_stat path (fst s) with
    | Normal _ => (Normal tt, s, [])
    | Throw _ => repair s
    end.

Definition repairs : step :=
  seq (probe (js "/etc/app-config.json")
         (seq (call (fs_write_file (js "/etc/app-config.json") (configText docs)))
              persisting))
  (seq (probe (js "/etc/theme.css")
         (seq (call (fs_write_file (js "/etc/theme.css") (themeCss docs))) persisting))
       (probe (js "/apps/editor")
         (seq (call (fs_mkdir (js "/apps/editor")))
         (seq (call (fs_write_file (js "/apps/editor/README.txt") (repairedEditorInfo docs)))
              persisting)))).

(** From [api.fs_init_from_bytes] to the last repair. *)
Definition restore_and_repair (persisted : option bytes) : step :=
  seq (call (fs_init_from_bytes persisted))
  (seq (match persisted with
        | None => logged seed
        | Some _ => skip
        end)
       repairs).

(** The asynchronous function the module runs when it is loaded. [fresh]
    is the tree of the module as imported, [d] the store. *)
Definition start (fresh : FS) (d : D) : state FS D * list boot_event :=
  match import_kernel with
  | Throw e => ({| api := None; idb := d |}, [Post (Fatal e)])
  | Normal _ =>
      match idbGetBytes FS_KEY d with
      | Throw e => ({| api := Some fresh; idb := d |}, [Post (Fatal e)])
      | Normal persisted =>
          match restore_and_repair persisted (fresh, d) with
          | (Normal _, (fs, d'), events) =>
              ({| api := Some fs; idb := d' |}, events ++ [Post Ready])
          | (Throw e, (fs, d'), events) =>
              ({| api := Some fs; idb := d' |}, events ++ [Post (Fatal e)])
          end
      end
  end.

(** A stretch of the start that writes the store at most [n] times, under
    [FS_KEY] each time, and posts nothing. *)
Definition writes_at_most (n : nat) (a : step) : Prop :=
  forall s,
    Forall (fun e => exists value, e = StoreWrite FS_KEY value) (snd (a s)) /\
    (List.length (snd (a s)) <= n)%nat.

End Start.

Definition is_write (e : boot_event) : bool :=
  match e with StoreWrite _ _ => true | Post _ => false end.

End Boot.

(** The start on the in-memory engine, for the examples. The module is
    imported holding the tree its snapshot describes: restoring keeps it,
    and starting without a snapshot empties it. *)
Module MemBoot.

Fixpoint stored (key : jsstring) (d : MemFs.store) : option bytes :=
  match d with
  | [] => None
  | (k, v) :: d' => if str_eqb k key then Some v else stored key d'
  end.

#[global] Instance boot_engine : Boot.BootEngine MemFs.tree := {|
  Boot.fs_init_from_bytes := fun persisted t =>
    (Worker.Normal tt, match persisted with Some _ => t | None => [] end)
|}.

#[global] Instance boot_host : Boot.BootHost MemFs.store := {|
  Boot.import_kernel := Worker.Normal tt;
  Boot.idbGetBytes := fun key d => Worker.Normal (stored key d)
|}.

Definition documents : Boot.Documents :=
  {| Boot.configText := encode (js "{}");
     Boot.themeCss := encode (js "body {}");
     Boot.welcomeText := encode (js "Welcome");
     Boot.terminalInfo := encode (js "Terminal");
     Boot.textviewerInfo := encode (js "Text Viewer");
     Boot.filebrowserInfo := encode (js "File Browser");
     Boot.notesInfo := encode (js "Notes");
     Boot.editorInfo := encode (js "Text Editor");
     Boot.resumeText := encode (js "Resume");
     Boot.repairedEditorInfo := encode (js "Text Editor Application") |}.

End MemBoot.

(* ================================================================== *)
(** ** App.tsx and StatusBar.tsx: the windows of the desktop *)

Module Desktop.

Section Windows.

(** What a window shows ([ReactNode]). *)
Variable C : Type.

(** [WindowItem]; [None] is a flag that is not set. *)
Record WindowItem := {
  id : jsstring;
  title : jsstring;
  minimized : option bool;
  maximized : option bool;
  component : C
}.

(** Truthiness of an optional flag: [w.minimized], [w.maximized]. *)
Definition set (flag : option bool) : bool :=
  match flag with
  | Some b => b
  | None => false
  end.

(** The two pieces of state of [AppContent]; [None] is [undefined]. The
    handlers of one render read [windows] and [focusedWindow] as they
    are here, and their functional updates of [windows] apply one after
    the other. *)
Record desktop := {
  windows : list WindowItem;
  focusedWindow : option jsstring
}.

(** [focusedWindow === id] *)
Definition focused_is (d : desktop) (i : jsstring) : bool :=
  match focusedWindow d with
  | Some f => str_eqb f i
  | None => false
  end.

(** [remaining[0]?.id || undefined] *)
Definition first_id (l : list WindowItem) : option jsstring :=
  match l with
  | w :: _ => if nonempty (id w) then Some (id w) else None
  | [] => None
  end.

Definition with_minimized (w : WindowItem) (b : bool) : WindowItem :=
  {| id := id w; title := title w; minimized := Some b; maximized := maximized w;
     component := component w |}.

Definition with_maximized (w : WindowItem) (b : bool) : WindowItem :=
  {| id := id w; title := title w; minimized := minimized w; maximized := Some b;
     component := component w |}.

Definition closeWindow (i : jsstring) (d : desktop) : desktop :=
  {| windows := filter (fun w => negb (str_eqb (id w) i)) (windows d);
     focusedWindow :=
       if focused_is d i
       then first_id (filter (fun w => negb (str_eqb (id w) i)) (windows d))
       else focusedWindow d |}.

Definition setWindowMinimized (i : jsstring) (b : bool) (d : desktop) : desktop :=
  {| windows := map (fun w => if str_eqb (id w) i then with_minimized w b else w) (windows d);
     focusedWindow :=
       if b && focused_is d i
       then first_id (filter (fun w => negb (str_eqb (id w) i) && negb (set (minimized w)))
                             (windows d))
       else focusedWindow d |}.

Definition setWindowMaximized (i : jsstring) (b : bool) (d : desktop) : desktop :=
  {| windows := map (fun w => if str_eqb (id w) i then with_maximized w b
                              else if b then with_maximized w false
                              else w) (windows d);
     focusedWindow := focusedWindow d |}.

(** Alt+Enter: a new terminal window, under a fresh identifier. *)
Definition openWindow (uuid : jsstring) (terminal : C) (d : desktop) : desktop :=
  {| windows := windows d ++ [{| id := uuid; title := js "Terminal"; minimized := None;
                                 maximized := None; component := terminal |}];
     focusedWindow := Some uuid |}.

(** Alt+Shift+Q: close the focused window. *)
Definition closeFocused (d : desktop) : desktop :=
  match focusedWindow d with
  | None => d
  | Some f =>
      let filtered := filter (fun w => negb (str_eqb (id w) f)) (windows d) in
      {| windows := filtered;
         focusedWindow := option_map id (find (fun w => negb (set (minimized w))) filtered) |}
  end.

(** [onFocus] of a window: [setFocusedWindow(win.id)]. *)
Definition focus (win : WindowItem) (d : desktop) : desktop :=
  {| windows := windows d; focusedWindow := Some (id win) |}.

(** The [onClick] of an item of the status bar. *)
Definition taskItemClick (win : WindowItem) (d : desktop) : desktop :=
  let unmaximized :=
    match find (fun w => set (maximized w)) (windows d) with
    | Some maximizedWindow =>
        windows (setWindowMaximized (id maximizedWindow) false d)
    | None => windows d
    end in
  if negb (focused_is d (id win)) then
    {| windows :=
         if set (minimized win)
         then windows (setWindowMinimized (id win) false
                         {| windows := unmaximized; focusedWindow := focusedWindow d |})
         else unmaximized;
       focusedWindow := Some (id win) |}
  else
    {| windows := windows (setWindowMinimized (id win) true
                             {| windows := unmaximized; focusedWindow := focusedWindow d |});
       focusedWindow := focusedWindow (setWindowMinimized (id win) true d) |}.

(** The windows once the task item has un-maximized the first maximized
    one. *)
Definition unmaximized (d : desktop) : list WindowItem :=
  match find (fun w => set (maximized w)) (windows d) with
  | Some maximizedWindow => windows (setWindowMaximized (id maximizedWindow) false d)
  | None => windows d
  end.

(** The buttons of a window. *)
Definition maximizeButton (win : WindowItem) : desktop -> desktop :=
  setWindowMaximized (id win) (negb (set (maximized win))).

Definition minimizeButton (win : WindowItem) : desktop -> desktop :=
  setWindowMinimized (id win) true.

Definition closeButton (win : WindowItem) : desktop -> desktop := closeWindow (id win).

(** The desktop as [AppContent] first renders it. *)
Definition initial (uuid : jsstring) (terminal : C) : desktop :=
  let first := {| id := uuid; title := js "Terminal"; minimized := None; maximized := None;
                  component := terminal |} in
  {| windows := [first]; focusedWindow := first_id [first] |}.

(** What a user can do to the desktop. *)
Inductive action :=
| Open (uuid : jsstring) (terminal : C)
| CloseFocused
| Focus (win : WindowItem)
| Maximize (win : WindowItem)
| Minimize (win : WindowItem)
| Close (win : WindowItem)
| TaskItem (win : WindowItem).

Definition act (a : action) : desktop -> desktop :=
  match a with
  | Open uuid terminal => openWindow uuid terminal
  | CloseFocused => closeFocused
  | Focus win => focus win
  | Maximize win => maximizeButton win
  | Minimize win => minimizeButton win
  | Close win => closeButton win
  | TaskItem win => taskItemClick win
  end.

(** An action on a window the desktop shows: its buttons and its task item
    are rendered from [windows]. *)
Definition on_shown (a : action) (d : desktop) : Prop :=
  match a with
  | Open _ _ | CloseFocused => True
  | Focus win | Maximize win | Minimize win | Close win | TaskItem win => In win (windows d)
  end.

(** The focused window, if there is one, is a window of the desktop. *)
Definition focus_shown (d : desktop) : Prop :=
  match focusedWindow d with
  | Some f => In f (map id (windows d))
  | None => True
  end.

(** The maximized windows all carry one identifier. *)
Definition one_maximized (d : desktop) : Prop :=
  forall a b, In a (windows d) -> In b (windows d) ->
              set (maximized a) = true -> set (maximized b) = true -> id a = id b.

End Windows.

End Desktop.

(* ================================================================== *)
(** * Properties *)

(** ** Strings *)

Lemma str_eqb_eq (a b : jsstring) : str_eqb a b = true <-> a = b.
Proof.
  revert b; induction a as [|x a IH]; intros [|y b]; simpl; split;
    try congruence; try reflexivity.
  - intros Hxy. apply andb_true_iff in Hxy as [Hx Ha].
    apply N.eqb_eq in Hx. apply IH in Ha. congruence.
  - intros Heq. injection Heq as -> ->. rewrite N.eqb_refl. simpl. now apply IH.
Qed.

Lemma str_eqb_refl (a : jsstring) : str_eqb a a = true.
Proof. now apply str_eqb_eq. Qed.

Lemma str_eqb_neq (a b : jsstring) : str_eqb a b = false <-> a <> b.
Proof.
  split.
  - intros Hf Heq. apply str_eqb_eq in Heq. congruence.
  - intros Hne. destruct (str_eqb a b) eqn:E; [|reflexivity].
    apply str_eqb_eq in E. contradiction.
Qed.

Lemma nonempty_true (s : jsstring) : nonempty s = true <-> s <> [].
Proof. destruct s; simpl; split; congruence. Qed.

Lemma nonempty_app_r (a b : jsstring) : nonempty b = true -> nonempty (a ++ b) = true.
Proof. destruct a, b; simpl; congruence. Qed.

(** ** tokenize *)

Lemma flush_all_nonempty (cur : jsstring) (out : list jsstring) :
  all_nonempty out -> all_nonempty (flush cur out).
Proof.
  intros Hout. unfold flush. destruct (nonempty cur) eqn:E; [|exact Hout].
  apply Forall_app. split; [exact Hout|].
  constructor; [now apply nonempty_true | constructor].
Qed.

(** The escape branch consumes two characters, so the induction is on a
    bound of the length of what is left. *)
Lemma scan_all_nonempty_bounded (n : nat) :
  forall input, (List.length input <= n)%nat ->
  forall m cur out, all_nonempty out -> all_nonempty (scan m cur out input).
Proof.
  induction n as [|n IH]; intros input Hlen m cur out Hout.
  - destruct input; [|simpl in Hlen; lia]. now apply flush_all_nonempty.
  - destruct input as [|ch rest]; [now apply flush_all_nonempty|].
    simpl in Hlen. assert (Hrest : (List.length rest <= n)%nat) by lia.
    destruct m; simpl.
    + destruct (is_space ch).
      * apply IH; [exact Hrest | now apply flush_all_nonempty].
      * destruct (ch =? QUOTE); [now apply IH|].
        destruct (ch =? DQUOTE); now apply IH.
    + destruct (ch =? QUOTE); now apply IH.
    + destruct (ch =? DQUOTE); [now apply IH|].
      destruct (ch =? BACKSLASH); [|now apply IH].
      destruct rest as [|next rest']; [now apply flush_all_nonempty|].
      apply IH; [simpl in Hrest; lia | exact Hout].
Qed.

Lemma scan_all_nonempty (input : jsstring) (m : mode) (cur : jsstring) (out : list jsstring) :
  all_nonempty out -> all_nonempty (scan m cur out input).
Proof. apply scan_all_nonempty_bounded with (n := List.length input). lia. Qed.

Lemma scan_end (m : mode) (cur : jsstring) (out : list jsstring) :
  scan m cur out [] = flush cur out.
Proof. reflexivity. Qed.

Lemma scan_none_word (w rest cur : jsstring) (out : list jsstring) :
  forallb plain w = true ->
  scan none cur out (w ++ rest) = scan none (cur ++ w) out rest.
Proof.
  revert cur; induction w as [|c w IH]; intros cur Hw; simpl.
  - now rewrite app_nil_r.
  - simpl in Hw. apply andb_true_iff in Hw as [Hc Hw]. unfold plain in Hc.
    apply andb_true_iff in Hc as [Hc Hd]. apply andb_true_iff in Hc as [Hs Hq].
    apply negb_true_iff in Hs, Hq, Hd. rewrite Hs, Hq, Hd.
    rewrite IH by exact Hw. now rewrite <- app_assoc.
Qed.

Lemma scan_none_space (ch : code_unit) (rest cur : jsstring) (out : list jsstring) :
  is_space ch = true ->
  scan none cur out (ch :: rest) = scan none [] (flush cur out) rest.
Proof. intros Hs. simpl. now rewrite Hs. Qed.

Lemma scan_single_body (body cur : jsstring) (out : list jsstring) (tail : jsstring) :
  forallb no_quote body = true ->
  scan single cur out (body ++ tail) = scan single (cur ++ body) out tail.
Proof.
  revert cur; induction body as [|c body IH]; intros cur Hb; simpl.
  - now rewrite app_nil_r.
  - simpl in Hb. apply andb_true_iff in Hb as [Hc Hb].
    apply negb_true_iff in Hc. rewrite Hc, IH by exact Hb. now rewrite <- app_assoc.
Qed.

Lemma scan_single_quoted (body rest cur : jsstring) (out : list jsstring) :
  forallb no_quote body = true ->
  scan none cur out (QUOTE :: body ++ QUOTE :: rest) = scan none (cur ++ body) out rest.
Proof.
  intros Hb. change (scan none cur out (QUOTE :: body ++ QUOTE :: rest))
    with (scan single cur out (body ++ QUOTE :: rest)).
  now rewrite scan_single_body.
Qed.

Lemma scan_single_unterminated (body cur : jsstring) (out : list jsstring) :
  forallb no_quote body = true ->
  scan none cur out (QUOTE :: body) = flush (cur ++ body) out.
Proof.
  intros Hb. change (scan none cur out (QUOTE :: body)) with (scan single cur out body).
  rewrite <- (app_nil_r body) at 1. now rewrite scan_single_body.
Qed.

Lemma scan_double_body (body cur : jsstring) (out : list jsstring) (tail : jsstring) :
  forallb no_dquote_backslash body = true ->
  scan double cur out (body ++ tail) = scan double (cur ++ body) out tail.
Proof.
  revert cur; induction body as [|c body IH]; intros cur Hb; simpl.
  - now rewrite app_nil_r.
  - simpl in Hb. apply andb_true_iff in Hb as [Hc Hb]. unfold no_dquote_backslash in Hc.
    apply andb_true_iff in Hc as [Hd Hs]. apply negb_true_iff in Hd, Hs.
    rewrite Hd, Hs, IH by exact Hb. now rewrite <- app_assoc.
Qed.

Lemma scan_double_quoted (body rest cur : jsstring) (out : list jsstring) :
  forallb no_dquote_backslash body = true ->
  scan none cur out (DQUOTE :: body ++ DQUOTE :: rest) = scan none (cur ++ body) out rest.
Proof.
  intros Hb. change (scan none cur out (DQUOTE :: body ++ DQUOTE :: rest))
    with (scan double cur out (body ++ DQUOTE :: rest)).
  now rewrite scan_double_body.
Qed.

Lemma scan_double_unterminated (body cur : jsstring) (out : list jsstring) :
  forallb no_dquote_backslash body = true ->
  scan none cur out (DQUOTE :: body) = flush (cur ++ body) out.
Proof.
  intros Hb. change (scan none cur out (DQUOTE :: body)) with (scan double cur out body).
  rewrite <- (app_nil_r body) at 1. now rewrite scan_double_body.
Qed.

Lemma scan_double_escape (next : code_unit) (rest cur : jsstring) (out : list jsstring) :
  scan double cur out (BACKSLASH :: next :: rest) = scan double (cur ++ [escape next]) out rest.
Proof. reflexivity. Qed.

Lemma escape_other (x : code_unit) : x <> LOWER_N -> x <> LOWER_T -> escape x = x.
Proof.
  intros Hn Ht. unfold escape.
  apply N.eqb_neq in Hn, Ht. rewrite Hn, Ht.
  now destruct ((x =? DQUOTE) || (x =? BACKSLASH)).
Qed.

(** C4. [tokenize] scans left to right in three modes. Unquoted, white
    space closes the current token and other plain characters extend it;
    between single quotes every character is copied as it is; between
    double quotes a backslash and the character after it stand for one
    character (line feed for [n], tab for [t], the character itself
    otherwise) and everything else is copied; a quote that is never closed
    runs to the end of the input, where the token in progress is emitted.
    Hence the line made of a, a double-quoted b c, and d gives the three
    tokens a, b c and d, and an opening double quote followed by abc gives
    the one token abc. *)
Theorem tokenize_three_modes :
  (forall ch rest cur out,
      is_space ch = true ->
      scan none cur out (ch :: rest) = scan none [] (flush cur out) rest) /\
  (forall w rest cur out,
      forallb plain w = true ->
      scan none cur out (w ++ rest) = scan none (cur ++ w) out rest) /\
  (forall body rest cur out,
      forallb no_quote body = true ->
      scan none cur out (QUOTE :: body ++ QUOTE :: rest) = scan none (cur ++ body) out rest) /\
  (forall body rest cur out,
      forallb no_dquote_backslash body = true ->
      scan none cur out (DQUOTE :: body ++ DQUOTE :: rest) = scan none (cur ++ body) out rest) /\
  (forall next rest cur out,
      scan double cur out (BACKSLASH :: next :: rest)
      = scan double (cur ++ [escape next]) out rest) /\
  (escape LOWER_N = LF /\ escape LOWER_T = TAB /\
   escape DQUOTE = DQUOTE /\ escape BACKSLASH = BACKSLASH /\
   forall x, x <> LOWER_N -> x <> LOWER_T -> escape x = x) /\
  (forall body cur out,
      forallb no_quote body = true ->
      scan none cur out (QUOTE :: body) = flush (cur ++ body) out) /\
  (forall body cur out,
      forallb no_dquote_backslash body = true ->
      scan none cur out (DQUOTE :: body) = flush (cur ++ body) out) /\
  (forall cur out, scan double cur out [BACKSLASH] = flush cur out) /\
  (forall m cur out, scan m cur out [] = flush cur out) /\
  (forall cur out, cur <> [] -> flush cur out = out ++ [cur]) /\
  tokenize (js "a " ++ [DQUOTE] ++ js "b c" ++ [DQUOTE] ++ js " d")
  = [js "a"; js "b c"; js "d"] /\
  tokenize ([DQUOTE] ++ js "abc") = [js "abc"] /\
  tokenize (js "echo 'x" ++ [TAB] ++ js "y' z") = [js "echo"; js "x" ++ [TAB] ++ js "y"; js "z"].
Proof.
  split; [exact scan_none_space|].
  split; [exact scan_none_word|].
  split; [exact scan_single_quoted|].
  split; [exact scan_double_quoted|].
  split; [exact scan_double_escape|].
  split; [repeat split; try reflexivity; exact escape_other|].
  split; [exact scan_single_unterminated|].
  split; [exact scan_double_unterminated|].
  split; [reflexivity|].
  split; [exact scan_end|].
  split.
  - intros cur out Hne. unfold flush. apply nonempty_true in Hne. now rewrite Hne.
  - repeat split; vm_compute; reflexivity.
Qed.

Lemma tokenize_three_modes_witness :
  scan none (js "ab") [] (SPACE :: js "cd") = scan none [] (flush (js "ab") []) (js "cd") /\
  scan none [] [] (js "ab" ++ js " c") = scan none ([] ++ js "ab") [] (js " c") /\
  scan none [] [] (QUOTE :: js "x y" ++ QUOTE :: js " z")
  = scan none ([] ++ js "x y") [] (js " z") /\
  scan none [] [] (DQUOTE :: js "x 'y" ++ DQUOTE :: js " z")
  = scan none ([] ++ js "x 'y") [] (js " z") /\
  escape (N_of_ascii "x") = N_of_ascii "x" /\
  scan none [] [] (QUOTE :: js "ab c") = flush ([] ++ js "ab c") [] /\
  scan none [] [] (DQUOTE :: js "abc") = flush ([] ++ js "abc") [] /\
  flush (js "abc") [] = [] ++ [js "abc"].
Proof.
  destruct tokenize_three_modes
    as (Hspace & Hword & Hsingle & Hdouble & _ & (_ & _ & _ & _ & Hother)
        & Hopen1 & Hopen2 & _ & _ & Hflush & _).
  split; [apply Hspace; reflexivity|].
  split; [apply Hword; reflexivity|].
  split; [apply Hsingle; reflexivity|].
  split; [apply Hdouble; reflexivity|].
  split; [apply Hother; vm_compute; discriminate|].
  split; [apply Hopen1; reflexivity|].
  split; [apply Hopen2; reflexivity|].
  apply Hflush. vm_compute. discriminate.
Defined.

(** C9. [tokenize] never emits an empty token: a pair of quotes with
    nothing between them adds nothing to the token in progress, so
    echo, an empty pair of double quotes, > and f give the three tokens
    echo, > and f. *)
Theorem tokenize_never_emits_empty :
  (forall input, all_nonempty (tokenize input)) /\
  (forall rest cur out,
      scan none cur out (DQUOTE :: DQUOTE :: rest) = scan none cur out rest) /\
  (forall rest cur out,
      scan none cur out (QUOTE :: QUOTE :: rest) = scan none cur out rest) /\
  tokenize ([DQUOTE; DQUOTE]) = [] /\
  tokenize ([QUOTE; QUOTE]) = [] /\
  tokenize (js "echo " ++ [DQUOTE; DQUOTE] ++ js " > f") = [js "echo"; [GT]; js "f"].
Proof.
  split.
  - intros input. unfold tokenize. apply scan_all_nonempty. constructor.
  - repeat split; vm_compute; reflexivity.
Qed.

(** ** split and join *)

Lemma split_on_free (sep : code_unit) (s : jsstring) :
  free_of sep s = true -> split_on sep s = [s].
Proof.
  induction s as [|c s IH]; simpl; [reflexivity|].
  intros Hs. apply andb_true_iff in Hs as [Hc Hs].
  apply negb_true_iff in Hc. rewrite Hc, IH by exact Hs. reflexivity.
Qed.

Lemma split_on_app (sep : code_unit) (s rest : jsstring) :
  free_of sep s = true ->
  split_on sep (s ++ sep :: rest) = s :: split_on sep rest.
Proof.
  induction s as [|c s IH]; simpl.
  - intros _. now rewrite N.eqb_refl.
  - intros Hs. apply andb_true_iff in Hs as [Hc Hs].
    apply negb_true_iff in Hc. rewrite Hc, IH by exact Hs. reflexivity.
Qed.

(** Splitting what was joined gives the pieces back, when no piece holds
    the separator. *)
Lemma split_on_join (sep : code_unit) (l : list jsstring) :
  l <> [] ->
  forallb (free_of sep) l = true ->
  split_on sep (join [sep] l) = l.
Proof.
  induction l as [|x l IH]; [congruence|].
  intros _ Hl. simpl in Hl. apply andb_true_iff in Hl as [Hx Hl].
  destruct l as [|y l'].
  - simpl. now apply split_on_free.
  - change (join [sep] (x :: y :: l')) with (x ++ sep :: join [sep] (y :: l')).
    rewrite split_on_app by exact Hx. rewrite IH; [reflexivity | discriminate | exact Hl].
Qed.

Lemma split_on_segments_free (sep : code_unit) (s : jsstring) :
  forallb (free_of sep) (split_on sep s) = true.
Proof.
  induction s as [|c s IH]; simpl; [reflexivity|].
  destruct (c =? sep) eqn:E; simpl; [exact IH|].
  destruct (split_on sep s) as [|seg segs]; simpl in *.
  - now rewrite E.
  - now rewrite E.
Qed.

Lemma filter_nonempty_id (l : list jsstring) :
  forallb nonempty l = true -> filter nonempty l = l.
Proof.
  induction l as [|x l IH]; simpl; [reflexivity|].
  intros Hl. apply andb_true_iff in Hl as [Hx Hl]. rewrite Hx. f_equal. now apply IH.
Qed.

(** The round trip the tree renderer relies on: the lines of a joined
    text are the lines that were joined, when none of them is empty and
    none holds the separator. *)
Lemma lines_of_join (sep : code_unit) (l : list jsstring) :
  forallb nonempty l = true ->
  forallb (free_of sep) l = true ->
  filter nonempty (split_on sep (join [sep] l)) = l.
Proof.
  intros Hne Hfree. destruct l as [|x l]; [reflexivity|].
  rewrite split_on_join; [now apply filter_nonempty_id | discriminate | exact Hfree].
Qed.

(** ** resolvePath and normalizePath *)

Lemma dropWhile_repeat {A} (f : A -> bool) (x : A) (n : nat) (l : list A) :
  f x = true -> dropWhile f (repeat x n ++ l) = dropWhile f l.
Proof. intros Hx. induction n as [|n IH]; simpl; [reflexivity|]. now rewrite Hx. Qed.

Lemma strip_trailing_slashes_run (s : jsstring) (c : code_unit) (n : nat) :
  c <> SLASH ->
  strip_trailing_slashes (s ++ [c] ++ repeat SLASH n) = s ++ [c].
Proof.
  intros Hc. unfold strip_trailing_slashes, dropWhileEnd.
  rewrite app_assoc, rev_app_distr, rev_repeat.
  rewrite dropWhile_repeat by reflexivity.
  rewrite rev_app_distr. simpl.
  apply N.eqb_neq in Hc. rewrite Hc.
  change (c :: rev s) with ([c] ++ rev s).
  now rewrite rev_app_distr, rev_involutive.
Qed.

Lemma strip_trailing_slashes_only (n : nat) :
  strip_trailing_slashes (repeat SLASH n) = [].
Proof.
  unfold strip_trailing_slashes, dropWhileEnd. rewrite rev_repeat.
  rewrite <- (app_nil_r (repeat SLASH n)). now rewrite dropWhile_repeat.
Qed.

Lemma resolvePath_absolute (cwd p : jsstring) :
  startsWith SLASH p = true -> resolvePath cwd p = p.
Proof.
  destruct p as [|c p]; simpl; [discriminate|].
  intros Hc. apply N.eqb_eq in Hc. subst c. unfold resolvePath. simpl.
  reflexivity.
Qed.

Lemma resolvePath_relative (cwd p : jsstring) :
  p <> [] -> p <> [DOT] -> startsWith SLASH p = false ->
  resolvePath cwd p = strip_trailing_slashes cwd ++ [SLASH] ++ p.
Proof.
  intros Hne Hdot Hrel. unfold resolvePath.
  apply nonempty_true in Hne. apply str_eqb_neq in Hdot.
  now rewrite Hne, Hdot, Hrel.
Qed.

Lemma normalize_step_kept (stack : list jsstring) (part : jsstring) :
  part <> [DOT] -> part <> [DOT; DOT] -> normalize_step stack part = stack ++ [part].
Proof.
  intros H1 H2. unfold normalize_step.
  apply str_eqb_neq in H1, H2. now rewrite H1, H2.
Qed.

Lemma forallb_removelast {A} (f : A -> bool) (l : list A) :
  forallb f l = true -> forallb f (removelast l) = true.
Proof.
  induction l as [|x l IH]; simpl; [reflexivity|].
  intros Hl. apply andb_true_iff in Hl as [Hx Hl].
  destruct l; [reflexivity|]. simpl. rewrite Hx. now apply IH.
Qed.

Lemma normalize_stack_kept (parts stack : list jsstring) :
  forallb nonempty parts = true ->
  forallb (free_of SLASH) parts = true ->
  forallb kept stack = true ->
  forallb kept (fold_left normalize_step parts stack) = true.
Proof.
  revert stack; induction parts as [|part parts IH]; intros stack Hne Hfree Hst; simpl.
  - exact Hst.
  - simpl in Hne, Hfree.
    apply andb_true_iff in Hne as [Hp Hne]. apply andb_true_iff in Hfree as [Hf Hfree].
    apply IH; [exact Hne | exact Hfree |]. unfold normalize_step.
    destruct (str_eqb part [DOT]) eqn:E1; [exact Hst|].
    destruct (str_eqb part [DOT; DOT]) eqn:E2; [now apply forallb_removelast|].
    rewrite forallb_app, Hst. simpl. unfold kept. now rewrite Hp, Hf, E1, E2.
Qed.

Lemma fold_normalize_kept (parts stack : list jsstring) :
  forallb kept parts = true ->
  fold_left normalize_step parts stack = stack ++ parts.
Proof.
  revert stack; induction parts as [|part parts IH]; intros stack Hk; simpl.
  - now rewrite app_nil_r.
  - simpl in Hk. apply andb_true_iff in Hk as [Hp Hk].
    unfold kept in Hp. apply andb_true_iff in Hp as [Hp H2]. apply andb_true_iff in Hp as [_ H1].
    apply negb_true_iff in H1, H2.
    rewrite normalize_step_kept by (now apply str_eqb_neq).
    rewrite IH by exact Hk. now rewrite <- app_assoc.
Qed.

Lemma filter_forallb {A} (f : A -> bool) (l : list A) : forallb f (filter f l) = true.
Proof.
  induction l as [|x l IH]; simpl; [reflexivity|].
  destruct (f x) eqn:E; simpl; [now rewrite E|exact IH].
Qed.

Lemma forallb_filter_keep {A} (f g : A -> bool) (l : list A) :
  forallb f l = true -> forallb f (filter g l) = true.
Proof.
  induction l as [|x l IH]; simpl; [reflexivity|].
  intros Hl. apply andb_true_iff in Hl as [Hx Hl].
  destruct (g x); simpl; [rewrite Hx|]; now apply IH.
Qed.

Lemma forallb_weaken {A} (f g : A -> bool) (l : list A) :
  (forall x, f x = true -> g x = true) -> forallb f l = true -> forallb g l = true.
Proof.
  intros Hfg. induction l as [|x l IH]; simpl; [reflexivity|].
  intros Hl. apply andb_true_iff in Hl as [Hx Hl]. rewrite (Hfg _ Hx). now apply IH.
Qed.

(** The stack [normalizePath] joins holds kept segments only. *)
Lemma normalizePath_stack_kept (path : jsstring) :
  forallb kept (fold_left normalize_step (filter nonempty (split_on SLASH path)) []) = true.
Proof.
  apply normalize_stack_kept.
  - apply filter_forallb.
  - apply forallb_filter_keep, split_on_segments_free.
  - reflexivity.
Qed.

Lemma normalizePath_of_kept (stack : list jsstring) :
  forallb kept stack = true ->
  normalizePath (SLASH :: join [SLASH] stack) = SLASH :: join [SLASH] stack.
Proof.
  intros Hk. unfold normalizePath.
  assert (Hne : forallb nonempty stack = true).
  { revert Hk. apply forallb_weaken. intros x Hx. unfold kept in Hx.
    apply andb_true_iff in Hx as [Hx _]. apply andb_true_iff in Hx as [Hx _].
    apply andb_true_iff in Hx as [Hx _]. exact Hx. }
  assert (Hfree : forallb (free_of SLASH) stack = true).
  { revert Hk. apply forallb_weaken. intros x Hx. unfold kept in Hx.
    apply andb_true_iff in Hx as [Hx _]. apply andb_true_iff in Hx as [Hx _].
    apply andb_true_iff in Hx as [_ Hx]. exact Hx. }
  cbn [split_on]. rewrite N.eqb_refl. cbn [filter nonempty].
  rewrite lines_of_join by assumption.
  now rewrite fold_normalize_kept.
Qed.

Lemma normalizePath_idempotent (path : jsstring) :
  normalizePath (normalizePath path) = normalizePath path.
Proof.
  unfold normalizePath at 2 3. cbv zeta.
  apply normalizePath_of_kept, normalizePath_stack_kept.
Qed.

(** C5. Resolution against [cwd]: an empty or [.] argument gives [cwd], an
    argument starting with a slash is taken as it is, anything else is
    appended to [cwd] without its trailing slashes, after a slash.
    Normalization splits at slashes, drops empty and [.] segments, pops
    one segment for every [..] (nothing to pop at the root), and joins
    what is left behind a leading slash; what is left holds no empty, [.]
    or [..] segment, so the result never leaves the root and normalizing
    it again changes nothing. From [/home/u], [..] is [/home]; from [/],
    [../../x] is [/x]; from [/a], [/b] is [/b]. *)
Theorem path_resolution :
  (forall cwd, resolvePath cwd [] = cwd /\ resolvePath cwd [DOT] = cwd) /\
  (forall cwd p, startsWith SLASH p = true -> resolvePath cwd p = p) /\
  (forall cwd p,
      p <> [] -> p <> [DOT] -> startsWith SLASH p = false ->
      resolvePath cwd p = strip_trailing_slashes cwd ++ [SLASH] ++ p) /\
  (forall s c n,
      c <> SLASH -> strip_trailing_slashes (s ++ [c] ++ repeat SLASH n) = s ++ [c]) /\
  (forall n, strip_trailing_slashes (repeat SLASH n) = []) /\
  (forall path,
      normalizePath path
      = SLASH :: join [SLASH]
                   (fold_left normalize_step (filter nonempty (split_on SLASH path)) [])) /\
  (forall stack, normalize_step stack [DOT] = stack) /\
  (forall stack x, normalize_step (stack ++ [x]) [DOT; DOT] = stack) /\
  normalize_step [] [DOT; DOT] = [] /\
  (forall stack part,
      part <> [DOT] -> part <> [DOT; DOT] -> normalize_step stack part = stack ++ [part]) /\
  (forall path,
      forallb kept (fold_left normalize_step (filter nonempty (split_on SLASH path)) [])
      = true) /\
  (forall path, normalizePath (normalizePath path) = normalizePath path) /\
  normalizePath (resolvePath (js "/home/u") (js "..")) = js "/home" /\
  normalizePath (resolvePath (js "/") (js "../../x")) = js "/x" /\
  normalizePath (resolvePath (js "/a") (js "/b")) = js "/b".
Proof.
  split; [intros cwd; split; reflexivity|].
  split; [exact resolvePath_absolute|].
  split; [exact resolvePath_relative|].
  split; [exact strip_trailing_slashes_run|].
  split; [exact strip_trailing_slashes_only|].
  split; [reflexivity|].
  split; [reflexivity|].
  split; [intros stack x; unfold normalize_step; simpl; apply removelast_last|].
  split; [reflexivity|].
  split; [exact normalize_step_kept|].
  split; [exact normalizePath_stack_kept|].
  split; [exact normalizePath_idempotent|].
  repeat split; vm_compute; reflexivity.
Qed.

Lemma path_resolution_witness :
  resolvePath (js "/home/u") (js "/etc") = js "/etc" /\
  resolvePath (js "/home/u//") (js "docs/a.txt")
  = strip_trailing_slashes (js "/home/u//") ++ [SLASH] ++ js "docs/a.txt" /\
  strip_trailing_slashes (js "/home/" ++ [N_of_ascii "u"] ++ repeat SLASH 2)
  = js "/home/" ++ [N_of_ascii "u"] /\
  normalize_step [js "home"] (js "u") = [js "home"] ++ [js "u"].
Proof.
  destruct path_resolution as (_ & Habs & Hrel & Hstrip & _ & _ & _ & _ & _ & Hpush & _).
  split; [apply Habs; reflexivity|].
  split; [apply Hrel; [vm_compute; discriminate | vm_compute; discriminate | reflexivity]|].
  split; [apply Hstrip; vm_compute; discriminate|].
  apply Hpush; vm_compute; discriminate.
Defined.

(** ** The terminal monad *)

Section TerminalFacts.

Context {K H : Type} `{KernelClient K} `{Host H}.

Local Abbreviation keeps m := (keeps_history (K:=K) (H:=H) m).

Lemma keeps_history_ret {A} (a : A) : keeps (ret a).
Proof. intros t. reflexivity. Qed.

Lemma keeps_history_bind {A B} (m : M A) (f : A -> M B) :
  keeps m -> (forall a, keeps (f a)) -> keeps (bind m f).
Proof.
  intros Hm Hf t. unfold bind. specialize (Hm t).
  destruct (m t) as [[a|msg|] t']; simpl in *; try exact Hm.
  rewrite Hf. exact Hm.
Qed.

Lemma keeps_history_try_catch {A} (m : M A) (handler : jsstring -> M A) :
  keeps m -> (forall msg, keeps (handler msg)) ->
  keeps (try_catch m handler).
Proof.
  intros Hm Hh t. unfold try_catch. specialize (Hm t).
  destruct (m t) as [[a|msg|] t']; simpl in *; try exact Hm.
  rewrite Hh. exact Hm.
Qed.

Lemma keeps_history_get_cwd : keeps get_cwd.
Proof. intros t. reflexivity. Qed.

Lemma keeps_history_set_cwd (p : jsstring) : keeps (set_cwd p).
Proof. intros t. reflexivity. Qed.

Lemma keeps_history_query {A} (q : K -> reply A) : keeps (query q).
Proof. intros t. reflexivity. Qed.

Lemma keeps_history_mutate (m : K -> reply unit * K) : keeps (mutate m).
Proof. intros t. unfold mutate. destruct (m (remote t)). reflexivity. Qed.

Lemma keeps_history_host_call (f : H -> reply unit * H) : keeps (host_call f).
Proof. intros t. unfold host_call. destruct (f (host t)). reflexivity. Qed.

Lemma keeps_history_host_do (f : H -> H) : keeps (host_do f).
Proof. intros t. reflexivity. Qed.

Lemma keeps_history_run_mutation (m : K -> reply unit * K) : keeps (run_mutation m).
Proof.
  apply keeps_history_try_catch.
  - apply keeps_history_bind; [apply keeps_history_mutate|].
    intros _. apply keeps_history_ret.
  - intros msg. apply keeps_history_ret.
Qed.

End TerminalFacts.

Create HintDb history.

#[local] Hint Resolve keeps_history_ret keeps_history_get_cwd keeps_history_set_cwd
  keeps_history_query keeps_history_mutate keeps_history_host_call keeps_history_host_do
  keeps_history_run_mutation : history.

Ltac keep_history :=
  repeat first
    [ progress auto with history
    | apply keeps_history_bind
    | apply keeps_history_try_catch
    | match goal with
      | |- forall _, _ => intro
      | |- keeps_history (match ?x with _ => _ end) => destruct x
      | |- keeps_history (if ?b then _ else _) => destruct b
      end ].

(** ** exec and the history *)

Section ExecFacts.

Context {K H : Type} `{KernelClient K} `{Host H}.

Lemma keeps_history_tree (fuel : nat) (args : list jsstring) :
  keeps_history (tree_handler (K:=K) (H:=H) fuel args).
Proof.
  intros t. unfold tree_handler, bind, get_cwd.
  destruct (buildTree (remote t) fuel (target_or_cwd (cwd t) args) [] true); reflexivity.
Qed.

Lemma keeps_history_sudo (args : list jsstring) :
  keeps_history (sudo_handler (K:=K) (H:=H) args).
Proof. unfold sudo_handler. keep_history. Qed.

Lemma keeps_history_open (args : list jsstring) :
  keeps_history (open_handler (K:=K) (H:=H) args).
Proof. unfold open_handler. keep_history. Qed.

Lemma keeps_history_edit (args : list jsstring) :
  keeps_history (edit_handler (K:=K) (H:=H) args).
Proof. unfold edit_handler. keep_history. Qed.

Lemma keeps_history_cd (args : list jsstring) :
  keeps_history (cd_handler (K:=K) (H:=H) args).
Proof. unfold cd_handler. keep_history. Qed.

Lemma keeps_history_echo (args : list jsstring) :
  keeps_history (echo_handler (K:=K) (H:=H) args).
Proof. unfold echo_handler. keep_history. Qed.

(** No handler of the table touches [history]. *)
Lemma handlers_keep_history (fuel : nat) :
  Forall (fun entry => forall args, keeps_history (snd entry args))
         (handlers (K:=K) (H:=H) fuel).
Proof.
  unfold handlers.
  repeat (apply Forall_cons; [cbn [snd]; intros args|]); try apply Forall_nil.
  - unfold help_handler. keep_history.
  - intros t. reflexivity.
  - unfold reset_handler. keep_history.
  - apply keeps_history_sudo.
  - unfold hello_handler. keep_history.
  - unfold pwd_handler. keep_history.
  - apply keeps_history_open.
  - apply keeps_history_edit.
  - apply keeps_history_cd.
  - unfold ls_handler. keep_history.
  - apply keeps_history_tree.
  - unfold mkdir_handler. keep_history.
  - unfold cat_handler. keep_history.
  - apply keeps_history_echo.
  - unfold rm_handler. keep_history.
  - unfold rmdir_handler. keep_history.
  - unfold mv_handler. keep_history.
  - unfold cp_handler. keep_history.
  - unfold stat_handler. keep_history.
Qed.

Lemma handlers_get_keeps_history
      (table : list (jsstring * CommandHandler (K:=K) (H:=H)))
      (cmd : jsstring) (handler : CommandHandler) :
  Forall (fun entry => forall args, keeps_history (snd entry args)) table ->
  handlers_get table cmd = Some handler ->
  forall args, keeps_history (handler args).
Proof.
  induction table as [|[name h] table IH]; simpl; [discriminate|].
  intros Hall Hget. inversion Hall as [|? ? Hh Hrest]; subst.
  destruct (str_eqb name cmd).
  - injection Hget as <-. exact Hh.
  - now apply IH.
Qed.

(** What [exec] does once the line is in the history. *)
Lemma exec_nonempty (fuel : nat) (line : jsstring) (t : Terminal K H) :
  trim line <> [] ->
  history (snd (exec fuel line t)) = history t ++ [trim line].
Proof.
  intros Hne. unfold exec. apply nonempty_true in Hne. rewrite Hne. cbn [negb].
  set (t1 := snd (push_history (trim line) t)).
  assert (Ht1 : history t1 = history t ++ [trim line]) by reflexivity.
  unfold bind at 1. cbn [push_history]. fold t1.
  change (history t ++ [trim line]) with (history t1).
  destruct (tokenize (trim line)) as [|cmd args]; [reflexivity|].
  destruct (handlers_get (handlers fuel) cmd) as [handler|] eqn:Hget; [|reflexivity].
  apply keeps_history_try_catch.
  - eapply handlers_get_keeps_history; [apply handlers_keep_history | exact Hget].
  - intros msg. apply keeps_history_ret.
Qed.

End ExecFacts.

(** C8. A line that is empty once trimmed gives success with empty output
    and leaves the history alone; any other line is appended, trimmed, at
    the end of the history, whatever becomes of the command: the history
    of a session is what it was, followed by the trimmed non-empty lines
    in the order they came, repeats included. *)
Theorem exec_appends_to_history :
  forall (K H : Type) (kc : KernelClient K) (hc : Host H)
         (fuel : nat) (line : jsstring) (t : Terminal K H),
    (trim line = [] -> exec fuel line t = (Returned (ok []), t)) /\
    (trim line <> [] -> history (snd (exec fuel line t)) = history t ++ [trim line]) /\
    (forall lines,
        history (exec_all fuel lines t)
        = history t ++ filter nonempty (map trim lines)).
Proof.
  intros K H kc hc fuel line t. split; [|split].
  - intros Hempty. unfold exec. now rewrite Hempty.
  - apply exec_nonempty.
  - intros lines. revert t. induction lines as [|l lines IH]; intros t; simpl.
    + now rewrite app_nil_r.
    + rewrite IH. destruct (trim l) as [|c s] eqn:Hl.
      * unfold exec. rewrite Hl. reflexivity.
      * assert (Hne : trim l <> []) by (rewrite Hl; discriminate).
        rewrite (exec_nonempty fuel l t Hne), Hl. cbn [nonempty].
        now rewrite <- app_assoc.
Qed.

Lemma exec_appends_to_history_witness :
  exec 5 (js "   ") (MemFs.terminal [SLASH] []) = (Returned (ok []), MemFs.terminal [SLASH] []) /\
  history (snd (exec 5 (js "  frobnicate x ") (MemFs.terminal [SLASH] [])))
  = [] ++ [trim (js "  frobnicate x ")] /\
  history (snd (exec 5 (js "cd /nope") (MemFs.terminal [SLASH] [])))
  = [] ++ [trim (js "cd /nope")].
Proof.
  split; [|split].
  - apply (exec_appends_to_history MemFs.client MemFs.browser 5 (js "   ")
             (MemFs.terminal [SLASH] [])). reflexivity.
  - apply (exec_appends_to_history MemFs.client MemFs.browser 5 (js "  frobnicate x ")
             (MemFs.terminal [SLASH] [])). vm_compute. discriminate.
  - apply (exec_appends_to_history MemFs.client MemFs.browser 5 (js "cd /nope")
             (MemFs.terminal [SLASH] [])). vm_compute. discriminate.
Defined.

(** ** cd *)

(** C6. [cd] takes [/] when it has no argument, resolves and normalizes
    the target against [cwd] and asks for its [stat]: a directory becomes
    the new [cwd], with empty output and code 0; anything else that
    exists fails with [not a directory: target]; a [stat] that rejects
    fails with [directory not found: target]. [cd] always returns, and
    whenever it does not succeed the terminal is as it was. *)
Theorem cd_changes_directory :
  forall (K H : Type) (kc : KernelClient K) (hc : Host H)
         (args : list jsstring) (t : Terminal K H),
    let target := hd [SLASH] args in
    let newPath := normalizePath (resolvePath (cwd t) target) in
    (forall stat,
        fs_stat newPath (remote t) = Resolved stat -> is_dir stat = true ->
        cd_handler args t
        = (Returned (ok []),
           {| cwd := newPath; promptStr := promptStr t; clearScreenCode := clearScreenCode t;
              history := history t; remote := remote t; host := host t |})) /\
    (forall stat,
        fs_stat newPath (remote t) = Resolved stat -> is_dir stat = false ->
        cd_handler args t = (Returned (fail (js "not a directory: " ++ newPath)), t)) /\
    (forall message,
        fs_stat newPath (remote t) = Rejected message ->
        cd_handler args t = (Returned (fail (js "directory not found: " ++ newPath)), t)) /\
    (exists result, fst (cd_handler args t) = Returned result) /\
    (fst (cd_handler args t) <> Returned (ok []) -> snd (cd_handler args t) = t).
Proof.
  intros K H kc hc args t target newPath.
  assert (Hcd : cd_handler args t
                = try_catch
                    (bind (query (fs_stat newPath))
                       (fun stat =>
                          if negb (is_dir stat)
                          then ret (fail (js "not a directory: " ++ newPath))
                          else bind (set_cwd newPath) (fun _ => ret (ok []))))
                    (fun _ => ret (fail (js "directory not found: " ++ newPath))) t).
  { unfold cd_handler, target, newPath. destruct args; reflexivity. }
  rewrite Hcd. unfold try_catch, bind, query, ret, set_cwd.
  destruct (fs_stat newPath (remote t)) as [stat|message] eqn:Hstat; cbn [of_reply].
  - destruct (is_dir stat) eqn:Hdir; cbn [negb];
      (split; [|split; [|split; [|split]]]).
    + intros stat' Heq _. reflexivity.
    + intros stat' Heq Hd. injection Heq as <-. congruence.
    + intros message Heq. discriminate.
    + eexists. reflexivity.
    + cbn [fst]. congruence.
    + intros stat' Heq Hd. injection Heq as <-. congruence.
    + intros stat' Heq _. reflexivity.
    + intros message Heq. discriminate.
    + eexists. reflexivity.
    + reflexivity.
  - split; [|split; [|split; [|split]]].
    + intros stat Heq. discriminate.
    + intros stat Heq. discriminate.
    + intros message' _. reflexivity.
    + eexists. reflexivity.
    + reflexivity.
Qed.

Lemma cd_changes_directory_witness :
  let fs := [(js "/docs", MemFs.DirNode); (js "/docs/a.txt", MemFs.FileNode [])] in
  let t := MemFs.terminal (js "/docs") fs in
  cd_handler [] t = (Returned (ok []), MemFs.terminal [SLASH] fs) /\
  cd_handler [js "a.txt"] t = (Returned (fail (js "not a directory: /docs/a.txt")), t) /\
  cd_handler [js "/nope"] t = (Returned (fail (js "directory not found: /nope")), t) /\
  snd (cd_handler [js "/nope"] t) = t.
Proof.
  intros fs t.
  split; [|split; [|split]].
  - apply (cd_changes_directory MemFs.client MemFs.browser [] t)
      with (stat := {| is_dir := true; is_file := false; size := 0 |}); reflexivity.
  - apply (cd_changes_directory MemFs.client MemFs.browser [js "a.txt"] t)
      with (stat := {| is_dir := false; is_file := true; size := 0 |}); reflexivity.
  - apply (cd_changes_directory MemFs.client MemFs.browser [js "/nope"] t)
      with (message := js "not found: /nope"). reflexivity.
  - apply (cd_changes_directory MemFs.client MemFs.browser [js "/nope"] t).
    vm_compute. discriminate.
Defined.

(** ** echo *)

Lemma indexOf_range (x : jsstring) (l : list jsstring) :
  (-1 <= indexOf x l < Z.of_nat (List.length l))%Z.
Proof.
  induction l as [|y l IH]; simpl indexOf; [simpl; lia|].
  change (List.length (y :: l)) with (S (List.length l)).
  destruct (str_eqb y x); [lia|].
  destruct (indexOf x l); lia.
Qed.

Lemma indexOf_absent (x : jsstring) (l : list jsstring) :
  indexOf x l = (-1)%Z <-> ~ In x l.
Proof.
  induction l as [|y l IH]; simpl; [tauto|].
  destruct (str_eqb y x) eqn:E.
  - apply str_eqb_eq in E. split; [discriminate | tauto].
  - apply str_eqb_neq in E. pose proof (indexOf_range x l) as Hr.
    destruct (indexOf x l) as [|p|p] eqn:Hi.
    + split; [lia|]. intros Hn. exfalso.
      assert (Hin : ~ In x l) by tauto.
      apply IH in Hin. discriminate.
    + split; [lia|]. intros Hn. exfalso.
      assert (Hin : ~ In x l) by tauto.
      apply IH in Hin. discriminate.
    + split; [|reflexivity]. intros _ [Hy|Hin]; [congruence|].
      assert (Hneg : Z.neg p = (-1)%Z) by lia.
      apply IH in Hneg. contradiction.
Qed.

(** [indexOf] finds the first occurrence. *)
Lemma indexOf_first (x : jsstring) (l : list jsstring) (i : nat) :
  indexOf x l = Z.of_nat i -> nth_error l i = Some x /\ ~ In x (firstn i l).
Proof.
  revert i; induction l as [|y l IH]; intros i; simpl indexOf; [lia|].
  destruct (str_eqb y x) eqn:E.
  - intros Hi. assert (i = 0%nat) by lia. subst i. apply str_eqb_eq in E. subst y.
    simpl. tauto.
  - apply str_eqb_neq in E. pose proof (indexOf_range x l) as Hr.
    destruct (indexOf x l) eqn:Hi; try lia.
    + intros Hone. assert (i = 1%nat) by lia. subst i.
      destruct (IH 0%nat eq_refl) as [Hn _]. simpl. split; [exact Hn | tauto].
    + intros Hp. destruct i as [|i]; [lia|].
      destruct (IH i) as [Hn Hf]; [lia|]. simpl. split; [exact Hn | tauto].
Qed.

Section EchoFacts.

Context {K H : Type} `{KernelClient K} `{Host H}.

(** No arguments at all, or [>] as the last one: usage failure, nothing
    else happens. *)
Lemma echo_usage_failure (args : list jsstring) (t : Terminal K H) :
  indexOf [GT] args = (Z.of_nat (List.length args) - 1)%Z ->
  echo_handler args t = (Returned echo_usage, t).
Proof.
  intros Hi. unfold echo_handler. apply Z.eqb_eq in Hi. now rewrite Hi.
Qed.

(** [>] at index [i], followed by [file]: the tokens before it, joined by
    spaces, are written to [file]. *)
Lemma echo_redirect (args : list jsstring) (i : nat) (file : jsstring) (t : Terminal K H) :
  indexOf [GT] args = Z.of_nat i ->
  nth_error args (S i) = Some file ->
  echo_handler args t
  = run_mutation (fs_write_file (normalizePath (resolvePath (cwd t) file))
                                (encode (join [SPACE] (firstn i args)))) t.
Proof.
  intros Hi Hfile. unfold echo_handler. rewrite Hi.
  assert (Hlen : (S i < List.length args)%nat).
  { apply nth_error_Some. congruence. }
  destruct (Z.of_nat i =? Z.of_nat (List.length args) - 1)%Z eqn:E;
    [apply Z.eqb_eq in E; lia|].
  unfold slice0, at_index.
  destruct (Z.of_nat i <? 0)%Z eqn:E0; [apply Z.ltb_lt in E0; lia|].
  destruct (Z.of_nat i + 1 <? 0)%Z eqn:E1; [apply Z.ltb_lt in E1; lia|].
  replace (Z.to_nat (Z.of_nat i + 1)) with (S i) by lia.
  replace (Z.to_nat (Z.min (Z.of_nat i) (Z.of_nat (List.length args)))) with i by lia.
  rewrite Hfile. reflexivity.
Qed.

(** No [>] among one or more arguments: [redirectIndex] is [-1], which is
    not [args.length - 1], so the handler goes on; [slice(0, -1)] is all
    but the last argument and [args[0]] is the file. *)
Lemma echo_without_redirect (arg0 : jsstring) (rest : list jsstring) (t : Terminal K H) :
  indexOf [GT] (arg0 :: rest) = (-1)%Z ->
  echo_handler (arg0 :: rest) t
  = run_mutation (fs_write_file (normalizePath (resolvePath (cwd t) arg0))
                                (encode (join [SPACE] (removelast (arg0 :: rest))))) t.
Proof.
  intros Hi. unfold echo_handler. rewrite Hi.
  change (List.length (arg0 :: rest)) with (S (List.length rest)).
  destruct (-1 =? Z.of_nat (S (List.length rest)) - 1)%Z eqn:E;
    [apply Z.eqb_eq in E; lia|].
  unfold slice0, at_index. cbn [Z.ltb Z.compare Z.add Z.to_nat nth_error Pos.compare].
  change (List.length (arg0 :: rest)) with (S (List.length rest)).
  replace (Z.to_nat (Z.max (Z.of_nat (S (List.length rest)) + -1) 0))
    with (List.length rest) by lia.
  replace (firstn (List.length rest) (arg0 :: rest)) with (removelast (arg0 :: rest)).
  - reflexivity.
  - rewrite removelast_firstn_len. reflexivity.
Qed.

End EchoFacts.

(** C1, where the code departs from it. With no [>] among its arguments
    the handler fails with the usage message only when it has no argument
    at all. [echo hello] at the root of an empty filesystem returns
    success and leaves an empty file [/hello]; [echo a b c] writes [a b]
    to the file [/a]. With [>] in last place it is the usage failure, and
    with [>] elsewhere the text before it goes to the file after it. *)
Theorem echo_without_redirect_writes_file :
  let t := MemFs.terminal [SLASH] [] in
  indexOf [GT] [js "hello"] = (-1)%Z /\
  echo_handler [js "hello"] t
  = (Returned (ok []), MemFs.terminal [SLASH] [(js "/hello", MemFs.FileNode [])]) /\
  exec 1 (js "echo a b c") t
  = (Returned (ok []),
     {| cwd := [SLASH]; promptStr := promptStr t; clearScreenCode := clearScreenCode t;
        history := [js "echo a b c"];
        remote := [(js "/a", MemFs.FileNode (encode (js "a b")))];
        host := [] |}) /\
  echo_handler [] t = (Returned (fail (js "usage: echo <text> > <file>")), t) /\
  echo_handler [js "hi"; [GT]] t = (Returned (fail (js "usage: echo <text> > <file>")), t) /\
  echo_handler [js "hi"; js "there"; [GT]; js "f"; [GT]; js "g"] t
  = (Returned (ok []),
     MemFs.terminal [SLASH] [(js "/f", MemFs.FileNode (encode (js "hi there")))]).
Proof.
  repeat split; vm_compute; reflexivity.
Qed.

(* ================================================================== *)
(** ** The worker's message handler *)

Module WorkerFacts.
Import Worker.

Lemma type_is_true (req : KernelRequest) (tag : string) :
  type_is req tag = true -> req_type req = JString (js tag).
Proof.
  unfold type_is. destruct (req_type req); try discriminate.
  intros Heq. apply str_eqb_eq in Heq. now subst.
Qed.

Lemma type_is_one_of (req : KernelRequest) (tags : list string) :
  existsb (type_is req) tags = true ->
  exists tag, In tag tags /\ req_type req = JString (js tag).
Proof.
  intros Hex. apply existsb_exists in Hex as (tag & Hin & Hty).
  exists tag. split; [exact Hin | now apply type_is_true].
Qed.

Lemma recognized_truthy (req : KernelRequest) :
  recognized req = true -> truthy (req_type req) = true.
Proof.
  unfold recognized. intros Hrec. apply orb_true_iff in Hrec as [Hm|Hr].
  - apply type_is_one_of in Hm as (tag & Hin & ->).
    simpl in Hin. repeat (destruct Hin as [<-|Hin]; [reflexivity|]). contradiction.
  - apply type_is_one_of in Hr as (tag & Hin & ->).
    simpl in Hin. repeat (destruct Hin as [<-|Hin]; [reflexivity|]). contradiction.
Qed.

Section Facts.

Context {FS D : Type} `{KernelAPI FS} `{WorkerHost D}.

(** Which call of the engine each mutating tag stands for. *)
Lemma run_switch_mutation (req : KernelRequest) (fs : FS) :
  (type_is req "fs_mkdir" = true -> run_switch req fs = write (fs_mkdir (req_path req) fs)) /\
  (type_is req "fs_write_file" = true ->
   run_switch req fs = write (fs_write_file (req_path req) (req_data req) fs)) /\
  (type_is req "fs_rm" = true -> run_switch req fs = write (fs_rm (req_path req) fs)) /\
  (type_is req "fs_rmdir" = true -> run_switch req fs = write (fs_rmdir (req_path req) fs)) /\
  (type_is req "fs_mv" = true ->
   run_switch req fs = write (fs_mv (req_from req) (req_to req) fs)) /\
  (type_is req "fs_cp" = true ->
   run_switch req fs = write (fs_cp (req_from req) (req_to req) fs)).
Proof.
  repeat split; intros Hty; apply type_is_true in Hty;
    unfold run_switch, type_is; rewrite Hty; reflexivity.
Qed.

(** Which call each read-only tag stands for. *)
Lemma run_switch_query (req : KernelRequest) (fs : FS) :
  (type_is req "hello" = true ->
   run_switch req fs = read PString (hello (req_name req) fs) fs) /\
  (type_is req "fs_readdir" = true ->
   run_switch req fs = read PNames (fs_readdir (req_path req) fs) fs) /\
  (type_is req "fs_read_file" = true ->
   run_switch req fs = read PBytes (fs_read_file (req_path req) fs) fs) /\
  (type_is req "fs_stat" = true ->
   run_switch req fs = read PStat (fs_stat (req_path req) fs) fs).
Proof.
  repeat split; intros Hty; apply type_is_true in Hty;
    unfold run_switch, type_is; rewrite Hty; reflexivity.
Qed.

Lemma run_switch_mutating (req : KernelRequest) (fs : FS) :
  mutating req = true -> exists r, run_switch req fs = write r.
Proof.
  unfold mutating, mutating_tags. cbn [existsb]. intros Hm.
  destruct (run_switch_mutation req fs) as (H1 & H2 & H3 & H4 & H5 & H6).
  repeat (apply orb_true_iff in Hm as [Hm|Hm]; [eexists; eauto|]).
  discriminate.
Qed.

Lemma run_switch_read_only (req : KernelRequest) (fs : FS) :
  read_only req = true ->
  exists (A : Type) (wrap : A -> payload) (r : completion A),
    run_switch req fs = read wrap r fs.
Proof.
  unfold read_only, read_only_tags. cbn [existsb]. intros Hr.
  destruct (run_switch_query req fs) as (H1 & H2 & H3 & H4).
  repeat (apply orb_true_iff in Hr as [Hr|Hr]; [do 3 eexists; eauto|]).
  discriminate.
Qed.

(** The [try] block writes to the store at most once and posts nothing. *)
Lemma try_block_events (req : KernelRequest) (w : state FS D) :
  forallb is_store_write (snd (try_block req w)) = true.
Proof.
  unfold try_block, persist. destruct (api w) as [fs|]; [|reflexivity].
  destruct (run_switch req fs) as [[[result [|]]|e] fs']; cbn [api idb]; try reflexivity.
  destruct (fs_dump_state fs') as [dump|e]; [|reflexivity].
  destruct (idbSetBytes FS_KEY dump (idb w)) as [[u|e] d]; reflexivity.
Qed.

End Facts.

Section Responses.

Context {FS D : Type} `{KernelAPI FS} `{WorkerHost D}.

Lemma onmessage_well_formed (req : KernelRequest) (w : state FS D) :
  truthy (req_id req) = true -> truthy (req_type req) = true ->
  onmessage (Some req) w
  = (snd (fst (try_block req w)),
     snd (try_block req w) ++ [PostMessage (response_to req (fst (fst (try_block req w))))]).
Proof.
  intros Hid Hty. unfold onmessage. rewrite Hid, Hty. cbn [negb orb].
  destruct (try_block req w) as [[[result|e] w'] evs]; reflexivity.
Qed.

Lemma try_block_read_only (req : KernelRequest) (w : state FS D) :
  read_only req = true ->
  idb (snd (fst (try_block req w))) = idb w /\ snd (try_block req w) = [].
Proof.
  intros Hr. unfold try_block. destruct (api w) as [fs|]; [|split; reflexivity].
  destruct (run_switch_read_only req fs Hr) as (A & wrap & r & ->).
  destruct r as [a|e]; split; reflexivity.
Qed.

Lemma try_block_mutating (req : KernelRequest) (w : state FS D) (fs : FS) :
  mutating req = true -> api w = Some fs ->
  (forall p fs', run_switch req fs = (Normal p, fs') -> p = (PUndefined, true)) /\
  (forall e fs',
      run_switch req fs = (Throw e, fs') ->
      try_block req w = (Throw e, {| api := Some fs'; idb := idb w |}, [])) /\
  (forall p fs' dump,
      run_switch req fs = (Normal p, fs') -> fs_dump_state fs' = Normal dump ->
      try_block req w
      = (match fst (idbSetBytes FS_KEY dump (idb w)) with
         | Normal _ => Normal PUndefined
         | Throw e => Throw e
         end,
         {| api := Some fs'; idb := snd (idbSetBytes FS_KEY dump (idb w)) |},
         [IdbSet FS_KEY dump])) /\
  (forall p fs' e,
      run_switch req fs = (Normal p, fs') -> fs_dump_state fs' = Throw e ->
      try_block req w = (Throw e, {| api := Some fs'; idb := idb w |}, [])).
Proof.
  intros Hm Hapi. destruct (run_switch_mutating req fs Hm) as (r & Hrun).
  unfold try_block, persist. rewrite Hapi, Hrun.
  destruct r as [[u|e0] fs0]; cbn [write api idb].
  - split; [|split; [|split]].
    + intros p fs' Heq. now injection Heq as <- _.
    + intros e fs' Heq. discriminate.
    + intros p fs' dump Heq Hdump. injection Heq as _ <-. rewrite Hdump.
      destruct (idbSetBytes FS_KEY dump (idb w)) as [[u'|e] d]; reflexivity.
    + intros p fs' e Heq Hdump. injection Heq as _ <-. now rewrite Hdump.
  - split; [|split; [|split]].
    + intros p fs' Heq. discriminate.
    + intros e fs' Heq. now injection Heq as <- <-.
    + intros p fs' dump Heq. discriminate.
    + intros p fs' e Heq. discriminate.
Qed.

Lemma try_block_mutating_result (req : KernelRequest) (w : state FS D) (result : payload) :
  mutating req = true ->
  fst (fst (try_block req w)) = Normal result -> result = PUndefined.
Proof.
  intros Hm. destruct (api w) as [fs|] eqn:Hapi.
  - destruct (try_block_mutating req w Hm Hapi) as (Hp & Hthrow & Hdone & Hnodump).
    destruct (run_switch req fs) as [[p|e] fs'] eqn:Hrun.
    + destruct (fs_dump_state fs') as [dump|e] eqn:Hdump.
      * rewrite (Hdone p fs' dump eq_refl Hdump). cbn [fst].
        destruct (fst (idbSetBytes FS_KEY dump (idb w))); congruence.
      * rewrite (Hnodump p fs' e eq_refl Hdump). discriminate.
    + rewrite (Hthrow e fs' eq_refl). discriminate.
  - unfold try_block. rewrite Hapi. discriminate.
Qed.

End Responses.

(** C10. A message that is null, or whose [id] or [type] is missing or
    otherwise falsy, is dropped: the handler posts nothing, writes nothing
    and leaves the worker as it was. *)
Theorem malformed_message_gets_no_response :
  forall (FS D : Type) (ka : KernelAPI FS) (wh : WorkerHost D)
         (ev : option KernelRequest) (w : state FS D),
    (ev = None \/
     exists req, ev = Some req /\
                 (truthy (req_id req) = false \/ truthy (req_type req) = false)) ->
    onmessage ev w = (w, []).
Proof.
  intros FS D ka wh ev w [->|(req & -> & [Hid|Hty])]; [reflexivity| |];
    unfold onmessage.
  - now rewrite Hid.
  - rewrite Hty. now rewrite orb_true_r.
Qed.

Lemma malformed_message_gets_no_response_witness :
  let w := {| api := Some ([] : MemFs.tree); idb := ([] : MemFs.store) |} in
  let req := MemFs.request (js "7") "fs_mkdir" (js "/a") in
  let no_id := {| req_id := JUndefined; req_type := req_type req; req_name := [];
                  req_path := js "/a"; req_data := []; req_from := []; req_to := [] |} in
  let empty_id := {| req_id := JString []; req_type := req_type req; req_name := [];
                     req_path := js "/a"; req_data := []; req_from := []; req_to := [] |} in
  let zero_id := {| req_id := JNumber 0; req_type := req_type req; req_name := [];
                    req_path := js "/a"; req_data := []; req_from := []; req_to := [] |} in
  let no_type := {| req_id := req_id req; req_type := JUndefined; req_name := [];
                    req_path := js "/a"; req_data := []; req_from := []; req_to := [] |} in
  onmessage None w = (w, []) /\
  onmessage (Some no_id) w = (w, []) /\
  onmessage (Some empty_id) w = (w, []) /\
  onmessage (Some zero_id) w = (w, []) /\
  onmessage (Some no_type) w = (w, []).
Proof.
  intros w req no_id empty_id zero_id no_type.
  split; [|split; [|split; [|split]]]; apply malformed_message_gets_no_response.
  - left. reflexivity.
  - right. exists no_id. split; [reflexivity | left; reflexivity].
  - right. exists empty_id. split; [reflexivity | left; reflexivity].
  - right. exists zero_id. split; [reflexivity | left; reflexivity].
  - right. exists no_type. split; [reflexivity | right; reflexivity].
Defined.

(** C3. A request with a truthy [id] and one of the ten known tags gets
    exactly one response: the handler's last act is to post it, nothing
    is posted before, and it carries the request's [id]. A response with
    [ok = false] has an [error] key and no [result] key; one with
    [ok = true] has a [result] key and no [error] key, and after a
    mutation the value under [result] is [undefined]. *)
Theorem one_response_per_request :
  forall (FS D : Type) (ka : KernelAPI FS) (wh : WorkerHost D)
         (req : KernelRequest) (w : state FS D),
    truthy (req_id req) = true ->
    recognized req = true ->
    exists w' before response,
      onmessage (Some req) w = (w', before ++ [PostMessage response]) /\
      existsb is_post before = false /\
      resp_id response = req_id req /\
      (resp_ok response = false ->
       (exists e, resp_error response = Some e) /\ resp_result response = None) /\
      (resp_ok response = true ->
       (exists result, resp_result response = Some result) /\ resp_error response = None) /\
      (resp_ok response = true -> mutating req = true ->
       resp_result response = Some PUndefined).
Proof.
  intros FS D ka wh req w Hid Hrec.
  rewrite (onmessage_well_formed req w Hid (recognized_truthy req Hrec)).
  do 3 eexists. split; [reflexivity|]. split; [|split; [|split; [|split]]].
  - pose proof (try_block_events req w) as Hev.
    induction (snd (try_block req w)) as [|e evs IH]; [reflexivity|].
    simpl in Hev. apply andb_true_iff in Hev as [He Hev].
    simpl. rewrite (IH Hev). destruct e; [reflexivity | discriminate].
  - destruct (fst (fst (try_block req w))); reflexivity.
  - destruct (fst (fst (try_block req w))) as [result|e]; cbn; [discriminate|].
    intros _. split; [now exists e | reflexivity].
  - destruct (fst (fst (try_block req w))) as [result|e]; cbn; [|discriminate].
    intros _. split; [now exists result | reflexivity].
  - intros Hok Hm. pose proof (try_block_mutating_result req w) as Hund.
    destruct (fst (fst (try_block req w))) as [result|e]; cbn in *; [|discriminate].
    now rewrite (Hund result Hm eq_refl).
Qed.

Lemma one_response_per_request_witness :
  let w := {| api := Some ([] : MemFs.tree); idb := ([] : MemFs.store) |} in
  exists w' before response,
    onmessage (Some (MemFs.request (js "7") "fs_rmdir" (js "/nope"))) w
    = (w', before ++ [PostMessage response]) /\
    existsb is_post before = false /\
    resp_id response = JString (js "7") /\
    (resp_ok response = false ->
     (exists e, resp_error response = Some e) /\ resp_result response = None) /\
    (resp_ok response = true ->
     (exists result, resp_result response = Some result) /\ resp_error response = None) /\
    (resp_ok response = true ->
     mutating (MemFs.request (js "7") "fs_rmdir" (js "/nope")) = true ->
     resp_result response = Some PUndefined).
Proof.
  intros w.
  apply (one_response_per_request MemFs.engine MemFs.worker_host
           (MemFs.request (js "7") "fs_rmdir" (js "/nope")) w); reflexivity.
Defined.

Lemma mutating_truthy (req : KernelRequest) :
  mutating req = true -> truthy (req_type req) = true.
Proof.
  intros Hm. apply recognized_truthy. unfold recognized. now rewrite Hm.
Qed.

Lemma read_only_truthy (req : KernelRequest) :
  read_only req = true -> truthy (req_type req) = true.
Proof.
  intros Hr. apply recognized_truthy. unfold recognized. rewrite Hr. apply orb_true_r.
Qed.

(** C2. For a request that mutates the tree ([fs_mkdir], [fs_write_file],
    [fs_rm], [fs_rmdir], [fs_mv], [fs_cp]): once the engine has done the
    mutation, the whole tree is serialized and written to the store under
    [FS_KEY], and only then is the response posted; a response with
    [ok = true] is posted only after that write has completed, and the
    bytes written are the snapshot of the tree after the mutation. For a
    request that only reads ([hello], [fs_readdir], [fs_read_file],
    [fs_stat]) the store is never written. *)
Theorem persist_before_response :
  forall (FS D : Type) (ka : KernelAPI FS) (wh : WorkerHost D)
         (req : KernelRequest) (w : state FS D),
    truthy (req_id req) = true ->
    (mutating req = true ->
     forall fs p fs' dump,
       api w = Some fs ->
       run_switch req fs = (Normal p, fs') ->
       fs_dump_state fs' = Normal dump ->
       onmessage (Some req) w
       = ({| api := Some fs'; idb := snd (idbSetBytes FS_KEY dump (idb w)) |},
          [ IdbSet FS_KEY dump;
            PostMessage
              (response_to req
                 match fst (idbSetBytes FS_KEY dump (idb w)) with
                 | Normal _ => Normal PUndefined
                 | Throw e => Throw e
                 end) ])) /\
    (mutating req = true ->
     forall w' events response,
       onmessage (Some req) w = (w', events) ->
       In (PostMessage response) events ->
       resp_ok response = true ->
       exists fs fs' dump,
         api w = Some fs /\
         run_switch req fs = (Normal (PUndefined, true), fs') /\
         fs_dump_state fs' = Normal dump /\
         fst (idbSetBytes FS_KEY dump (idb w)) = Normal tt /\
         events = [IdbSet FS_KEY dump; PostMessage response] /\
         w' = {| api := Some fs'; idb := snd (idbSetBytes FS_KEY dump (idb w)) |}) /\
    (read_only req = true ->
     idb (fst (onmessage (Some req) w)) = idb w /\
     existsb is_store_write (snd (onmessage (Some req) w)) = false).
Proof.
  intros FS D ka wh req w Hid. split; [|split].
  - intros Hm fs p fs' dump Hapi Hrun Hdump.
    rewrite (onmessage_well_formed req w Hid (mutating_truthy req Hm)).
    destruct (try_block_mutating req w Hm Hapi) as (_ & _ & Hok & _).
    rewrite (Hok p fs' dump Hrun Hdump). reflexivity.
  - intros Hm w' events response Hon Hin Hok.
    rewrite (onmessage_well_formed req w Hid (mutating_truthy req Hm)) in Hon.
    destruct (api w) as [fs|] eqn:Hapi.
    + destruct (try_block_mutating req w Hm Hapi) as (Hp & Hthrow & Hdone & Hnodump).
      destruct (run_switch req fs) as [[p|e] fs'] eqn:Hrun.
      * pose proof (Hp p fs' eq_refl) as ->.
        destruct (fs_dump_state fs') as [dump|e] eqn:Hdump.
        -- rewrite (Hdone _ fs' dump eq_refl Hdump) in Hon. cbn [fst snd app] in Hon.
           injection Hon as <- <-.
           destruct Hin as [Hin|[Hin|[]]]; [discriminate|]. injection Hin as <-.
           exists fs, fs', dump.
           destruct (idbSetBytes FS_KEY dump (idb w)) as [[[]|e] d];
             cbn [fst snd response_to resp_ok] in *; [|discriminate].
           split; [reflexivity|]. split; [exact Hrun|]. split; [exact Hdump|].
           repeat (split; [reflexivity|]). reflexivity.
        -- rewrite (Hnodump _ fs' e eq_refl Hdump) in Hon. cbn [fst snd app] in Hon.
           injection Hon as <- <-.
           destruct Hin as [Hin|[]]. injection Hin as <-. discriminate.
      * rewrite (Hthrow e fs' eq_refl) in Hon. cbn [fst snd app] in Hon.
        injection Hon as <- <-.
        destruct Hin as [Hin|[]]. injection Hin as <-. discriminate.
    + unfold try_block in Hon. rewrite Hapi in Hon. cbn [fst snd app] in Hon.
      injection Hon as <- <-.
      destruct Hin as [Hin|[]]. injection Hin as <-. discriminate.
  - intros Hr.
    rewrite (onmessage_well_formed req w Hid (read_only_truthy req Hr)).
    destruct (try_block_read_only req w Hr) as [Hidb Hev].
    cbn [fst snd]. rewrite Hev. split; [exact Hidb | reflexivity].
Qed.

Lemma persist_before_response_witness :
  let w := {| api := Some ([] : MemFs.tree); idb := ([] : MemFs.store) |} in
  let fs' := [(js "/a", MemFs.DirNode)] in
  let answer := {| resp_id := JString (js "7"); resp_ok := true;
                   resp_result := Some PUndefined; resp_error := None |} in
  onmessage (Some (MemFs.request (js "7") "fs_mkdir" (js "/a"))) w
  = ({| api := Some fs'; idb := [(js "fs_state", MemFs.dump fs')] |},
     [IdbSet (js "fs_state") (MemFs.dump fs'); PostMessage answer]) /\
  (exists fs fs1 dump,
      api w = Some fs /\
      run_switch (MemFs.request (js "7") "fs_mkdir" (js "/a")) fs
      = (Normal (PUndefined, true), fs1) /\
      fs_dump_state fs1 = Normal dump /\
      fst (idbSetBytes FS_KEY dump (idb w)) = Normal tt /\
      [IdbSet (js "fs_state") (MemFs.dump fs'); PostMessage answer]
      = [IdbSet FS_KEY dump; PostMessage answer] /\
      {| api := Some fs'; idb := [(js "fs_state", MemFs.dump fs')] |}
      = {| api := Some fs1; idb := snd (idbSetBytes FS_KEY dump (idb w)) |}) /\
  idb (fst (onmessage (Some (MemFs.request (js "8") "fs_stat" (js "/"))) w)) = idb w /\
  existsb is_store_write
    (snd (onmessage (Some (MemFs.request (js "8") "fs_stat" (js "/"))) w)) = false.
Proof.
  intros w fs' answer.
  pose proof (persist_before_response MemFs.engine MemFs.worker_host
                (MemFs.request (js "7") "fs_mkdir" (js "/a")) w eq_refl)
    as (Hwrite & Hsuccess & _).
  pose proof (persist_before_response MemFs.engine MemFs.worker_host
                (MemFs.request (js "8") "fs_stat" (js "/")) w eq_refl)
    as (_ & _ & Hread).
  split; [|split].
  - apply (Hwrite eq_refl [] (PUndefined, true) fs' (MemFs.dump fs')); reflexivity.
  - apply (Hsuccess eq_refl); [reflexivity | right; left; reflexivity | reflexivity].
  - apply Hread. reflexivity.
Defined.

End WorkerFacts.

(* ================================================================== *)
(** ** sort *)

Lemma str_leb_total (a b : jsstring) : str_leb a b = false -> str_leb b a = true.
Proof.
  revert b; induction a as [|x a IH]; intros [|y b]; simpl; try congruence.
  destruct (x <? y) eqn:Exy; [discriminate|].
  destruct (y <? x) eqn:Eyx; [reflexivity|]. apply IH.
Qed.

Lemma insert_sorted_perm (x : jsstring) (l : list jsstring) :
  Permutation (x :: l) (insert_sorted x l).
Proof.
  induction l as [|y l IH]; simpl; [apply Permutation_refl|].
  destruct (str_leb x y); [apply Permutation_refl|].
  eapply perm_trans; [apply perm_swap|]. now apply perm_skip.
Qed.

Lemma sort_perm (l : list jsstring) : Permutation l (sort l).
Proof.
  induction l as [|x l IH]; simpl; [apply perm_nil|].
  eapply perm_trans; [apply perm_skip, IH | apply insert_sorted_perm].
Qed.

Lemma insert_sorted_ordered (x : jsstring) (l : list jsstring) :
  Sorted str_le l -> Sorted str_le (insert_sorted x l).
Proof.
  induction l as [|y l IH]; simpl; intros Hs.
  - repeat constructor.
  - destruct (str_leb x y) eqn:E.
    + constructor; [exact Hs|]. constructor. exact E.
    + inversion Hs as [|? ? Hl Hhd]; subst.
      constructor; [now apply IH|].
      destruct l as [|z l]; simpl.
      * constructor. now apply str_leb_total.
      * destruct (str_leb x z).
        -- constructor. now apply str_leb_total.
        -- inversion Hhd; subst. now constructor.
Qed.

Lemma sort_ordered (l : list jsstring) : Sorted str_le (sort l).
Proof.
  induction l as [|x l IH]; simpl; [constructor|]. now apply insert_sorted_ordered.
Qed.

(* ================================================================== *)
(** ** tree *)

Section TreeFacts.

Context {K : Type} `{KernelClient K}.
Variable k : K.

Lemma ordered_perm (path : jsstring) : Permutation (listing k path) (ordered k path).
Proof.
  unfold ordered.
  eapply perm_trans; [|apply Permutation_app; apply sort_perm].
  induction (listing k path) as [|entry l IH]; simpl; [apply perm_nil|].
  destruct (is_directory k (entry_path path entry)); simpl.
  - now apply perm_skip.
  - now apply Permutation_cons_app.
Qed.

Lemma classify_filter (path : jsstring) (entries dirEntries fileEntries : list jsstring) :
  classify k path entries dirEntries fileEntries
  = (dirEntries ++ filter (fun entry => is_directory k (entry_path path entry)) entries,
     fileEntries ++ filter (fun entry => negb (is_directory k (entry_path path entry))) entries).
Proof.
  revert dirEntries fileEntries.
  induction entries as [|entry rest IH]; intros dirEntries fileEntries;
    cbn [classify filter].
  - now rewrite !app_nil_r.
  - assert (Hd : is_directory k (entry_path path entry)
                 = match fs_stat (entry_path path entry) k with
                   | Resolved stat => is_dir stat
                   | Rejected _ => false
                   end) by reflexivity.
    destruct (fs_stat (entry_path path entry) k) as [stat|msg]; rewrite Hd.
    + destruct (is_dir stat); rewrite IH; cbn [negb]; now rewrite <- app_assoc.
    + rewrite IH. cbn [negb]. now rewrite <- app_assoc.
Qed.

Lemma level_lines_nonempty (below : jsstring -> jsstring -> option (list jsstring))
      (path prefix : jsstring) (entries lines : list jsstring) :
  (forall p pre ls, below p pre = Some ls -> forallb nonempty ls = true) ->
  level_lines k below path prefix entries = Some lines ->
  forallb nonempty lines = true.
Proof.
  intros Hbelow. revert lines.
  induction entries as [|entry rest IH]; intros lines; cbn [level_lines].
  - intros Heq. now injection Heq as <-.
  - destruct (level_lines k below path prefix rest) as [after|]; [|discriminate].
    specialize (IH after eq_refl). cbv zeta.
    destruct (is_directory k (entry_path path entry)).
    + destruct (below (entry_path path entry) _) as [inner|] eqn:Hinner; [|discriminate].
      intros Heq. injection Heq as <-. cbn [forallb].
      apply andb_true_iff. split.
      * apply nonempty_app_r. destruct rest; reflexivity.
      * rewrite forallb_app, IH, (Hbelow _ _ _ Hinner). reflexivity.
    + intros Heq. injection Heq as <-. cbn [forallb].
      apply andb_true_iff. split; [|exact IH].
      apply nonempty_app_r. destruct rest; reflexivity.
Qed.

Lemma tree_lines_nonempty (depth : nat) (path prefix : jsstring) (lines : list jsstring) :
  tree_lines k depth path prefix = Some lines -> forallb nonempty lines = true.
Proof.
  revert path prefix lines. induction depth as [|depth IH]; intros path prefix lines; simpl.
  - discriminate.
  - apply level_lines_nonempty. exact IH.
Qed.

End TreeFacts.

(** ** Lines and text *)

Lemma split_on_not_nil (sep : code_unit) (s : jsstring) : split_on sep s <> [].
Proof.
  induction s as [|c s IH]; simpl; [discriminate|].
  destruct (c =? sep); [discriminate|].
  destruct (split_on sep s); discriminate.
Qed.

Lemma join_cons_head (sep : jsstring) (c : code_unit) (seg : jsstring) (segs : list jsstring) :
  join sep ((c :: seg) :: segs) = c :: join sep (seg :: segs).
Proof. destruct segs; reflexivity. Qed.

(** Joining the pieces of a text gives the text back. *)
Lemma join_split_on (sep : code_unit) (s : jsstring) : join [sep] (split_on sep s) = s.
Proof.
  induction s as [|c s IH]; [reflexivity|]. cbn [split_on].
  destruct (c =? sep) eqn:E.
  - apply N.eqb_eq in E. subst c.
    pose proof (split_on_not_nil sep s) as Hne.
    destruct (split_on sep s) as [|seg segs]; [contradiction|].
    cbn [join]. cbn [join] in IH. now rewrite IH.
  - pose proof (split_on_not_nil sep s) as Hne.
    destruct (split_on sep s) as [|seg segs]; [contradiction|].
    rewrite join_cons_head. now rewrite IH.
Qed.

Lemma split_on_sep_app (sep : code_unit) (a b : jsstring) :
  split_on sep (a ++ sep :: b) = split_on sep a ++ split_on sep b.
Proof.
  induction a as [|c a IH]; cbn [app split_on].
  - now rewrite N.eqb_refl.
  - destruct (c =? sep); rewrite IH; [reflexivity|].
    pose proof (split_on_not_nil sep a) as Hne.
    destruct (split_on sep a); [contradiction | reflexivity].
Qed.

(** The pieces of a joined text are the pieces of its lines. *)
Lemma split_on_join_pieces (sep : code_unit) (l : list jsstring) :
  l <> [] -> split_on sep (join [sep] l) = flat_map (split_on sep) l.
Proof.
  induction l as [|x l IH]; [congruence|]. intros _.
  destruct l as [|y l'].
  - cbn [join flat_map]. now rewrite app_nil_r.
  - change (join [sep] (x :: y :: l')) with (x ++ sep :: join [sep] (y :: l')).
    rewrite split_on_sep_app, IH by discriminate. reflexivity.
Qed.

Lemma join_app (sep : jsstring) (a b : list jsstring) :
  a <> [] -> b <> [] -> join sep (a ++ b) = join sep a ++ sep ++ join sep b.
Proof.
  induction a as [|x a IH]; [congruence|]. intros _ Hb.
  destruct a as [|y a'].
  - destruct b; [contradiction | reflexivity].
  - change (join sep ((x :: y :: a') ++ b)) with (x ++ sep ++ join sep ((y :: a') ++ b)).
    rewrite IH by (try discriminate; exact Hb).
    change (join sep (x :: y :: a')) with (x ++ sep ++ join sep (y :: a')).
    now rewrite <- !app_assoc.
Qed.

Lemma same_text_refl (a : list jsstring) : same_text a a.
Proof. split; [reflexivity | tauto]. Qed.

Lemma same_text_app (a a' b b' : list jsstring) :
  same_text a a' -> same_text b b' -> same_text (a ++ b) (a' ++ b').
Proof.
  intros [Ha Hea] [Hb Heb]. split.
  - destruct a as [|x a].
    + assert (a' = []) as -> by now apply Hea. exact Hb.
    + assert (Hne' : a' <> []) by (intros E; apply Hea in E; discriminate).
      destruct b as [|y b].
      * assert (b' = []) as -> by now apply Heb. now rewrite !app_nil_r.
      * assert (Hnb' : b' <> []) by (intros E; apply Heb in E; discriminate).
        rewrite !join_app by (assumption || discriminate). now rewrite Ha, Hb.
  - split; intros E; apply app_eq_nil in E as [E1 E2].
    + apply Hea in E1. apply Heb in E2. now subst.
    + apply Hea in E1. apply Heb in E2. now subst.
Qed.

Lemma solid_app (a b : list jsstring) :
  solid (a ++ b) = true -> solid a = true /\ solid b = true.
Proof. unfold solid. rewrite forallb_app. apply andb_true_iff. Qed.

Lemma forallb_flat_map {A B} (f : B -> bool) (g : A -> list B) (l : list A) :
  forallb (fun x => forallb f (g x)) l = true -> forallb f (flat_map g l) = true.
Proof.
  induction l as [|x l IH]; simpl; [reflexivity|].
  intros Hl. apply andb_true_iff in Hl as [Hx Hl].
  rewrite forallb_app, Hx. now apply IH.
Qed.

(** What [subTree.split('\n').filter(...)] makes of the rendering of a
    subdirectory prints as the lines that were joined. *)
Lemma sublines_same_text (lines : list jsstring) :
  solid lines = true ->
  same_text (filter nonempty (split_on LF (join [LF] lines))) lines.
Proof.
  intros Hs. destruct lines as [|x l]; [apply same_text_refl|].
  assert (Hall : forallb nonempty (split_on LF (join [LF] (x :: l))) = true).
  { rewrite split_on_join_pieces by discriminate. now apply forallb_flat_map. }
  rewrite filter_nonempty_id by exact Hall. split.
  - apply join_split_on.
  - split; [|discriminate]. intros E. now apply split_on_not_nil in E.
Qed.

Section TreeRendering.

Context {K : Type} `{KernelClient K}.
Variable k : K.

(** The second loop of [buildTree] adds to the lines it starts with lines
    that print as the lines of the level, when the recursive call renders
    subdirectories as [below] says and the lines are solid. *)
Lemma render_level (rec : jsstring -> jsstring -> bool -> option jsstring)
      (below : jsstring -> jsstring -> option (list jsstring)) (path prefix : jsstring) :
  (forall p pre ls,
      below p pre = Some ls -> solid ls = true -> rec p pre false = Some (join [LF] ls)) ->
  forall sorted acc lines,
    level_lines k below path prefix sorted = Some lines ->
    solid lines = true ->
    exists printed,
      render k rec path prefix sorted acc = Some (acc ++ printed) /\
      same_text printed lines.
Proof.
  intros Hrec. induction sorted as [|entry rest IH]; intros acc lines;
    cbn [level_lines render].
  - intros Heq _. injection Heq as <-. exists []. rewrite app_nil_r.
    split; [reflexivity | apply same_text_refl].
  - destruct (level_lines k below path prefix rest) as [after|]; [|discriminate].
    cbv zeta.
    assert (Hd : is_directory k (entry_path path entry)
                 = match fs_stat (entry_path path entry) k with
                   | Resolved stat => is_dir stat
                   | Rejected _ => false
                   end) by reflexivity.
    assert (Hleaf : forall line,
               solid (line :: after) = true ->
               exists printed,
                 render k rec path prefix rest (acc ++ [line]) = Some (acc ++ printed) /\
                 same_text printed (line :: after)).
    { intros line Hs. apply (solid_app [line] after) in Hs as [_ Hs].
      destruct (IH (acc ++ [line]) after eq_refl Hs) as (printed & Hrender & Hsame).
      exists (line :: printed). rewrite Hrender, <- app_assoc. split; [reflexivity|].
      apply (@same_text_app [line] [line] printed after);
        [apply same_text_refl | exact Hsame]. }
    destruct (fs_stat (entry_path path entry) k) as [stat|msg]; rewrite Hd.
    + destruct (is_dir stat).
      * destruct (below (entry_path path entry) _) as [inner|] eqn:Hinner; [|discriminate].
        intros Heq Hsolid. injection Heq as <-.
        match type of Hsolid with
        | solid (?line :: _) = true =>
            apply (solid_app [line] (inner ++ after)) in Hsolid as [_ Hsolid];
            set (dirLine := line)
        end.
        apply solid_app in Hsolid as [Hinner_solid Hafter_solid].
        match goal with
        | |- context [rec ?p ?q false] => rewrite (Hrec p q inner Hinner Hinner_solid)
        end.
        set (subLines := filter nonempty (split_on LF (join [LF] inner))).
        destruct (IH ((acc ++ [dirLine]) ++ subLines) after eq_refl Hafter_solid)
          as (printed & Hrender & Hsame).
        exists (dirLine :: subLines ++ printed). split.
        -- rewrite Hrender. f_equal. rewrite <- !app_assoc. reflexivity.
        -- apply (@same_text_app [dirLine] [dirLine] (subLines ++ printed) (inner ++ after));
             [apply same_text_refl|].
           apply same_text_app; [now apply sublines_same_text | exact Hsame].
      * intros Heq Hsolid. injection Heq as <-. now apply Hleaf.
    + intros Heq Hsolid. injection Heq as <-. now apply Hleaf.
Qed.

(** [buildTree] returns the lines of the specification, joined by line
    feeds, behind the root path when it is asked for. *)
Lemma buildTree_lines (fuel : nat) :
  forall path prefix isRoot lines,
    tree_lines k fuel path prefix = Some lines ->
    solid lines = true ->
    buildTree k fuel path prefix isRoot
    = Some (join [LF] ((if isRoot then [path] else []) ++ lines)).
Proof.
  induction fuel as [|fuel IH]; intros path prefix isRoot lines; [discriminate|].
  cbn [tree_lines buildTree]. unfold ordered, listing.
  destruct (fs_readdir path k) as [entries|msg].
  - rewrite classify_filter. cbn [app]. intros Hlines Hsolid.
    destruct (render_level (buildTree k fuel) (tree_lines k fuel) path prefix
                (fun p pre ls Hb Hs => IH p pre false ls Hb Hs)
                _ (if isRoot then [path] else []) Hlines Hsolid)
      as (printed & -> & Hsame).
    f_equal. apply same_text_app; [apply same_text_refl | exact Hsame].
  - cbn. intros Heq _. injection Heq as <-. now rewrite app_nil_r.
Qed.

(** The level a call renders itself is not read back: there only the
    lines of the subdirectories have to be solid. *)
Lemma render_own_level (rec : jsstring -> jsstring -> bool -> option jsstring)
      (below : jsstring -> jsstring -> option (list jsstring)) (path prefix : jsstring) :
  (forall p pre ls,
      below p pre = Some ls -> solid ls = true -> rec p pre false = Some (join [LF] ls)) ->
  forall sorted acc lines,
    level_lines k below path prefix sorted = Some lines ->
    (forall entry indent inner,
        In entry sorted ->
        is_directory k (entry_path path entry) = true ->
        indent = BLANK_INDENT \/ indent = PIPE_INDENT ->
        below (entry_path path entry) (prefix ++ indent) = Some inner ->
        solid inner = true) ->
    exists printed,
      render k rec path prefix sorted acc = Some (acc ++ printed) /\
      same_text printed lines.
Proof.
  intros Hrec. induction sorted as [|entry rest IH]; intros acc lines;
    cbn [level_lines render].
  - intros Heq _. injection Heq as <-. exists []. rewrite app_nil_r.
    split; [reflexivity | apply same_text_refl].
  - destruct (level_lines k below path prefix rest) as [after|]; [|discriminate].
    cbv zeta. intros Hlines Hsub.
    assert (Hrest : forall e indent inner,
               In e rest -> is_directory k (entry_path path e) = true ->
               indent = BLANK_INDENT \/ indent = PIPE_INDENT ->
               below (entry_path path e) (prefix ++ indent) = Some inner ->
               solid inner = true).
    { intros e indent inner Hin. apply Hsub. now right. }
    assert (Hleaf : forall line,
               exists printed,
                 render k rec path prefix rest (acc ++ [line]) = Some (acc ++ printed) /\
                 same_text printed (line :: after)).
    { intros line.
      destruct (IH (acc ++ [line]) after eq_refl Hrest) as (printed & Hrender & Hsame).
      exists (line :: printed). rewrite Hrender, <- app_assoc. split; [reflexivity|].
      apply (@same_text_app [line] [line] printed after);
        [apply same_text_refl | exact Hsame]. }
    assert (Hd : is_directory k (entry_path path entry)
                 = match fs_stat (entry_path path entry) k with
                   | Resolved stat => is_dir stat
                   | Rejected _ => false
                   end) by reflexivity.
    revert Hlines.
    destruct (fs_stat (entry_path path entry) k) as [stat|msg]; rewrite Hd.
    + destruct (is_dir stat) eqn:Hdir.
      * destruct (below (entry_path path entry) _) as [inner|] eqn:Hinner; [|discriminate].
        intros Heq. injection Heq as <-.
        assert (Hinner_solid : solid inner = true).
        { refine (Hsub entry _ inner (or_introl eq_refl) _ _ Hinner).
          - exact Hd.
          - destruct rest; [left | right]; reflexivity. }
        match goal with
        | |- context [rec ?p ?q false] => rewrite (Hrec p q inner Hinner Hinner_solid)
        end.
        set (subLines := filter nonempty (split_on LF (join [LF] inner))).
        match goal with
        | |- context [(acc ++ [?line]) ++ subLines] => set (dirLine := line)
        end.
        destruct (IH ((acc ++ [dirLine]) ++ subLines) after eq_refl Hrest)
          as (printed & Hrender & Hsame).
        exists (dirLine :: subLines ++ printed). split.
        -- rewrite Hrender. f_equal. rewrite <- !app_assoc. reflexivity.
        -- apply (@same_text_app [dirLine] [dirLine] (subLines ++ printed) (inner ++ after));
             [apply same_text_refl|].
           apply same_text_app; [now apply sublines_same_text | exact Hsame].
      * intros Heq. injection Heq as <-. apply Hleaf.
    + intros Heq. injection Heq as <-. apply Hleaf.
Qed.

(** What a call of [buildTree] returns is the rendering of the
    specification when the lines of the subdirectories are solid, whatever
    the names at its own level are. *)
Lemma buildTree_own_level (fuel : nat) (path prefix : jsstring) (isRoot : bool)
      (lines : list jsstring) :
  tree_lines k (S fuel) path prefix = Some lines ->
  solid_below k fuel path prefix ->
  buildTree k (S fuel) path prefix isRoot
  = Some (join [LF] ((if isRoot then [path] else []) ++ lines)).
Proof.
  cbn [tree_lines buildTree]. intros Hlines Hbelow.
  assert (Hperm := ordered_perm k path). revert Hlines Hperm. unfold ordered, listing.
  pose proof Hbelow as Hsolid. unfold solid_below, listing in Hsolid.
  destruct (fs_readdir path k) as [entries|msg].
  - rewrite classify_filter. cbn [app]. intros Hlines Hperm.
    destruct (render_own_level (buildTree k fuel) (tree_lines k fuel) path prefix
                (fun p pre ls Hb Hs => buildTree_lines fuel p pre false Hb Hs)
                _ (if isRoot then [path] else []) Hlines)
      as (printed & -> & Hsame).
    { intros entry indent inner Hin. apply Hsolid.
      eapply Permutation_in; [apply Permutation_sym, Hperm | exact Hin]. }
    f_equal. apply same_text_app; [apply same_text_refl | exact Hsame].
  - cbn. intros Heq _. injection Heq as <-. now rewrite app_nil_r.
Qed.

Lemma level_lines_total (below : jsstring -> jsstring -> option (list jsstring))
      (path prefix : jsstring) (entries : list jsstring) :
  (forall entry pre,
      In entry entries -> is_directory k (entry_path path entry) = true ->
      exists ls, below (entry_path path entry) pre = Some ls) ->
  exists lines, level_lines k below path prefix entries = Some lines.
Proof.
  induction entries as [|entry rest IH]; intros Hbelow; cbn [level_lines].
  - now exists [].
  - destruct IH as [after ->].
    { intros e pre Hin. apply Hbelow. now right. }
    cbv zeta. destruct (is_directory k (entry_path path entry)) eqn:Hd.
    + match goal with
      | |- context [below _ ?pre] =>
          destruct (Hbelow entry pre (or_introl eq_refl) Hd) as [inner ->]
      end.
      eexists. reflexivity.
    + eexists. reflexivity.
Qed.

(** With enough depth the rendering is defined: [buildTree] comes back
    on every tree that is finite. *)
Lemma tree_lines_total (n : nat) :
  forall path prefix, shallow k n path -> exists lines, tree_lines k n path prefix = Some lines.
Proof.
  induction n as [|n IH]; intros path prefix Hs; inversion Hs as [? ? Hsub]; subst.
  cbn [tree_lines]. apply level_lines_total.
  intros entry pre Hin Hd. apply IH, Hsub; [|exact Hd].
  eapply Permutation_in; [apply Permutation_sym, ordered_perm | exact Hin].
Qed.

End TreeRendering.

Section TreeOrder.

Context {K : Type} `{KernelClient K}.
Variable k : K.

Lemma sort_keeps (f : jsstring -> bool) (l : list jsstring) :
  forallb f l = true -> forallb f (sort l) = true.
Proof.
  intros Hl. apply forallb_forall. intros x Hin.
  apply (Permutation_in x (Permutation_sym (sort_perm l))) in Hin.
  revert x Hin. now apply forallb_forall.
Qed.

(** The children of a level: the directories in order, then the rest in
    order, and nothing lost or added. *)
Lemma ordered_groups (path : jsstring) :
  exists dirs files,
    ordered k path = dirs ++ files /\
    Sorted str_le dirs /\ Sorted str_le files /\
    forallb (fun entry => is_directory k (entry_path path entry)) dirs = true /\
    forallb (fun entry => negb (is_directory k (entry_path path entry))) files = true /\
    Permutation (listing k path) (dirs ++ files).
Proof.
  do 2 eexists. split; [reflexivity|].
  split; [apply sort_ordered|]. split; [apply sort_ordered|].
  split; [apply sort_keeps, filter_forallb|].
  split; [apply sort_keeps, filter_forallb|].
  apply ordered_perm.
Qed.

End TreeOrder.

(** Where [tree] prints what the specification says. The resolved root
    path is on the first line and under it are the lines of the tree: at
    each level the children that [stat] reports as directories, in order,
    then all others (a child whose [stat] fails among them), in order;
    each child on its own line behind the prefix and a connector, the last
    child behind the closing connector, a directory with a slash after
    its name and followed by the lines of its own level, whose prefix is
    extended by a bar and three spaces, or by four spaces under a last
    child; a directory that cannot be read has no lines, and the command
    succeeds all the same. This is what is printed whenever the lines
    under the subdirectories of the root are solid; the names of the
    first level can be any. *)
Lemma tree_renders_solid_subtrees :
  forall (K H : Type) (kc : KernelClient K) (hc : Host H)
         (fuel : nat) (args : list jsstring) (t : Terminal K H),
    let target := target_or_cwd (cwd t) args in
    (forall lines,
        tree_lines (remote t) (S fuel) target [] = Some lines ->
        solid_below (remote t) fuel target [] ->
        tree_handler (S fuel) args t = (Returned (ok (join [LF] (target :: lines))), t)) /\
    (forall path,
        exists dirs files,
          ordered (remote t) path = dirs ++ files /\
          Sorted str_le dirs /\ Sorted str_le files /\
          forallb (fun entry => is_directory (remote t) (entry_path path entry)) dirs = true /\
          forallb (fun entry => negb (is_directory (remote t) (entry_path path entry))) files
          = true /\
          Permutation (listing (remote t) path) (dirs ++ files)) /\
    (forall path prefix depth message,
        fs_readdir path (remote t) = Rejected message ->
        tree_lines (remote t) (S depth) path prefix = Some []) /\
    (forall path entry message,
        fs_stat (entry_path path entry) (remote t) = Rejected message ->
        is_directory (remote t) (entry_path path entry) = false).
Proof.
  intros K H kc hc fuel args t target. split; [|split; [|split]].
  - intros lines Hlines Hsolid. unfold tree_handler, bind, get_cwd. fold target.
    rewrite (@buildTree_own_level K kc (remote t) fuel target [] true lines Hlines Hsolid).
    reflexivity.
  - apply ordered_groups.
  - intros path prefix depth message Hread. cbn [tree_lines].
    unfold ordered, listing. rewrite Hread. reflexivity.
  - intros path entry message Hstat. unfold is_directory. now rewrite Hstat.
Qed.

(** C7. [tree] loses the empty lines of a name below the first level.
    After [mkdir /d], [mkdir /d/s] and an [echo] into the file of [/d/s]
    whose name is a, two line feeds, b, the lines of [/d] are those of
    the specification, and [tree /d] prints them without the empty line
    inside the name: the caller reads the lines of [/d/s] back from its
    text, split at line feeds, and drops what is empty. [tree /d/s], where
    the same file is on the first level, prints its name whole. *)
Theorem tree_drops_empty_lines_of_names :
  let t := exec_all 1 [ js "mkdir /d"; js "mkdir /d/s";
                        js "echo x > " ++ [DQUOTE] ++ js "/d/s/a\n\nb" ++ [DQUOTE] ]
             (MemFs.terminal [SLASH] []) in
  let name := js "a" ++ [LF; LF] ++ js "b" in
  let lines := [ LAST_BRANCH ++ js "s/"; BLANK_INDENT ++ LAST_BRANCH ++ name ] in
  fs_readdir (js "/d/s") (remote t) = Resolved [name] /\
  tree_lines (remote t) 3 (js "/d") [] = Some lines /\
  fst (tree_handler 3 [js "/d"] t)
  = Returned (ok (js "/d" ++ [LF] ++ LAST_BRANCH ++ js "s/" ++ [LF]
                  ++ BLANK_INDENT ++ LAST_BRANCH ++ js "a" ++ [LF] ++ js "b")) /\
  tree_handler 3 [js "/d"] t <> (Returned (ok (join [LF] (js "/d" :: lines))), t) /\
  tree_lines (remote t) 3 (js "/d/s") [] = Some [LAST_BRANCH ++ name] /\
  tree_handler 3 [js "/d/s"] t
  = (Returned (ok (join [LF] [js "/d/s"; LAST_BRANCH ++ name])), t).
Proof.
  intros t name lines. split; [|split; [|split; [|split; [|split]]]].
  - vm_compute. reflexivity.
  - vm_compute. reflexivity.
  - vm_compute. reflexivity.
  - vm_compute. discriminate.
  - vm_compute. reflexivity.
  - vm_compute. reflexivity.
Qed.

(** On a tree whose names hold no line feed the lines are solid, and
    [tree] prints the rendering of the specification. *)
Example tree_renders_plain_names :
  let fs := [ (js "/docs", MemFs.DirNode); (js "/docs/a.txt", MemFs.FileNode []);
              (js "/docs/x", MemFs.DirNode); (js "/docs/x/n.txt", MemFs.FileNode []);
              (js "/docs/b", MemFs.DirNode) ] in
  let t := MemFs.terminal [SLASH] fs in
  let lines := [ BRANCH ++ js "b/";
                 BRANCH ++ js "x/";
                 PIPE_INDENT ++ LAST_BRANCH ++ js "n.txt";
                 LAST_BRANCH ++ js "a.txt" ] in
  tree_handler 3 [js "docs"] t = (Returned (ok (join [LF] (js "/docs" :: lines))), t) /\
  tree_lines fs 1 (js "/docs/a.txt") BLANK_INDENT = Some [] /\
  is_directory fs (entry_path (js "/docs") (js "gone")) = false.
Proof.
  intros fs t lines.
  destruct (tree_renders_solid_subtrees MemFs.client MemFs.browser 2 [js "docs"] t)
    as (Hrender & _ & Hunreadable & Hleaf).
  split; [|split].
  - apply (Hrender lines); [reflexivity|].
    intros entry indent inner Hin _ [-> | ->];
      repeat (destruct Hin as [<- | Hin]; [vm_compute; now intros [= <-]|]);
      destruct Hin.
  - apply (Hunreadable (js "/docs/a.txt") BLANK_INDENT 0%nat
             (js "not a directory: /docs/a.txt")). reflexivity.
  - apply (Hleaf (js "/docs") (js "gone") (js "not found: /docs/gone")). reflexivity.
Qed.
(* ================================================================== *)
(** * Further properties *)

(** ** Dispatch *)

Section DispatchFacts.

Context {K H : Type} `{KernelClient K} `{Host H}.

Lemma handlers_get_forall (P : jsstring -> CommandHandler (K:=K) (H:=H) -> Prop)
      (table : list (jsstring * CommandHandler)) (cmd : jsstring) (handler : CommandHandler) :
  Forall (fun entry => P (fst entry) (snd entry)) table ->
  handlers_get table cmd = Some handler ->
  P cmd handler.
Proof.
  induction table as [|[name h] table IH]; simpl; [discriminate|].
  intros Hall Hget. inversion Hall as [|? ? Hh Hrest]; subst.
  destruct (str_eqb name cmd) eqn:E.
  - injection Hget as <-. apply str_eqb_eq in E. now subst.
  - now apply IH.
Qed.

Lemma handlers_get_none (table : list (jsstring * CommandHandler (K:=K) (H:=H)))
      (cmd : jsstring) :
  handlers_get table cmd = None <-> ~ In cmd (map fst table).
Proof.
  induction table as [|[name h] table IH]; simpl; [tauto|].
  destruct (str_eqb name cmd) eqn:E.
  - apply str_eqb_eq in E. split; [discriminate | tauto].
  - apply str_eqb_neq in E. rewrite IH. tauto.
Qed.

Lemma tokens_of_nonempty (s : jsstring) (cmd : jsstring) (args : list jsstring) :
  tokenize s = cmd :: args -> nonempty s = true.
Proof. destruct s; [discriminate | reflexivity]. Qed.

(** What [exec] comes to for a line that names a registered command, and
    for one that does not. *)
Lemma exec_dispatch (fuel : nat) (line cmd : jsstring) (args : list jsstring)
      (t : Terminal K H) :
  tokenize (trim line) = cmd :: args ->
  exec fuel line t
  = match handlers_get (handlers fuel) cmd with
    | Some handler =>
        try_catch (handler args) (fun message => ret (fail message))
          (snd (push_history (trim line) t))
    | None =>
        (Returned (fail (js "command not found: " ++ cmd)), snd (push_history (trim line) t))
    end.
Proof.
  intros Htok. unfold exec. rewrite (tokens_of_nonempty _ Htok). cbn [negb].
  unfold bind at 1. cbn [push_history fst snd]. rewrite Htok.
  destruct (handlers_get (handlers fuel) cmd); reflexivity.
Qed.

Lemma exec_no_command (fuel : nat) (line : jsstring) (t : Terminal K H) :
  tokenize (trim line) = [] ->
  fst (exec fuel line t) = Returned (ok []) /\
  cwd (snd (exec fuel line t)) = cwd t /\
  remote (snd (exec fuel line t)) = remote t /\
  host (snd (exec fuel line t)) = host t.
Proof.
  intros Htok. unfold exec. destruct (nonempty (trim line)); cbn [negb].
  - unfold bind at 1. cbn [push_history fst snd]. rewrite Htok. repeat split.
  - repeat split.
Qed.

End DispatchFacts.

(** Runs a handler through its monad: every [match] of the handler is
    decided, one case at a time. *)
Ltac unfold_monad :=
  unfold run_mutation, bind, try_catch, ret, query, mutate, host_call, host_do,
    get_cwd, set_cwd, of_reply, with_remote, with_host.

Ltac decide_matches :=
  repeat (cbn [fst snd];
          match goal with
          | |- context [match ?x with _ => _ end] =>
              lazymatch x with
              | context [match _ with _ => _ end] => fail
              | _ => destruct x eqn:?
              end
          end).

Ltac run_handler := intros; unfold_monad; decide_matches; cbn; auto.

Section HandlerFacts.

Context {K H : Type} `{KernelClient K} `{Host H}.

(** No handler but [cd] writes [cwd]. *)
Lemma handlers_keep_cwd (fuel : nat) :
  Forall (fun entry =>
            fst entry <> js "cd" ->
            forall args (t : Terminal K H), cwd (snd (snd entry args t)) = cwd t)
         (handlers (K:=K) (H:=H) fuel).
Proof.
  unfold handlers.
  repeat (apply Forall_cons; [cbn [fst snd]; intros Hname|]); try apply Forall_nil;
    try (exfalso; apply Hname; reflexivity).
  - unfold help_handler. run_handler.
  - unfold clear_handler. run_handler.
  - unfold reset_handler. run_handler.
  - unfold sudo_handler. run_handler.
  - unfold hello_handler. run_handler.
  - unfold pwd_handler. run_handler.
  - unfold open_handler. run_handler.
  - unfold edit_handler. run_handler.
  - unfold ls_handler. run_handler.
  - unfold tree_handler. run_handler.
  - unfold mkdir_handler. run_handler.
  - unfold cat_handler. run_handler.
  - unfold echo_handler. run_handler.
  - unfold rm_handler. run_handler.
  - unfold rmdir_handler. run_handler.
  - unfold mv_handler. run_handler.
  - unfold cp_handler. run_handler.
  - unfold stat_handler. run_handler.
Qed.

End HandlerFacts.

Section FootprintFacts.

Context {K H : Type} `{KernelClient K} `{Host H}.

Lemma shaped_ok (s : jsstring) : shaped (ok s).
Proof. left. split; reflexivity. Qed.

Lemma shaped_fail (s : jsstring) : shaped (fail s).
Proof. right. split; reflexivity. Qed.

(** A handler returns a result of one of the two shapes, or throws; only
    [tree] can need more fuel. *)
Lemma handlers_outcomes (fuel : nat) :
  Forall (fun entry =>
            forall args (t : Terminal K H),
              match fst (snd entry args t) with
              | Returned r => shaped r
              | Thrown _ => True
              | OutOfFuel => fst entry = js "tree"
              end)
         (handlers (K:=K) (H:=H) fuel).
Proof.
  unfold handlers.
  repeat (apply Forall_cons; [cbn [fst snd]|]); try apply Forall_nil.
  - unfold help_handler. run_handler. apply shaped_ok.
  - unfold clear_handler. run_handler. apply shaped_ok.
  - unfold reset_handler. run_handler. apply shaped_fail.
  - unfold sudo_handler. run_handler; solve [apply shaped_ok | apply shaped_fail].
  - unfold hello_handler. run_handler; solve [apply shaped_ok | apply shaped_fail].
  - unfold pwd_handler. run_handler. apply shaped_ok.
  - unfold open_handler. run_handler; solve [apply shaped_ok | apply shaped_fail].
  - unfold edit_handler. run_handler; solve [apply shaped_ok | apply shaped_fail].
  - unfold cd_handler. run_handler; solve [apply shaped_ok | apply shaped_fail].
  - unfold ls_handler. run_handler; solve [apply shaped_ok | apply shaped_fail].
  - unfold tree_handler. run_handler. apply shaped_ok.
  - unfold mkdir_handler. run_handler; solve [apply shaped_ok | apply shaped_fail].
  - unfold cat_handler. run_handler; solve [apply shaped_ok | apply shaped_fail].
  - unfold echo_handler. run_handler; solve [apply shaped_ok | apply shaped_fail].
  - unfold rm_handler. run_handler; solve [apply shaped_ok | apply shaped_fail].
  - unfold rmdir_handler. run_handler; solve [apply shaped_ok | apply shaped_fail].
  - unfold mv_handler. run_handler; solve [apply shaped_ok | apply shaped_fail].
  - unfold cp_handler. run_handler; solve [apply shaped_ok | apply shaped_fail].
  - unfold stat_handler. run_handler; solve [apply shaped_ok | apply shaped_fail].
Qed.

(** Only the commands of [mutating_commands] reach a mutation of the
    kernel. *)
Lemma handlers_keep_remote (fuel : nat) :
  Forall (fun entry =>
            existsb (str_eqb (fst entry)) mutating_commands = false ->
            forall args (t : Terminal K H), remote (snd (snd entry args t)) = remote t)
         (handlers (K:=K) (H:=H) fuel).
Proof.
  unfold handlers.
  repeat (apply Forall_cons; [cbn [fst snd]; intros Hname|]); try apply Forall_nil;
    try discriminate Hname.
  - unfold help_handler. run_handler.
  - unfold clear_handler. run_handler.
  - unfold reset_handler. run_handler.
  - unfold sudo_handler. run_handler.
  - unfold hello_handler. run_handler.
  - unfold pwd_handler. run_handler.
  - unfold open_handler. run_handler.
  - unfold cd_handler. run_handler.
  - unfold ls_handler. run_handler.
  - unfold tree_handler. run_handler.
  - unfold cat_handler. run_handler.
  - unfold stat_handler. run_handler.
Qed.

(** Only the commands of [host_commands] reach for the browser. *)
Lemma handlers_keep_host (fuel : nat) :
  Forall (fun entry =>
            existsb (str_eqb (fst entry)) host_commands = false ->
            forall args (t : Terminal K H), host (snd (snd entry args t)) = host t)
         (handlers (K:=K) (H:=H) fuel).
Proof.
  unfold handlers.
  repeat (apply Forall_cons; [cbn [fst snd]; intros Hname|]); try apply Forall_nil;
    try discriminate Hname.
  - unfold help_handler. run_handler.
  - unfold clear_handler. run_handler.
  - unfold reset_handler. run_handler.
  - unfold hello_handler. run_handler.
  - unfold pwd_handler. run_handler.
  - unfold cd_handler. run_handler.
  - unfold ls_handler. run_handler.
  - unfold tree_handler. run_handler.
  - unfold mkdir_handler. run_handler.
  - unfold cat_handler. run_handler.
  - unfold echo_handler. run_handler.
  - unfold rm_handler. run_handler.
  - unfold rmdir_handler. run_handler.
  - unfold mv_handler. run_handler.
  - unfold cp_handler. run_handler.
  - unfold stat_handler. run_handler.
Qed.

Lemma try_catch_ret_state {A} (m : M (K:=K) (H:=H) A) (f : jsstring -> A) (t : Terminal K H) :
  snd (try_catch m (fun message => ret (f message)) t) = snd (m t).
Proof. unfold try_catch, ret. destruct (m t) as [[a|msg|] t']; reflexivity. Qed.

(** A part of the terminal that [exec] leaves alone, when the history
    push does and every handler outside [names] does. *)
Lemma exec_keeps {X : Type} (proj : Terminal K H -> X) (names : list jsstring) (fuel : nat) :
  (forall line t, proj (snd (push_history line t)) = proj t) ->
  Forall (fun entry =>
            existsb (str_eqb (fst entry)) names = false ->
            forall args (t : Terminal K H), proj (snd (snd entry args t)) = proj t)
         (handlers (K:=K) (H:=H) fuel) ->
  forall line t,
    is_one_of (command_of line) names = false ->
    proj (snd (exec fuel line t)) = proj t.
Proof.
  intros Hpush Htable line t Hcmd. unfold command_of in Hcmd.
  destruct (tokenize (trim line)) as [|cmd args] eqn:Htok.
  - unfold exec. destruct (nonempty (trim line)); cbn [negb]; [|reflexivity].
    unfold bind at 1. cbn [push_history fst snd]. rewrite Htok. apply Hpush.
  - rewrite (exec_dispatch fuel line t Htok). cbn [is_one_of] in Hcmd.
    destruct (handlers_get (handlers fuel) cmd) as [handler|] eqn:Hget.
    + rewrite try_catch_ret_state.
      rewrite (handlers_get_forall
                 (fun name h => existsb (str_eqb name) names = false ->
                                forall args t, proj (snd (h args t)) = proj t)
                 cmd Htable Hget Hcmd).
      apply Hpush.
    + apply Hpush.
Qed.

End FootprintFacts.

(** X1. No exception leaves [exec], and what it returns has one of two
    shapes: code 0 with an empty stderr, or code 1 with an empty stdout.
    The model can run out of fuel on the [tree] command only. *)
Theorem exec_returns_shaped_result :
  forall (K H : Type) (kc : KernelClient K) (hc : Host H)
         (fuel : nat) (line : jsstring) (t : Terminal K H),
    (exists r, fst (exec fuel line t) = Returned r /\ shaped r) \/
    (fst (exec fuel line t) = OutOfFuel /\ command_of line = Some (js "tree")).
Proof.
  intros K H kc hc fuel line t. unfold command_of.
  destruct (tokenize (trim line)) as [|cmd args] eqn:Htok.
  - left. exists (ok []). split; [apply (exec_no_command fuel line t Htok) | apply shaped_ok].
  - rewrite (exec_dispatch fuel line t Htok).
    destruct (handlers_get (handlers fuel) cmd) as [handler|] eqn:Hget.
    + pose proof (handlers_get_forall
                    (fun name h =>
                       forall args t,
                         match fst (h args t) with
                         | Returned r => shaped r
                         | Thrown _ => True
                         | OutOfFuel => name = js "tree"
                         end)
                    cmd (handlers_outcomes fuel) Hget args
                    (snd (push_history (trim line) t))) as Hout.
      unfold try_catch.
      destruct (handler args (snd (push_history (trim line) t))) as [[r|msg|] t'];
        cbn [fst] in *.
      * left. now exists r.
      * left. exists (fail msg). split; [reflexivity | apply shaped_fail].
      * right. split; [reflexivity | now subst].
    + left. eexists. split; [reflexivity | apply shaped_fail].
Qed.

(** X2. A line whose first token is not a registered command fails with
    [command not found: <token>]; it enters the history and nothing else
    of the terminal, the filesystem or the browser changes. *)
Theorem exec_unknown_command :
  forall (K H : Type) (kc : KernelClient K) (hc : Host H)
         (fuel : nat) (line cmd : jsstring) (args : list jsstring) (t : Terminal K H),
    tokenize (trim line) = cmd :: args ->
    existsb (str_eqb cmd) command_names = false ->
    exec fuel line t
    = (Returned (fail (js "command not found: " ++ cmd)),
       {| cwd := cwd t; promptStr := promptStr t; clearScreenCode := clearScreenCode t;
          history := history t ++ [trim line]; remote := remote t; host := host t |}).
Proof.
  intros K H kc hc fuel line cmd args t Htok Hnot.
  rewrite (exec_dispatch fuel line t Htok).
  assert (Hget : handlers_get (handlers fuel) cmd = None).
  { apply handlers_get_none. intros Hin.
    assert (Hex : existsb (str_eqb cmd) command_names = true).
    { apply existsb_exists. exists cmd. split; [exact Hin | apply str_eqb_refl]. }
    congruence. }
  now rewrite Hget.
Qed.

Lemma exec_unknown_command_witness :
  exec 1 (js " Ls  -l ") (MemFs.terminal [SLASH] [])
  = (Returned (fail (js "command not found: Ls")),
     {| cwd := [SLASH]; promptStr := js "user"; clearScreenCode := [27; 99];
        history := [js "Ls  -l"]; remote := []; host := [] |}).
Proof.
  apply (exec_unknown_command MemFs.client MemFs.browser 1 (js " Ls  -l ")
           (cmd := js "Ls") (args := [js "-l"]) (MemFs.terminal [SLASH] []));
    reflexivity.
Defined.

Section CwdFacts.

Context {K H : Type} `{KernelClient K} `{Host H}.

Lemma exec_keeps_cwd (fuel : nat) (line : jsstring) (t : Terminal K H) :
  command_of line <> Some (js "cd") ->
  cwd (snd (exec fuel line t)) = cwd t.
Proof.
  intros Hcmd.
  apply (@exec_keeps K H _ _ _ (@cwd K H) [js "cd"] fuel).
  - reflexivity.
  - eapply Forall_impl; [|apply handlers_keep_cwd].
    intros [name h] Hkeep Hname. apply Hkeep. cbn [fst existsb] in *.
    intros ->. discriminate.
  - destruct (command_of line) as [c|]; [|reflexivity]. cbn [is_one_of existsb].
    destruct (str_eqb c (js "cd")) eqn:E; [|reflexivity].
    apply str_eqb_eq in E. congruence.
Qed.

(** [cd] leaves [cwd] alone or sets it to a normalized path. *)
Lemma cd_handler_cwd (args : list jsstring) (t : Terminal K H) :
  cwd (snd (cd_handler args t)) = cwd t \/
  exists p, cwd (snd (cd_handler args t)) = normalizePath p.
Proof.
  unfold cd_handler. unfold_monad.
  destruct (fs_stat _ (remote t)) as [stat|msg]; cbn [fst snd].
  - destruct (is_dir stat); cbn; [right; eexists; reflexivity | now left].
  - now left.
Qed.

Lemma exec_keeps_normalized (fuel : nat) (line : jsstring) (t : Terminal K H) :
  normalized (cwd t) -> normalized (cwd (snd (exec fuel line t))).
Proof.
  intros Hn. destruct (command_of line) as [c|] eqn:Hc.
  - destruct (str_eqb c (js "cd")) eqn:E.
    + apply str_eqb_eq in E. subst c. unfold command_of in Hc.
      destruct (tokenize (trim line)) as [|cmd args] eqn:Htok; [discriminate|].
      injection Hc as ->. rewrite (exec_dispatch fuel line t Htok).
      change (handlers_get (handlers fuel) (js "cd")) with (Some (cd_handler (K:=K) (H:=H))).
      cbv beta iota.
      rewrite try_catch_ret_state.
      destruct (cd_handler_cwd args (snd (push_history (trim line) t))) as [-> | [p ->]].
      * exact Hn.
      * apply normalizePath_idempotent.
    + rewrite exec_keeps_cwd; [exact Hn|]. rewrite Hc. intros Heq. injection Heq as ->.
      now rewrite str_eqb_refl in E.
  - rewrite exec_keeps_cwd; [exact Hn|]. rewrite Hc. discriminate.
Qed.

End CwdFacts.

(** X3. [cwd] changes through [cd] alone: after any line whose command is
    not [cd] it is what it was. *)
Theorem cwd_changes_only_by_cd :
  forall (K H : Type) (kc : KernelClient K) (hc : Host H)
         (fuel : nat) (line : jsstring) (t : Terminal K H),
    command_of line <> Some (js "cd") ->
    cwd (snd (exec fuel line t)) = cwd t.
Proof. intros K H kc hc. exact (@exec_keeps_cwd K H kc hc). Qed.

Lemma cwd_changes_only_by_cd_witness :
  cwd (snd (exec 1 (js "mkdir /docs") (MemFs.terminal (js "/home") []))) = js "/home".
Proof.
  apply (cwd_changes_only_by_cd MemFs.client MemFs.browser 1 (js "mkdir /docs")
           (MemFs.terminal (js "/home") [])).
  vm_compute. discriminate.
Defined.

(** X4. The filesystem changes only through [mkdir], [echo], [rm],
    [rmdir], [mv], [cp] and [edit], and the browser (the viewer and editor
    hooks, the database, the reload) is reached only by [open], [edit] and
    [sudo]: after any other line they are what they were. *)
Theorem exec_footprint :
  forall (K H : Type) (kc : KernelClient K) (hc : Host H)
         (fuel : nat) (line : jsstring) (t : Terminal K H),
    (is_one_of (command_of line) mutating_commands = false ->
     remote (snd (exec fuel line t)) = remote t) /\
    (is_one_of (command_of line) host_commands = false ->
     host (snd (exec fuel line t)) = host t).
Proof.
  intros K H kc hc fuel line t. split.
  - apply (@exec_keeps K H kc hc _ (@remote K H) mutating_commands fuel);
      [reflexivity | apply handlers_keep_remote].
  - apply (@exec_keeps K H kc hc _ (@host K H) host_commands fuel);
      [reflexivity | apply handlers_keep_host].
Qed.

Lemma exec_footprint_witness :
  let fs := [(js "/docs", MemFs.DirNode); (js "/docs/a.txt", MemFs.FileNode [])] in
  remote (snd (exec 3 (js "cat /docs/a.txt") (MemFs.terminal [SLASH] fs))) = fs /\
  host (snd (exec 3 (js "rm /docs/a.txt") (MemFs.terminal [SLASH] fs))) = [].
Proof.
  intros fs. split.
  - apply (exec_footprint MemFs.client MemFs.browser 3 (js "cat /docs/a.txt")
             (MemFs.terminal [SLASH] fs)). reflexivity.
  - apply (exec_footprint MemFs.client MemFs.browser 3 (js "rm /docs/a.txt")
             (MemFs.terminal [SLASH] fs)). reflexivity.
Defined.

(** X5. The constructor normalizes the working directory it is given (or
    the default root), and every [exec] keeps it normalized: throughout a
    session [cwd] is a path that [normalizePath] leaves as it is, so it is
    absolute and free of empty, [.] and [..] segments. *)
Theorem cwd_stays_normalized :
  forall (K H : Type) (kc : KernelClient K) (hc : Host H)
         (d : TerminalDefaults) (kernel : K) (h : H) (opts : TerminalOptions)
         (fuel : nat) (lines : list jsstring),
    normalized (cwd (exec_all fuel lines (new_Terminal d kernel h opts))) /\
    exists stack,
      cwd (exec_all fuel lines (new_Terminal d kernel h opts)) = SLASH :: join [SLASH] stack /\
      forallb kept stack = true.
Proof.
  intros K H kc hc d kernel h opts fuel lines.
  assert (Hn : normalized (cwd (exec_all fuel lines (new_Terminal d kernel h opts)))).
  { assert (H0 : normalized (cwd (new_Terminal d kernel h opts)))
      by apply normalizePath_idempotent.
    revert H0. generalize (new_Terminal d kernel h opts).
    induction lines as [|line lines IH]; intros t Ht; cbn [exec_all]; [exact Ht|].
    apply IH. now apply exec_keeps_normalized. }
  split; [exact Hn|].
  exists (stack_of (cwd (exec_all fuel lines (new_Terminal d kernel h opts)))).
  split; [symmetry; exact Hn | apply normalizePath_stack_kept].
Qed.

(** ** sudo *)

(** X6. [sudo] clears the database only when its first argument is
    [reset] and [--confirm] is among its arguments; otherwise it fails and
    touches nothing. When it does clear, the page is reloaded only after
    the clearing has succeeded; a failed clearing is reported as
    [Failed to reset: <message>] and nothing is reloaded. *)
Theorem sudo_reset_gate :
  forall (K H : Type) (kc : KernelClient K) (hc : Host H)
         (args : list jsstring) (t : Terminal K H),
    (hd_error args <> Some (js "reset") \/ includes (js "--confirm") args = false ->
     snd (sudo_handler args t) = t /\
     exists message, fst (sudo_handler args t) = Returned (fail message)) /\
    (hd_error args = Some (js "reset") -> includes (js "--confirm") args = true ->
     sudo_handler args t
     = match clearDatabase (host t) with
       | (Resolved _, h) =>
           (Returned (ok (js "Resetting filesystem...")), with_host t (reload h))
       | (Rejected message, h) =>
           (Returned (fail (js "Failed to reset: " ++ message)), with_host t h)
       end).
Proof.
  intros K H kc hc args t. split.
  - intros Hgate. unfold sudo_handler.
    destruct args as [|sub rest]; [split; [reflexivity | eexists; reflexivity]|].
    destruct (str_eqb sub (js "reset")) eqn:Esub.
    + apply str_eqb_eq in Esub. subst sub.
      destruct Hgate as [Hhd|Hconfirm]; [exfalso; apply Hhd; reflexivity|].
      rewrite Hconfirm. cbn [negb]. split; [reflexivity | eexists; reflexivity].
    + split; [reflexivity | eexists; reflexivity].
  - intros Hhd Hconfirm. unfold sudo_handler.
    destruct args as [|sub rest]; [discriminate|]. injection Hhd as ->.
    rewrite str_eqb_refl, Hconfirm. cbn [negb]. unfold_monad.
    destruct (clearDatabase (host t)) as [[u|message] h]; reflexivity.
Qed.

Lemma sudo_reset_gate_witness :
  let t := MemFs.terminal [SLASH] [(js "/docs", MemFs.DirNode)] in
  (snd (sudo_handler [js "reset"] t) = t /\
   exists message, fst (sudo_handler [js "reset"] t) = Returned (fail message)) /\
  (snd (sudo_handler [js "rm"; js "--confirm"] t) = t /\
   exists message, fst (sudo_handler [js "rm"; js "--confirm"] t) = Returned (fail message)) /\
  sudo_handler [js "reset"; js "--confirm"] t
  = (Returned (ok (js "Resetting filesystem...")),
     with_host t [MemFs.DatabaseCleared; MemFs.Reloaded]).
Proof.
  intros t. split; [|split].
  - apply (sudo_reset_gate MemFs.client MemFs.browser [js "reset"] t).
    right. reflexivity.
  - apply (sudo_reset_gate MemFs.client MemFs.browser [js "rm"; js "--confirm"] t).
    left. vm_compute. discriminate.
  - apply (sudo_reset_gate MemFs.client MemFs.browser [js "reset"; js "--confirm"] t);
      reflexivity.
Defined.

(** ** echo and cat *)

Lemma indexOf_after (x : jsstring) (before rest : list jsstring) :
  forallb (fun w => negb (str_eqb w x)) before = true ->
  indexOf x (before ++ x :: rest) = Z.of_nat (List.length before).
Proof.
  induction before as [|w before IH]; intros Hb.
  - cbn. now rewrite str_eqb_refl.
  - cbn [forallb] in Hb. apply andb_true_iff in Hb as [Hw Hb].
    apply negb_true_iff in Hw. cbn [app indexOf]. rewrite Hw, (IH Hb).
    change (List.length (w :: before)) with (S (List.length before)).
    destruct (Z.of_nat (List.length before)) eqn:E; lia.
Qed.

(** X7. What [echo] writes, [cat] reads back. When no word before [>] is
    itself [>], [echo words > file] writes the words joined by single
    spaces to the resolved file, whatever follows the file name; and if
    the kernel then returns the bytes written and decoding undoes
    encoding, [cat file] prints that text. *)
Theorem echo_then_cat :
  forall (K H : Type) (kc : KernelClient K) (hc : Host H)
         (words : list jsstring) (file : jsstring) (extra : list jsstring)
         (t : Terminal K H) (k' : K),
    let path := normalizePath (resolvePath (cwd t) file) in
    let text := join [SPACE] words in
    forallb (fun w => negb (str_eqb w [GT])) words = true ->
    fs_write_file path (encode text) (remote t) = (Resolved tt, k') ->
    fs_read_file path k' = Resolved (encode text) ->
    decode (encode text) = text ->
    echo_handler (words ++ [GT] :: file :: extra) t = (Returned (ok []), with_remote t k') /\
    cat_handler [file] (with_remote t k') = (Returned (ok text), with_remote t k').
Proof.
  intros K H kc hc words file extra t k' path text Hwords Hwrite Hread Hcodec.
  split.
  - rewrite (echo_redirect (words ++ [GT] :: file :: extra) (List.length words) (file := file)).
    + rewrite firstn_app, Nat.sub_diag, firstn_all. cbn [firstn]. rewrite app_nil_r.
      unfold_monad. fold path text. rewrite Hwrite. reflexivity.
    + now apply indexOf_after.
    + rewrite nth_error_app2 by lia.
      replace (S (List.length words) - List.length words)%nat with 1%nat by lia.
      reflexivity.
  - unfold cat_handler. unfold_monad. cbn [cwd remote]. fold path.
    rewrite Hread. cbn. now rewrite Hcodec.
Qed.

Lemma echo_then_cat_witness :
  let t := MemFs.terminal (js "/docs") [(js "/docs", MemFs.DirNode)] in
  let k' := [(js "/docs", MemFs.DirNode);
             (js "/docs/a.txt", MemFs.FileNode (encode (js "hello big world")))] in
  echo_handler ([js "hello"; js "big"; js "world"] ++ [GT] :: js "a.txt" :: [js "more"]) t
  = (Returned (ok []), with_remote t k') /\
  cat_handler [js "a.txt"] (with_remote t k')
  = (Returned (ok (js "hello big world")), with_remote t k').
Proof.
  intros t k'.
  apply (echo_then_cat MemFs.client MemFs.browser [js "hello"; js "big"; js "world"]
           (js "a.txt") [js "more"] t (k' := k')); reflexivity.
Defined.

(** ** edit *)

(** X8. [edit] on a directory fails and opens nothing; on an existing file
    it opens the editor and writes nothing; on a path whose [stat] fails it
    first creates an empty file there and then opens the editor; and when
    that creation is refused the handler throws the kernel's message
    without opening the editor, which [exec] turns into a failure. *)
Theorem edit_creates_missing_file :
  forall (K H : Type) (kc : KernelClient K) (hc : Host H)
         (arg : jsstring) (rest : list jsstring) (t : Terminal K H),
    let filePath := normalizePath (resolvePath (cwd t) arg) in
    let editing := ok (js "Editing " ++ filePath ++ js "...") in
    (forall stat,
        fs_stat filePath (remote t) = Resolved stat -> is_dir stat = true ->
        edit_handler (arg :: rest) t
        = (Returned (fail (filePath ++ js " is a directory, not a file")), t)) /\
    (forall stat,
        fs_stat filePath (remote t) = Resolved stat -> is_dir stat = false ->
        edit_handler (arg :: rest) t
        = (Returned editing, with_host t (openEditor filePath (host t)))) /\
    (forall message k',
        fs_stat filePath (remote t) = Rejected message ->
        fs_write_file filePath (encode []) (remote t) = (Resolved tt, k') ->
        edit_handler (arg :: rest) t
        = (Returned editing,
           with_host (with_remote t k') (openEditor filePath (host t)))) /\
    (forall message refusal k',
        fs_stat filePath (remote t) = Rejected message ->
        fs_write_file filePath (encode []) (remote t) = (Rejected refusal, k') ->
        edit_handler (arg :: rest) t = (Thrown refusal, with_remote t k') /\
        try_catch (edit_handler (arg :: rest)) (fun m => ret (fail m)) t
        = (Returned (fail refusal), with_remote t k')).
Proof.
  intros K H kc hc arg rest t filePath editing.
  unfold edit_handler, try_catch at 1. unfold_monad. fold filePath.
  split; [|split; [|split]].
  - intros stat Hstat Hdir. rewrite Hstat. cbn. rewrite Hdir. reflexivity.
  - intros stat Hstat Hdir. rewrite Hstat. cbn. rewrite Hdir. reflexivity.
  - intros message k' Hstat Hwrite. rewrite Hstat. cbn. rewrite Hwrite. reflexivity.
  - intros message refusal k' Hstat Hwrite. rewrite Hstat. cbn. rewrite Hwrite.
    split; reflexivity.
Qed.

Lemma edit_creates_missing_file_witness :
  let fs := [(js "/docs", MemFs.DirNode); (js "/docs/a.txt", MemFs.FileNode [])] in
  let t := MemFs.terminal (js "/docs") fs in
  edit_handler [js "."] t
  = (Returned (fail (js "/docs is a directory, not a file")), t) /\
  edit_handler [js "a.txt"] t
  = (Returned (ok (js "Editing /docs/a.txt...")),
     with_host t [MemFs.EditorOpened (js "/docs/a.txt")]) /\
  edit_handler [js "new.txt"] t
  = (Returned (ok (js "Editing /docs/new.txt...")),
     with_host (with_remote t (fs ++ [(js "/docs/new.txt", MemFs.FileNode [])]))
       [MemFs.EditorOpened (js "/docs/new.txt")]) /\
  edit_handler [js "/nowhere/new.txt"] t
  = (Thrown (js "parent not found: /nowhere/new.txt"), with_remote t fs).
Proof.
  intros fs t. split; [|split; [|split]].
  - apply (edit_creates_missing_file MemFs.client MemFs.browser (js ".") [] t)
      with (stat := {| is_dir := true; is_file := false; size := 0 |}); reflexivity.
  - apply (edit_creates_missing_file MemFs.client MemFs.browser (js "a.txt") [] t)
      with (stat := {| is_dir := false; is_file := true; size := 0 |}); reflexivity.
  - apply (edit_creates_missing_file MemFs.client MemFs.browser (js "new.txt") [] t)
      with (message := js "not found: /docs/new.txt"); reflexivity.
  - apply (edit_creates_missing_file MemFs.client MemFs.browser (js "/nowhere/new.txt") [] t)
      with (message := js "not found: /nowhere/new.txt"); reflexivity.
Defined.

(** ** tokenize and join *)

Lemma scan_words (words : list jsstring) (out : list jsstring) :
  forallb bare_word words = true ->
  scan none [] out (join [SPACE] words) = out ++ words.
Proof.
  revert out. induction words as [|w words IH]; intros out Hw.
  - cbn. unfold flush. cbn. now rewrite app_nil_r.
  - cbn [forallb] in Hw. apply andb_true_iff in Hw as [Hword Hw].
    unfold bare_word in Hword. apply andb_true_iff in Hword as [Hne Hplain].
    destruct words as [|w' words'].
    + cbn [join]. rewrite <- (app_nil_r w) at 1.
      rewrite scan_none_word by exact Hplain. cbn [app scan]. unfold flush. now rewrite Hne.
    + change (join [SPACE] (w :: w' :: words')) with (w ++ SPACE :: join [SPACE] (w' :: words')).
      rewrite scan_none_word by exact Hplain. cbn [app].
      rewrite scan_none_space by reflexivity.
      unfold flush at 1. rewrite Hne. rewrite (IH _ Hw). now rewrite <- app_assoc.
Qed.

(** X9. Joining words with single spaces and tokenizing the line gives the
    words back, when every word is non-empty and free of white space and
    quotes (a backslash is an ordinary character outside quotes). *)
Theorem tokenize_join_words :
  forall words : list jsstring,
    forallb bare_word words = true ->
    tokenize (join [SPACE] words) = words.
Proof. intros words Hw. unfold tokenize. now rewrite scan_words. Qed.

Lemma tokenize_join_words_witness :
  tokenize (join [SPACE] [js "mv"; js "a\b"; js "/docs/c.txt"])
  = [js "mv"; js "a\b"; js "/docs/c.txt"].
Proof. apply tokenize_join_words. reflexivity. Defined.

(** ** How path resolution composes *)

Lemma segments_app (a b : jsstring) :
  segments (a ++ SLASH :: b) = segments a ++ segments b.
Proof. unfold segments. now rewrite split_on_sep_app, filter_app. Qed.

Lemma dropWhile_split {A} (f : A -> bool) (l : list A) :
  exists pre, l = pre ++ dropWhile f l /\ forallb f pre = true.
Proof.
  induction l as [|x l IH]; [now exists []|]. cbn [dropWhile].
  destruct (f x) eqn:E.
  - destruct IH as (pre & Hl & Hpre). exists (x :: pre). split.
    + cbn. now rewrite <- Hl.
    + cbn. now rewrite E.
  - now exists [].
Qed.

Lemma forallb_rev {A} (f : A -> bool) (l : list A) :
  forallb f l = true -> forallb f (rev l) = true.
Proof.
  intros Hl. apply forallb_forall. intros x Hin. apply in_rev in Hin.
  revert x Hin. now apply forallb_forall.
Qed.

Lemma dropWhileEnd_split {A} (f : A -> bool) (l : list A) :
  exists tail, l = dropWhileEnd f l ++ tail /\ forallb f tail = true.
Proof.
  unfold dropWhileEnd. destruct (dropWhile_split f (rev l)) as (pre & Hl & Hpre).
  exists (rev pre). split; [|now apply forallb_rev].
  rewrite <- rev_app_distr, <- Hl. now rewrite rev_involutive.
Qed.

Lemma segments_slashes (tail : jsstring) :
  forallb (fun c => c =? SLASH) tail = true -> segments tail = [].
Proof.
  induction tail as [|c tail IH]; [reflexivity|]. cbn [forallb].
  intros Ht. apply andb_true_iff in Ht as [Hc Ht]. apply N.eqb_eq in Hc. subst c.
  change (SLASH :: tail) with ([] ++ SLASH :: tail). rewrite segments_app.
  now rewrite IH.
Qed.

Lemma segments_trailing_slashes (a tail : jsstring) :
  forallb (fun c => c =? SLASH) tail = true -> segments (a ++ tail) = segments a.
Proof.
  destruct tail as [|c tail]; [now rewrite app_nil_r|]. cbn [forallb].
  intros Ht. apply andb_true_iff in Ht as [Hc Ht]. apply N.eqb_eq in Hc. subst c.
  rewrite segments_app, (segments_slashes tail Ht). now rewrite app_nil_r.
Qed.

(** Stripping the trailing slashes of a path keeps its segments. *)
Lemma segments_strip (s : jsstring) : segments (strip_trailing_slashes s) = segments s.
Proof.
  destruct (dropWhileEnd_split (fun c => c =? SLASH) s) as (tail & Hs & Htail).
  unfold strip_trailing_slashes. rewrite Hs at 2.
  now rewrite segments_trailing_slashes.
Qed.

Lemma normalizePath_segments (a b : jsstring) :
  fold_left normalize_step (segments a) [] = fold_left normalize_step (segments b) [] ->
  normalizePath a = normalizePath b.
Proof. intros Heq. unfold normalizePath. fold (segments a) (segments b). now rewrite Heq. Qed.

Lemma kept_nonempty (stack : list jsstring) :
  forallb kept stack = true -> forallb nonempty stack = true.
Proof.
  apply forallb_weaken. intros x Hx. unfold kept in Hx.
  apply andb_true_iff in Hx as [Hx _]. apply andb_true_iff in Hx as [Hx _].
  apply andb_true_iff in Hx as [Hx _]. exact Hx.
Qed.

Lemma kept_free_of_slash (stack : list jsstring) :
  forallb kept stack = true -> forallb (free_of SLASH) stack = true.
Proof.
  apply forallb_weaken. intros x Hx. unfold kept in Hx.
  apply andb_true_iff in Hx as [Hx _]. apply andb_true_iff in Hx as [Hx _].
  apply andb_true_iff in Hx as [_ Hx]. exact Hx.
Qed.

Lemma stack_of_joined (stack : list jsstring) :
  forallb kept stack = true -> stack_of (SLASH :: join [SLASH] stack) = stack.
Proof.
  intros Hk. unfold stack_of. cbn [split_on]. rewrite N.eqb_refl. cbn [filter nonempty].
  rewrite lines_of_join by (apply kept_nonempty || apply kept_free_of_slash; exact Hk).
  now rewrite fold_normalize_kept.
Qed.

(** The stack of a normalized path is the stack of the path. *)
Lemma stack_of_normalizePath (a : jsstring) : stack_of (normalizePath a) = stack_of a.
Proof. apply stack_of_joined, normalizePath_stack_kept. Qed.

Lemma stack_of_app (a b : jsstring) :
  stack_of (a ++ SLASH :: b) = fold_left normalize_step (segments b) (stack_of a).
Proof. unfold stack_of. fold (segments (a ++ SLASH :: b)). now rewrite segments_app, fold_left_app. Qed.

Lemma stack_of_strip (a : jsstring) : stack_of (strip_trailing_slashes a) = stack_of a.
Proof. unfold stack_of. fold (segments (strip_trailing_slashes a)). now rewrite segments_strip. Qed.

(** The stack after resolving [p] against [cwd]: a relative [p] continues
    from the stack of [cwd]. *)
Lemma stack_of_resolve_relative (cwd p : jsstring) :
  relative p = true ->
  stack_of (resolvePath cwd p) = fold_left normalize_step (segments p) (stack_of cwd).
Proof.
  intros Hrel. unfold relative in Hrel. apply negb_true_iff in Hrel.
  unfold resolvePath. destruct (nonempty p) eqn:Hne; cbn [negb orb].
  - destruct (str_eqb p [DOT]) eqn:Hdot.
    + apply str_eqb_eq in Hdot. subst p. reflexivity.
    + rewrite Hrel. cbn [app]. now rewrite stack_of_app, stack_of_strip.
  - destruct p; [reflexivity | discriminate].
Qed.

Lemma normalizePath_stack_eq (a b : jsstring) :
  stack_of a = stack_of b -> normalizePath a = normalizePath b.
Proof.
  intros Heq. change (SLASH :: join [SLASH] (stack_of a) = SLASH :: join [SLASH] (stack_of b)).
  now rewrite Heq.
Qed.

(** X10. Resolving one relative path after another is resolving them
    joined by a slash: [cd a] followed by [cd b] arrives where [cd a/b]
    does, for a non-empty relative [a] and a relative [b]. *)
Theorem resolve_composes :
  forall cwd a b : jsstring,
    nonempty a = true -> relative a = true -> relative b = true ->
    normalizePath (resolvePath (normalizePath (resolvePath cwd a)) b)
    = normalizePath (resolvePath cwd (a ++ SLASH :: b)).
Proof.
  intros cwd a b Hne Ha Hb. apply normalizePath_stack_eq.
  rewrite (stack_of_resolve_relative _ b Hb), stack_of_normalizePath.
  rewrite (stack_of_resolve_relative cwd a Ha).
  assert (Hab : relative (a ++ SLASH :: b) = true).
  { destruct a; [discriminate | exact Ha]. }
  rewrite (stack_of_resolve_relative cwd (a ++ SLASH :: b) Hab).
  now rewrite segments_app, fold_left_app.
Qed.

Lemma resolve_composes_witness :
  normalizePath (resolvePath (normalizePath (resolvePath (js "/home/u") (js "../docs"))) (js "./x/.."))
  = normalizePath (resolvePath (js "/home/u") (js "../docs" ++ SLASH :: js "./x/..")).
Proof. apply resolve_composes; reflexivity. Defined.

(** X11. Going into a directory and back up returns to where one was: for
    a normalized [cwd] and a name that is a single proper segment,
    resolving the name and then [..] gives [cwd] again. *)
Theorem resolve_name_then_dotdot :
  forall cwd name : jsstring,
    normalized cwd -> kept name = true ->
    normalizePath (resolvePath (normalizePath (resolvePath cwd name)) [DOT; DOT]) = cwd.
Proof.
  intros cwd name Hn Hk.
  assert (Hname : nonempty name = true /\ free_of SLASH name = true
                  /\ name <> [DOT] /\ name <> [DOT; DOT]).
  { unfold kept in Hk. apply andb_true_iff in Hk as [Hk H4].
    apply andb_true_iff in Hk as [Hk H3]. apply andb_true_iff in Hk as [H1 H2].
    apply negb_true_iff in H3, H4. repeat split; try assumption;
      now apply str_eqb_neq. }
  destruct Hname as (Hne & Hfree & Hdot & Hdotdot).
  assert (Hrel : relative name = true).
  { unfold relative. destruct name as [|c name]; [discriminate|]. cbn in Hfree |- *.
    apply andb_true_iff in Hfree as [Hc _]. exact Hc. }
  transitivity (normalizePath cwd); [|exact Hn]. apply normalizePath_stack_eq.
  rewrite (stack_of_resolve_relative _ [DOT; DOT] eq_refl), stack_of_normalizePath.
  rewrite (stack_of_resolve_relative cwd name Hrel).
  unfold segments. rewrite (split_on_free SLASH name Hfree). cbn [filter]. rewrite Hne.
  change (segments [DOT; DOT]) with [[DOT; DOT]].
  cbn [fold_left]. rewrite (normalize_step_kept _ Hdot Hdotdot).
  change (normalize_step (stack_of cwd ++ [name]) [DOT; DOT])
    with (removelast (stack_of cwd ++ [name])).
  apply removelast_last.
Qed.

Lemma resolve_name_then_dotdot_witness :
  normalizePath (resolvePath (normalizePath (resolvePath (js "/home/u") (js "docs"))) [DOT; DOT])
  = js "/home/u".
Proof. apply resolve_name_then_dotdot; reflexivity. Defined.

(** ** tree on what cannot be listed *)

Section TreeEdges.

Context {K : Type} `{KernelClient K}.
Variable k : K.

(** The second loop only adds lines. *)
Lemma render_extends (rec : jsstring -> jsstring -> bool -> option jsstring)
      (path prefix : jsstring) (sorted : list jsstring) :
  forall acc lines,
    render k rec path prefix sorted acc = Some lines ->
    exists extra, lines = acc ++ extra.
Proof.
  induction sorted as [|entry rest IH]; intros acc lines; cbn [render].
  - intros Heq. injection Heq as <-. exists []. now rewrite app_nil_r.
  - cbv zeta. destruct (fs_stat (entry_path path entry) k) as [stat|msg].
    + destruct (is_dir stat).
      * destruct (rec _ _ false) as [subTree|]; [|discriminate].
        intros Hr. apply IH in Hr as [extra ->].
        eexists. rewrite <- !app_assoc. reflexivity.
      * intros Hr. apply IH in Hr as [extra ->].
        eexists. rewrite <- !app_assoc. reflexivity.
    + intros Hr. apply IH in Hr as [extra ->].
      eexists. rewrite <- !app_assoc. reflexivity.
Qed.

(** What [buildTree] returns for the root starts with the root path. *)
Lemma buildTree_starts_with_path (fuel : nat) (path prefix text : jsstring) :
  buildTree k fuel path prefix true = Some text -> exists rest, text = path ++ rest.
Proof.
  destruct fuel as [|fuel]; [discriminate|]. cbn [buildTree].
  destruct (fs_readdir path k) as [entries|msg].
  - destruct (classify k path entries [] []) as [dirEntries fileEntries].
    destruct (render k (buildTree k fuel) path prefix _ [path]) as [lines|] eqn:Hr;
      [|discriminate].
    intros Heq. injection Heq as <-. apply render_extends in Hr as [extra ->].
    destruct extra as [|x extra]; [exists []; cbn; now rewrite app_nil_r|].
    eexists. reflexivity.
  - intros Heq. injection Heq as <-. exists []. cbn. now rewrite app_nil_r.
Qed.

End TreeEdges.

(** X12. [tree] never reports an error and changes nothing: whatever the
    kernel answers, its result (when the model has the fuel to reach it)
    has code 0, an empty stderr, and a stdout that starts with the target
    path. On a target that cannot be listed, a missing path or a plain
    file, it prints the path alone, where [ls] fails with the kernel's
    message. *)
Theorem tree_never_fails :
  forall (K H : Type) (kc : KernelClient K) (hc : Host H)
         (fuel : nat) (args : list jsstring) (t : Terminal K H),
    let target := target_or_cwd (cwd t) args in
    snd (tree_handler fuel args t) = t /\
    (forall message, fst (tree_handler fuel args t) <> Thrown message) /\
    (forall r,
        fst (tree_handler fuel args t) = Returned r ->
        code r = 0%Z /\ stderr r = [] /\ exists rest, stdout r = target ++ rest) /\
    (forall message,
        fs_readdir target (remote t) = Rejected message ->
        tree_handler (S fuel) args t = (Returned (ok target), t) /\
        ls_handler args t = (Returned (fail message), t)).
Proof.
  intros K H kc hc fuel args t target.
  unfold tree_handler, ls_handler. unfold_monad. fold target.
  split; [|split; [|split]].
  - destruct (buildTree (remote t) fuel target [] true); reflexivity.
  - intros message. destruct (buildTree (remote t) fuel target [] true); discriminate.
  - intros r. destruct (buildTree (remote t) fuel target [] true) as [text|] eqn:Hb;
      [|discriminate].
    cbn [fst]. intros Heq. injection Heq as <-.
    repeat split. now apply buildTree_starts_with_path in Hb.
  - intros message Hread. cbn [buildTree]. rewrite Hread. split; reflexivity.
Qed.

Lemma tree_never_fails_witness :
  let fs := [(js "/docs", MemFs.DirNode); (js "/docs/a.txt", MemFs.FileNode [])] in
  let t := MemFs.terminal (js "/docs") fs in
  (code (ok (js "/docs" ++ [LF] ++ LAST_BRANCH ++ js "a.txt")) = 0%Z /\
   stderr (ok (js "/docs" ++ [LF] ++ LAST_BRANCH ++ js "a.txt")) = [] /\
   exists rest, stdout (ok (js "/docs" ++ [LF] ++ LAST_BRANCH ++ js "a.txt"))
                = target_or_cwd (cwd t) [] ++ rest) /\
  (tree_handler 1 [js "a.txt"] t = (Returned (ok (js "/docs/a.txt")), t) /\
   ls_handler [js "a.txt"] t = (Returned (fail (js "not a directory: /docs/a.txt")), t)) /\
  (tree_handler 1 [js "/gone"] t = (Returned (ok (js "/gone")), t) /\
   ls_handler [js "/gone"] t = (Returned (fail (js "not found: /gone")), t)).
Proof.
  intros fs t. split; [|split].
  - apply (tree_never_fails MemFs.client MemFs.browser 2 [] t). reflexivity.
  - apply (tree_never_fails MemFs.client MemFs.browser 0 [js "a.txt"] t). reflexivity.
  - apply (tree_never_fails MemFs.client MemFs.browser 0 [js "/gone"] t). reflexivity.
Defined.

(* ================================================================== *)
(** ** The worker: requests it cannot serve, and failures *)

Module WorkerEdges.
Import Worker WorkerFacts WorkerRun.

Section Edges.

Context {FS D : Type} `{KernelAPI FS} `{WorkerHost D}.

Lemma state_eta (w : state FS D) : {| api := api w; idb := idb w |} = w.
Proof. now destruct w. Qed.

Lemma type_is_js (s : jsstring) (tag : string) (req : KernelRequest) :
  req_type req = JString s -> type_is req tag = str_eqb s (js tag).
Proof. intros Hty. unfold type_is. now rewrite Hty. Qed.

(** A tag outside the ten falls to the [default] of the [switch]. *)
Lemma run_switch_unknown (req : KernelRequest) (fs : FS) :
  recognized req = false ->
  run_switch req fs
  = (Throw (new_Error (js "Unknown request type: " ++ JSON_stringify req)), fs).
Proof.
  unfold recognized, mutating, read_only, mutating_tags, read_only_tags. cbn [existsb].
  intros Hrec. apply orb_false_iff in Hrec as [Hm Hr].
  repeat (apply orb_false_iff in Hm as [? Hm]).
  repeat (apply orb_false_iff in Hr as [? Hr]).
  unfold run_switch.
  repeat match goal with
         | Hf : type_is req _ = false |- _ => rewrite Hf; clear Hf
         end.
  reflexivity.
Qed.

(** [needsPersist] is set by the six mutating cases only. *)
Lemma run_switch_needs_persist (req : KernelRequest) (fs fs' : FS) (p : payload) :
  run_switch req fs = (Normal (p, true), fs') -> mutating req = true.
Proof.
  destruct (mutating req) eqn:Hm; [reflexivity|]. intros Hrun. exfalso.
  destruct (read_only req) eqn:Hr.
  - destruct (run_switch_read_only req fs Hr) as (A & wrap & r & Heq).
    rewrite Heq in Hrun. destruct r; discriminate.
  - rewrite run_switch_unknown in Hrun by (unfold recognized; now rewrite Hm, Hr).
    discriminate.
Qed.

Lemma response_ids_app (a b : list event) :
  response_ids (a ++ b) = response_ids a ++ response_ids b.
Proof.
  induction a as [|[key value|response] a IH]; cbn; [reflexivity | exact IH | now rewrite IH].
Qed.

Lemma count_store_writes_app (a b : list event) :
  List.length (filter is_store_write (a ++ b))
  = (List.length (filter is_store_write a) + List.length (filter is_store_write b))%nat.
Proof. now rewrite filter_app, length_app. Qed.

Lemma resp_id_response_to (req : KernelRequest) (r : completion payload) :
  resp_id (response_to req r) = req_id req.
Proof. now destruct r. Qed.

Lemma take_perm (A : Type) (n : nat) :
  forall (l rest : list A) (x : A), take n l = Some (x, rest) -> Permutation l (x :: rest).
Proof.
  induction n as [|n IH]; intros [|y l] rest x; cbn [take]; try discriminate.
  - intros Heq. injection Heq as <- <-. apply Permutation_refl.
  - destruct (take n l) as [[z rest']|] eqn:Htake; [|discriminate].
    intros Heq. injection Heq as <- <-.
    apply Permutation_trans with (y :: z :: rest'); [|apply perm_swap].
    constructor. now apply IH.
Qed.

(** The three ways a handler can go up to its wait: nothing at all for a
    message the guard refuses; one response at once; or the call of the
    store, by a mutating request, which then waits. *)
Lemma to_await_outcome (ev : option KernelRequest) (w : state FS D) :
  (well_formed ev = false /\ to_await ev w = (w, [], None)) \/
  (well_formed ev = true /\
   exists w' response,
     to_await ev w = (w', [PostMessage response], None) /\ resp_id response = id_of ev) \/
  (well_formed ev = true /\ is_mutating ev = true /\
   exists w' dump p,
     to_await ev w = (w', [IdbSet FS_KEY dump], Some p) /\ waiting_id p = id_of ev).
Proof.
  destruct ev as [req|]; [|left; now split].
  cbn [well_formed id_of is_mutating to_await].
  destruct (truthy (req_id req)); [|left; now split].
  destruct (truthy (req_type req)); [|left; now split].
  right. cbn [negb orb andb].
  destruct (api w) as [fs|].
  2:{ left. split; [reflexivity|]. do 2 eexists. split; [reflexivity|].
      apply resp_id_response_to. }
  destruct (run_switch req fs) as [[[result [|]]|e] fs'] eqn:Hrun.
  - destruct (fs_dump_state fs') as [dump|e].
    + right. split; [reflexivity|].
      split; [exact (run_switch_needs_persist req fs Hrun)|].
      do 3 eexists. split; reflexivity.
    + left. split; [reflexivity|]. do 2 eexists. split; [reflexivity|].
      apply resp_id_response_to.
  - left. split; [reflexivity|]. do 2 eexists. split; [reflexivity|].
    apply resp_id_response_to.
  - left. split; [reflexivity|]. do 2 eexists. split; [reflexivity|].
    apply resp_id_response_to.
Qed.

(** A handler that waited posts one response, under the identifier of its
    request, whatever the store has answered. *)
Lemma from_await_outcome (p : waiting) (w : state FS D) :
  exists w' response,
    from_await p w = (w', [PostMessage response]) /\ resp_id response = waiting_id p.
Proof.
  unfold from_await. destruct (idbSetBytes FS_KEY (sent p) (idb w)) as [r d].
  do 2 eexists. split; [reflexivity|]. apply resp_id_response_to.
Qed.

(** Run to its end without another turn in between, the two parts are
    the handler. *)
Lemma onmessage_in_two_parts (ev : option KernelRequest) (w : state FS D) :
  onmessage ev w
  = match to_await ev w with
    | (w1, events1, Some p) =>
        let (w2, events2) := from_await p w1 in (w2, events1 ++ events2)
    | (w1, events1, None) => (w1, events1)
    end.
Proof.
  destruct ev as [req|]; [|reflexivity]. unfold onmessage, to_await.
  destruct (negb (truthy (req_id req)) || negb (truthy (req_type req))); [reflexivity|].
  unfold try_block, persist, from_await. destruct (api w) as [fs|]; [|reflexivity].
  destruct (run_switch req fs) as [[[result [|]]|e] fs']; cbn [api idb]; try reflexivity.
  destruct (fs_dump_state fs') as [dump|e]; [|reflexivity].
  cbn [sent asked held api idb].
  destruct (idbSetBytes FS_KEY dump (idb w)) as [[u|e] d]; reflexivity.
Qed.

End Edges.

(** X13. A request the worker cannot serve is answered, not served: while
    the engine is not loaded every well-formed request gets [ok = false]
    with the message [Kernel not initialized], and a request whose tag is
    none of the ten gets [ok = false] with [Unknown request type: ...];
    in both cases the engine is not called, the store is not written and
    the worker is as before. *)
Theorem unservable_request_is_refused :
  forall (FS D : Type) (ka : KernelAPI FS) (wh : WorkerHost D)
         (req : KernelRequest) (w : state FS D),
    truthy (req_id req) = true -> truthy (req_type req) = true ->
    (api w = None ->
     onmessage (Some req) w
     = (w, [PostMessage (response_to req (Throw (new_Error (js "Kernel not initialized"))))])) /\
    (recognized req = false -> forall fs, api w = Some fs ->
     onmessage (Some req) w
     = (w, [PostMessage
              (response_to req
                 (Throw (new_Error (js "Unknown request type: " ++ JSON_stringify req))))])).
Proof.
  intros FS D ka wh req w Hid Hty. split.
  - intros Hapi. rewrite (onmessage_well_formed req w Hid Hty).
    unfold try_block. rewrite Hapi. reflexivity.
  - intros Hrec fs Hapi. rewrite (onmessage_well_formed req w Hid Hty).
    unfold try_block. rewrite Hapi, (run_switch_unknown req fs Hrec). cbn.
    rewrite <- Hapi, state_eta. reflexivity.
Qed.

Lemma unservable_request_is_refused_witness :
  let req := MemFs.request (js "9") "fs_chmod" (js "/a") in
  let not_loaded := {| api := (None : option MemFs.tree); idb := ([] : MemFs.store) |} in
  let loaded := {| api := Some ([] : MemFs.tree); idb := ([] : MemFs.store) |} in
  onmessage (Some req) not_loaded
  = (not_loaded,
     [PostMessage {| resp_id := JString (js "9"); resp_ok := false; resp_result := None;
                     resp_error := Some {| message := js "Kernel not initialized";
                                           stack := [] |} |}]) /\
  onmessage (Some req) loaded
  = (loaded,
     [PostMessage {| resp_id := JString (js "9"); resp_ok := false; resp_result := None;
                     resp_error := Some {| message := js "Unknown request type: {}";
                                           stack := [] |} |}]).
Proof.
  intros req not_loaded loaded. split.
  - apply (unservable_request_is_refused MemFs.engine MemFs.worker_host req not_loaded);
      reflexivity.
  - apply (unservable_request_is_refused MemFs.engine MemFs.worker_host req loaded)
      with (fs := []); reflexivity.
Defined.

(** X14. How a mutation can fail. If the engine refuses it, the store is
    not written and the response carries the engine's error as it is. If
    the engine has done it and the snapshot cannot be taken or stored, the
    response is [ok = false] with that error, and yet the tree in memory
    holds the mutation: it is not rolled back. *)
Theorem failed_mutation_is_reported :
  forall (FS D : Type) (ka : KernelAPI FS) (wh : WorkerHost D)
         (req : KernelRequest) (w : state FS D) (fs : FS),
    truthy (req_id req) = true -> mutating req = true -> api w = Some fs ->
    (forall e fs',
        run_switch req fs = (Throw e, fs') ->
        onmessage (Some req) w
        = ({| api := Some fs'; idb := idb w |}, [PostMessage (response_to req (Throw e))])) /\
    (forall p fs' e,
        run_switch req fs = (Normal p, fs') -> fs_dump_state fs' = Throw e ->
        onmessage (Some req) w
        = ({| api := Some fs'; idb := idb w |}, [PostMessage (response_to req (Throw e))])) /\
    (forall p fs' dump e d',
        run_switch req fs = (Normal p, fs') -> fs_dump_state fs' = Normal dump ->
        idbSetBytes FS_KEY dump (idb w) = (Throw e, d') ->
        onmessage (Some req) w
        = ({| api := Some fs'; idb := d' |},
           [IdbSet FS_KEY dump; PostMessage (response_to req (Throw e))])).
Proof.
  intros FS D ka wh req w fs Hid Hm Hapi.
  destruct (try_block_mutating req w Hm Hapi) as (_ & Hthrow & Hdone & Hnodump).
  split; [|split].
  - intros e fs' Hrun.
    rewrite (onmessage_well_formed req w Hid (mutating_truthy req Hm)).
    now rewrite (Hthrow e fs' Hrun).
  - intros p fs' e Hrun Hdump.
    rewrite (onmessage_well_formed req w Hid (mutating_truthy req Hm)).
    now rewrite (Hnodump p fs' e Hrun Hdump).
  - intros p fs' dump e d' Hrun Hdump Hset.
    rewrite (onmessage_well_formed req w Hid (mutating_truthy req Hm)).
    rewrite (Hdone p fs' dump Hrun Hdump), Hset. reflexivity.
Qed.

Lemma failed_mutation_is_reported_witness :
  let w := {| api := Some ([] : MemFs.tree); idb := ([] : MemFs.store) |} in
  let req := MemFs.request (js "3") "fs_rm" (js "/nope") in
  onmessage (Some req) w
  = (w, [PostMessage {| resp_id := JString (js "3"); resp_ok := false; resp_result := None;
                        resp_error := Some {| message := js "not found: /nope";
                                              stack := [] |} |}]).
Proof.
  intros w req.
  apply (failed_mutation_is_reported MemFs.engine MemFs.worker_host req w
           (fs := []) eq_refl eq_refl eq_refl); reflexivity.
Defined.

(** X15. However the handlers of a sequence of messages interleave at
    their wait for the store, every response answers a well-formed message
    that was dispatched, under its identifier, and no message is answered
    twice: the identifiers of the responses, with those of the handlers
    that still wait, are those of the well-formed messages and of the
    handlers that waited at the start, each as often. The handlers call
    the store at most once per well-formed mutating message. And among
    messages none of which is a well-formed mutating request, with no
    handler waiting at the start, the responses leave in the order the
    messages came and no handler is left waiting. *)
Theorem responses_answer_requests :
  forall (FS D : Type) (ka : KernelAPI FS) (wh : WorkerHost D)
         (turns : list (turn FS D)) (s : worker FS D),
    Permutation
      (response_ids (snd (run turns s)) ++ map waiting_id (waiters (fst (run turns s))))
      (map waiting_id (waiters s) ++ map id_of (filter well_formed (delivered turns))) /\
    (List.length (filter is_store_write (snd (run turns s)))
     <= List.length (filter (fun ev => well_formed ev && is_mutating ev) (delivered turns)))%nat /\
    (waiters s = [] ->
     forallb (fun ev => negb (well_formed ev && is_mutating ev)) (delivered turns) = true ->
     response_ids (snd (run turns s)) = map id_of (filter well_formed (delivered turns)) /\
     waiters (fst (run turns s)) = []).
Proof.
  intros FS D ka wh turns.
  induction turns as [|t turns IH]; intros s.
  { cbn. rewrite !app_nil_r. split; [apply Permutation_refl|]. split; [lia|]. now intros ->. }
  cbn [run].
  destruct (step t s) as [s1 events1] eqn:Hstep.
  destruct (run turns s1) as [s2 events2] eqn:Hrun.
  specialize (IH s1). rewrite Hrun in IH. cbn [fst snd] in IH |- *.
  destruct IH as (IHperm & IHcount & IHorder).
  rewrite response_ids_app, count_store_writes_app.
  destruct t as [ev|n|w]; cbn [step delivered] in Hstep |- *.
  - destruct (to_await_outcome ev (now s))
      as [(Hwf & Hto) | [(Hwf & w' & response & Hto & Hid)
                        | (Hwf & Hm & w' & dump & p & Hto & Hid)]];
      rewrite Hto in Hstep; injection Hstep as <- <-; cbn [waiters now] in *;
      cbn [filter forallb]; rewrite Hwf;
      cbn [andb negb response_ids filter is_store_write List.length app map].
    + split; [exact IHperm|]. split; [exact IHcount|]. exact IHorder.
    + rewrite Hid. split; [|split].
      * apply Permutation_trans
          with (id_of ev :: map waiting_id (waiters s)
                ++ map id_of (filter well_formed (delivered turns))).
        -- constructor. exact IHperm.
        -- apply Permutation_middle.
      * destruct (is_mutating ev); cbn [List.length]; lia.
      * intros Hw Hall. apply andb_true_iff in Hall as [_ Hall].
        destruct (IHorder Hw Hall) as [-> ->]. now split.
    + rewrite Hm. cbn [List.length]. split; [|split].
      * apply Permutation_trans
          with (map waiting_id (waiters s ++ [p])
                ++ map id_of (filter well_formed (delivered turns))).
        -- exact IHperm.
        -- rewrite map_app, <- app_assoc. cbn [map app]. rewrite Hid.
           apply Permutation_refl.
      * lia.
      * intros _ Hall. cbn in Hall. discriminate.
  - destruct (take n (waiters s)) as [[p rest]|] eqn:Htake.
    + destruct (from_await_outcome p (now s)) as (w' & response & Hfrom & Hid).
      rewrite Hfrom in Hstep. injection Hstep as <- <-. cbn [waiters now] in *.
      cbn [response_ids filter is_store_write List.length app].
      rewrite Hid. split; [|split].
      * apply Permutation_trans
          with (waiting_id p :: map waiting_id rest
                ++ map id_of (filter well_formed (delivered turns))).
        -- constructor. exact IHperm.
        -- apply (Permutation_app_tail _
                    (Permutation_sym (Permutation_map waiting_id (take_perm _ _ Htake)))).
      * exact IHcount.
      * intros Hw. rewrite Hw in Htake. destruct n; discriminate.
    + injection Hstep as <- <-. cbn. split; [exact IHperm|]. split; [exact IHcount|].
      exact IHorder.
  - injection Hstep as <- <-. cbn [waiters now] in *. cbn.
    split; [exact IHperm|]. split; [exact IHcount|]. exact IHorder.
Qed.

Lemma responses_answer_requests_witness :
  let s := {| now := {| api := Some ([] : MemFs.tree); idb := ([] : MemFs.store) |};
              waiters := [] |} in
  let turns := [ Message (Some (MemFs.request (js "1") "fs_stat" (js "/")));
                 Settled 0;
                 Message (Some (MemFs.request (js "2") "fs_readdir" (js "/nope"))) ] in
  response_ids (snd (run turns s)) = [JString (js "1"); JString (js "2")] /\
  waiters (fst (run turns s)) = [].
Proof.
  intros s turns.
  apply (responses_answer_requests MemFs.engine MemFs.worker_host turns s); reflexivity.
Defined.

(** A later request can be answered before an earlier one: a [stat] that
    arrives while [mkdir] waits for the store is answered first, and it
    already sees the new directory. *)
Example later_request_is_answered_first :
  let s := {| now := {| api := Some ([] : MemFs.tree); idb := ([] : MemFs.store) |};
              waiters := [] |} in
  let turns := [ Message (Some (MemFs.request (js "1") "fs_mkdir" (js "/d")));
                 Message (Some (MemFs.request (js "2") "fs_stat" (js "/d")));
                 Settled 0 ] in
  response_ids (snd (run turns s)) = [JString (js "2"); JString (js "1")] /\
  map is_store_write (snd (run turns s)) = [true; false; false] /\
  exists rest,
    snd (run turns s)
    = IdbSet FS_KEY (MemFs.dump [(js "/d", MemFs.DirNode)])
      :: PostMessage {| resp_id := JString (js "2"); resp_ok := true;
                        resp_result := Some (PStat {| is_dir := true; is_file := false;
                                                      size := 0 |});
                        resp_error := None |}
      :: rest.
Proof.
  intros s turns. split; [|split].
  - vm_compute. reflexivity.
  - vm_compute. reflexivity.
  - eexists. vm_compute. reflexivity.
Qed.

End WorkerEdges.

(* ================================================================== *)
(** ** The start of the worker *)

Module BootFacts.
Import Worker Boot.

Section Facts.

Context {FS D : Type} `{KernelAPI FS} `{WorkerHost D} `{BootEngine FS} `{BootHost D}.
Variable docs : Documents.

Local Abbreviation writes n a := (writes_at_most (FS:=FS) (D:=D) n a).

Lemma writes_skip : writes 0 skip.
Proof. intros s. cbn. split; [constructor | lia]. Qed.

Lemma writes_call (m : FS -> completion unit * FS) : writes 0 (call m).
Proof. intros s. unfold call. destruct (m (fst s)). cbn. split; [constructor | lia]. Qed.

Lemma writes_persisting : writes 1 persisting.
Proof.
  intros s. unfold persisting, persist. cbn [api idb].
  destruct (fs_dump_state (fst s)) as [dump|e]; [|cbn; split; [constructor | lia]].
  destruct (idbSetBytes FS_KEY dump (snd s)) as [r d]. cbn.
  split; [|lia]. constructor; [now exists dump | constructor].
Qed.

Lemma writes_seq (n m : nat) (a b : step) :
  writes n a -> writes m b -> writes (n + m) (seq a b).
Proof.
  intros Ha Hb s. unfold seq. specialize (Ha s).
  destruct (a s) as [[[u|e] s1] events1]; cbn [snd] in Ha |- *.
  - specialize (Hb s1). destruct (b s1) as [[r s2] events2]. cbn [snd] in Hb |- *.
    destruct Ha as [Ha1 Ha2], Hb as [Hb1 Hb2]. split.
    + apply Forall_app. now split.
    + rewrite length_app. lia.
  - destruct Ha as [Ha1 Ha2]. split; [exact Ha1 | lia].
Qed.

Lemma writes_logged (n : nat) (a : step) : writes n a -> writes n (logged a).
Proof.
  intros Ha s. unfold logged. specialize (Ha s).
  destruct (a s) as [[[u|e] s1] events1]; exact Ha.
Qed.

Lemma writes_probe (n : nat) (path : jsstring) (repair : step) :
  writes n repair -> writes n (probe path repair).
Proof.
  intros Hr s. unfold probe. destruct (fs_stat path (fst s)); [|apply Hr].
  cbn. split; [constructor | lia].
Qed.

Lemma writes_mkdirs (dirs : list jsstring) : writes 0 (mkdirs dirs).
Proof.
  induction dirs as [|dir dirs IH]; [apply writes_skip|].
  cbn [mkdirs]. apply (writes_seq (n := 0) (m := 0)); [apply writes_call | exact IH].
Qed.

Lemma writes_seed : writes 1 (seed docs).
Proof.
  unfold seed.
  repeat first
    [ apply writes_persisting
    | apply (writes_seq (n := 0) (m := 1));
      [first [apply writes_mkdirs | apply writes_call]|] ].
Qed.

Lemma writes_repairs : writes 3 (repairs docs).
Proof.
  unfold repairs.
  apply (writes_seq (n := 1) (m := 2)); [|apply (writes_seq (n := 1) (m := 1))];
    apply writes_probe;
    repeat first
      [ apply writes_persisting
      | apply (writes_seq (n := 0) (m := 1)); [apply writes_call|] ].
Qed.

Lemma writes_restore_and_repair (persisted : option bytes) :
  writes 4 (restore_and_repair docs persisted).
Proof.
  unfold restore_and_repair.
  apply (writes_seq (n := 0) (m := 4)); [apply writes_call|].
  apply (writes_seq (n := 1) (m := 3)); [|apply writes_repairs].
  destruct persisted.
  - intros s. cbn. split; [constructor | lia].
  - apply writes_logged, writes_seed.
Qed.

(** Seeding cannot make the start fail. *)
Lemma logged_returns (a : step) (s : FS * D) : exists u, fst (fst (logged a s)) = Normal u.
Proof.
  unfold logged. destruct (a s) as [[[u|e] s1] events1]; cbn; eexists; reflexivity.
Qed.

(** When the three well-known paths are there, the repairs do nothing. *)
Lemma repairs_nothing_missing (s : FS * D) (s1 s2 s3 : Stat) :
  fs_stat (js "/etc/app-config.json") (fst s) = Normal s1 ->
  fs_stat (js "/etc/theme.css") (fst s) = Normal s2 ->
  fs_stat (js "/apps/editor") (fst s) = Normal s3 ->
  repairs docs s = (Normal tt, s, []).
Proof.
  intros Hconfig Htheme Heditor. unfold repairs, seq, probe. rewrite Hconfig. cbn [fst snd].
  rewrite Htheme. cbn [fst snd]. rewrite Heditor. reflexivity.
Qed.

End Facts.

(** X16. The start of the worker ends by posting one message, [ready] or
    [fatal], and posts nothing else. Before it, it writes
    the store at most four times (once after seeding, once for each of
    the three repairs), always under [FS_KEY]. If importing the module
    fails, [api] stays [null]; in every other case [api] is set, also
    when the start ends in [fatal]. *)
Theorem start_ends_with_one_message :
  forall (FS D : Type) (ka : KernelAPI FS) (wh : WorkerHost D)
         (be : BootEngine FS) (bh : BootHost D)
         (docs : Documents) (fresh : FS) (d : D),
    (exists writes m,
        snd (start docs fresh d) = writes ++ [Post m] /\
        Forall (fun e => exists value, e = StoreWrite FS_KEY value) writes /\
        (List.length writes <= 4)%nat) /\
    (forall e, import_kernel = Throw e ->
               start docs fresh d = ({| api := None; idb := d |}, [Post (Fatal e)])) /\
    (forall u, import_kernel = Normal u -> exists fs, api (fst (start docs fresh d)) = Some fs).
Proof.
  intros FS D ka wh be bh docs fresh d. unfold start. split; [|split].
  - destruct import_kernel as [u|e]; [|exists [], (Fatal e); repeat split; [constructor | cbn; lia]].
    destruct (idbGetBytes FS_KEY d) as [persisted|e];
      [|exists [], (Fatal e); repeat split; [constructor | cbn; lia]].
    pose proof (writes_restore_and_repair docs persisted (fresh, d)) as [Hkey Hlen].
    destruct (restore_and_repair docs persisted (fresh, d)) as [[[u'|e] [fs d']] events];
      cbn [snd] in *.
    + exists events, Ready. now repeat split.
    + exists events, (Fatal e). now repeat split.
  - intros e Himp. now rewrite Himp.
  - intros u Himp. rewrite Himp.
    destruct (idbGetBytes FS_KEY d) as [persisted|e]; [|now exists fresh].
    destruct (restore_and_repair docs persisted (fresh, d)) as [[[u'|e] [fs d']] events];
      now exists fs.
Qed.

Lemma start_ends_with_one_message_witness :
  exists fs,
    api (fst (start MemBoot.documents ([] : MemFs.tree) ([] : MemFs.store))) = Some fs.
Proof.
  apply (start_ends_with_one_message MemFs.engine MemFs.worker_host
           MemBoot.boot_engine MemBoot.boot_host MemBoot.documents [] [])
    with (u := tt).
  reflexivity.
Defined.

(** X17. Starting on a snapshot that holds the three well-known paths
    restores the tree and does nothing more: nothing is seeded, nothing is
    repaired, the store is not written, and [ready] is posted. *)
Theorem start_on_healthy_snapshot :
  forall (FS D : Type) (ka : KernelAPI FS) (wh : WorkerHost D)
         (be : BootEngine FS) (bh : BootHost D)
         (docs : Documents) (fresh : FS) (d : D)
         (u : unit) (snapshot : bytes) (fs : FS) (s1 s2 s3 : Stat),
    import_kernel = Normal u ->
    idbGetBytes FS_KEY d = Normal (Some snapshot) ->
    fs_init_from_bytes (Some snapshot) fresh = (Normal tt, fs) ->
    fs_stat (js "/etc/app-config.json") fs = Normal s1 ->
    fs_stat (js "/etc/theme.css") fs = Normal s2 ->
    fs_stat (js "/apps/editor") fs = Normal s3 ->
    start docs fresh d = ({| api := Some fs; idb := d |}, [Post Ready]).
Proof.
  intros FS D ka wh be bh docs fresh d u snapshot fs s1 s2 s3 Himp Hget Hinit Hc Ht He.
  unfold start. rewrite Himp, Hget. unfold restore_and_repair, seq at 1, call.
  cbn [fst snd]. rewrite Hinit. unfold seq at 1, skip.
  rewrite (repairs_nothing_missing docs (fs, d) (s1 := s1) (s2 := s2) (s3 := s3)) by assumption.
  reflexivity.
Qed.

Lemma start_on_healthy_snapshot_witness :
  let fs := [ (js "/etc", MemFs.DirNode); (js "/etc/app-config.json", MemFs.FileNode []);
              (js "/etc/theme.css", MemFs.FileNode []); (js "/apps", MemFs.DirNode);
              (js "/apps/editor", MemFs.DirNode); (js "/mine.txt", MemFs.FileNode []) ] in
  let d := [(js "fs_state", MemFs.dump fs)] in
  start MemBoot.documents fs d = ({| api := Some fs; idb := d |}, [Post Ready]).
Proof.
  intros fs d.
  apply (start_on_healthy_snapshot MemFs.engine MemFs.worker_host
           MemBoot.boot_engine MemBoot.boot_host MemBoot.documents fs d
           (u := tt) (snapshot := MemFs.dump fs)
           (s1 := {| is_dir := false; is_file := true; size := 0 |})
           (s2 := {| is_dir := false; is_file := true; size := 0 |})
           (s3 := {| is_dir := true; is_file := false; size := 0 |}));
    reflexivity.
Defined.

(** X18. Seeding cannot make the start fail. On a first run (nothing
    stored under the key), whatever happens while the base filesystem is
    created, an error there is logged and dropped: if the three
    well-known paths are found afterwards, the start posts [ready], having
    written the store at most once. *)
Theorem failed_seeding_is_not_fatal :
  forall (FS D : Type) (ka : KernelAPI FS) (wh : WorkerHost D)
         (be : BootEngine FS) (bh : BootHost D)
         (docs : Documents) (fresh : FS) (d : D)
         (u : unit) (fs1 : FS) (s1 s2 s3 : Stat),
    import_kernel = Normal u ->
    idbGetBytes FS_KEY d = Normal None ->
    fs_init_from_bytes None fresh = (Normal tt, fs1) ->
    let seeded := seed docs (fs1, d) in
    let fs2 := fst (snd (fst seeded)) in
    let d2 := snd (snd (fst seeded)) in
    fs_stat (js "/etc/app-config.json") fs2 = Normal s1 ->
    fs_stat (js "/etc/theme.css") fs2 = Normal s2 ->
    fs_stat (js "/apps/editor") fs2 = Normal s3 ->
    start docs fresh d = ({| api := Some fs2; idb := d2 |}, snd seeded ++ [Post Ready]) /\
    (List.length (snd seeded) <= 1)%nat.
Proof.
  intros FS D ka wh be bh docs fresh d u fs1 s1 s2 s3 Himp Hget Hinit seeded fs2 d2 Hc Ht He.
  split; [|apply (writes_seed docs (fs1, d))].
  unfold start. rewrite Himp, Hget. unfold restore_and_repair, seq at 1, call.
  cbn [fst snd]. rewrite Hinit. unfold seq at 1, logged.
  fold seeded. subst fs2 d2.
  destruct seeded as [[r [fs2 d2]] events]. cbn [fst snd] in *.
  destruct r as [u'|e]; cbv beta iota;
    rewrite (repairs_nothing_missing docs (fs2, d2) (s1 := s1) (s2 := s2) (s3 := s3))
      by assumption;
    cbn; now rewrite app_nil_r.
Qed.

Lemma failed_seeding_is_not_fatal_witness :
  let seeded := seed MemBoot.documents (([] : MemFs.tree), ([] : MemFs.store)) in
  start MemBoot.documents [] []
  = ({| api := Some (fst (snd (fst seeded))); idb := snd (snd (fst seeded)) |},
     snd seeded ++ [Post Ready]) /\
  (List.length (snd seeded) <= 1)%nat.
Proof.
  intros seeded.
  apply (@failed_seeding_is_not_fatal _ _ MemFs.engine MemFs.worker_host
           MemBoot.boot_engine MemBoot.boot_host MemBoot.documents [] []
           tt []
           {| is_dir := false; is_file := true; size := 2 |}
           {| is_dir := false; is_file := true; size := 7 |}
           {| is_dir := true; is_file := false; size := 0 |});
    vm_compute; reflexivity.
Defined.

End BootFacts.

(* ================================================================== *)
(** ** The windows of the desktop *)

Module DesktopFacts.
Import Desktop.

Section Facts.

Variable C : Type.
Local Abbreviation WindowItem := (Desktop.WindowItem C).
Local Abbreviation desktop := (Desktop.desktop C).

Lemma ids_map (f : WindowItem -> WindowItem) (l : list WindowItem) :
  (forall w, id (f w) = id w) -> map (@id C) (map f l) = map (@id C) l.
Proof. intros Hf. rewrite map_map. apply map_ext. exact Hf. Qed.

Lemma ids_filter (p : WindowItem -> bool) (l : list WindowItem) (f : jsstring) :
  In f (map (@id C) (filter p l)) -> In f (map (@id C) l).
Proof.
  intros Hin. apply in_map_iff in Hin as (w & <- & Hw).
  apply filter_In in Hw as [Hw _]. now apply in_map.
Qed.

Lemma first_id_shown (l : list WindowItem) (f : jsstring) :
  first_id l = Some f -> In f (map (@id C) l).
Proof.
  destruct l as [|w l]; [discriminate|]. cbn.
  destruct (nonempty (id w)); [|discriminate]. intros Heq. injection Heq as <-. now left.
Qed.

Lemma minimize_ids (i : jsstring) (b : bool) (l : list WindowItem) :
  map (@id C) (map (fun w => if str_eqb (id w) i then with_minimized w b else w) l)
  = map (@id C) l.
Proof. apply ids_map. intros w. now destruct (str_eqb (id w) i). Qed.

Lemma maximize_ids (i : jsstring) (b : bool) (l : list WindowItem) :
  map (@id C) (map (fun w => if str_eqb (id w) i then with_maximized w b
                             else if b then with_maximized w false else w) l)
  = map (@id C) l.
Proof. apply ids_map. intros w. destruct (str_eqb (id w) i); [|destruct b]; reflexivity. Qed.

(** The windows after [setWindowMaximized]: which are maximized. *)
Lemma maximize_true (i : jsstring) (d : desktop) (w : WindowItem) :
  In w (windows (setWindowMaximized i true d)) ->
  set (maximized w) = str_eqb (id w) i.
Proof.
  cbn [setWindowMaximized windows]. intros Hin.
  apply in_map_iff in Hin as (w0 & <- & _).
  destruct (str_eqb (id w0) i) eqn:E; cbn; now rewrite E.
Qed.

Lemma maximize_false (i : jsstring) (d : desktop) (w : WindowItem) :
  In w (windows (setWindowMaximized i false d)) ->
  set (maximized w) = true ->
  In w (windows d) /\ str_eqb (id w) i = false.
Proof.
  cbn [setWindowMaximized windows]. intros Hin Hmax.
  apply in_map_iff in Hin as (w0 & <- & Hw0).
  destruct (str_eqb (id w0) i) eqn:E; [discriminate|]. now split.
Qed.

Lemma minimize_maximized (i : jsstring) (b : bool) (l : list WindowItem) (w : WindowItem) :
  In w (map (fun w => if str_eqb (id w) i then with_minimized w b else w) l) ->
  exists w0, In w0 l /\ id w0 = id w /\ maximized w0 = maximized w.
Proof.
  intros Hin. apply in_map_iff in Hin as (w0 & <- & Hw0). exists w0.
  destruct (str_eqb (id w0) i); now repeat split.
Qed.

Lemma one_maximized_subset (d d' : desktop) :
  (forall w, In w (windows d') -> set (maximized w) = true ->
             exists w0, In w0 (windows d) /\ id w0 = id w /\ set (maximized w0) = true) ->
  one_maximized d -> one_maximized d'.
Proof.
  intros Hsub Hone a b Ha Hb Hma Hmb.
  destruct (Hsub a Ha Hma) as (a0 & Ha0 & <- & Hma0).
  destruct (Hsub b Hb Hmb) as (b0 & Hb0 & <- & Hmb0).
  now apply Hone.
Qed.

Lemma one_maximized_setWindowMaximized (i : jsstring) (b : bool) (d : desktop) :
  one_maximized d -> one_maximized (setWindowMaximized i b d).
Proof.
  destruct b.
  - intros _ x y Hx Hy Hmx Hmy.
    rewrite (maximize_true i d x Hx) in Hmx. rewrite (maximize_true i d y Hy) in Hmy.
    apply str_eqb_eq in Hmx, Hmy. congruence.
  - apply one_maximized_subset. intros w Hin Hmax.
    destruct (maximize_false i d w Hin Hmax) as [Hw _]. now exists w.
Qed.

Lemma one_maximized_setWindowMinimized (i : jsstring) (b : bool) (d : desktop) :
  one_maximized d -> one_maximized (setWindowMinimized i b d).
Proof.
  apply one_maximized_subset. cbn [setWindowMinimized windows]. intros w Hin Hmax.
  destruct (minimize_maximized i b _ w Hin) as (w0 & Hw0 & Hid & Hm).
  exists w0. repeat split; [exact Hw0 | exact Hid | now rewrite Hm].
Qed.

Lemma one_maximized_filter (p : WindowItem -> bool) (d : desktop) (f : option jsstring) :
  one_maximized d ->
  one_maximized {| windows := filter p (windows d); focusedWindow := f |}.
Proof.
  apply one_maximized_subset. cbn [windows]. intros w Hin Hmax.
  apply filter_In in Hin as [Hin _]. now exists w.
Qed.

Lemma one_maximized_windows (d d' : desktop) :
  windows d' = windows d -> one_maximized d -> one_maximized d'.
Proof. intros Heq Hone a b. rewrite Heq. apply Hone. Qed.

Lemma unmaximized_ids (d : desktop) : map (@id C) (unmaximized d) = map (@id C) (windows d).
Proof.
  unfold unmaximized. destruct (find _ (windows d)); [|reflexivity]. apply maximize_ids.
Qed.

Lemma unmaximized_one (d : desktop) (f : option jsstring) :
  one_maximized d -> one_maximized {| windows := unmaximized d; focusedWindow := f |}.
Proof.
  intros Hone. unfold unmaximized. destruct (find _ (windows d)) as [m|].
  - apply (one_maximized_windows (d := setWindowMaximized (id m) false d));
      [reflexivity | now apply one_maximized_setWindowMaximized].
  - now apply (one_maximized_windows (d := d)).
Qed.

(** Under [one_maximized], un-maximizing the first maximized window
    leaves none. *)
Lemma unmaximized_none (d : desktop) (w : WindowItem) :
  one_maximized d -> In w (unmaximized d) -> set (maximized w) = false.
Proof.
  intros Hone Hin. unfold unmaximized in Hin.
  destruct (find (fun w => set (maximized w)) (windows d)) as [m|] eqn:Hfind.
  - apply find_some in Hfind as [Hm Hmax].
    destruct (set (maximized w)) eqn:Hw; [|reflexivity].
    destruct (maximize_false (id m) d w Hin Hw) as [Hwin Hne].
    rewrite (Hone w m Hwin Hm Hw Hmax), str_eqb_refl in Hne. discriminate.
  - destruct (set (maximized w)) eqn:Hw; [|reflexivity].
    now rewrite (find_none _ _ Hfind w Hin) in Hw.
Qed.

Lemma taskItemClick_windows (win : WindowItem) (d : desktop) :
  windows (taskItemClick win d)
  = if negb (focused_is d (id win)) then
      if set (minimized win)
      then map (fun w => if str_eqb (id w) (id win) then with_minimized w false else w)
               (unmaximized d)
      else unmaximized d
    else map (fun w => if str_eqb (id w) (id win) then with_minimized w true else w)
             (unmaximized d).
Proof.
  unfold taskItemClick. fold (unmaximized d).
  destruct (negb (focused_is d (id win))); reflexivity.
Qed.

Lemma taskItemClick_ids (win : WindowItem) (d : desktop) :
  map (@id C) (windows (taskItemClick win d)) = map (@id C) (windows d).
Proof.
  rewrite taskItemClick_windows.
  destruct (negb (focused_is d (id win))); [destruct (set (minimized win))|];
    rewrite ?minimize_ids; apply unmaximized_ids.
Qed.

Lemma unmaximized_origin (d : desktop) (w : WindowItem) :
  In w (unmaximized d) ->
  exists w0, In w0 (windows d) /\ id w0 = id w /\ minimized w0 = minimized w.
Proof.
  unfold unmaximized. destruct (find _ (windows d)) as [m|]; [|intros Hin; now exists w].
  cbn [setWindowMaximized windows]. intros Hin.
  apply in_map_iff in Hin as (w0 & <- & Hw0). exists w0.
  destruct (str_eqb (id w0) (id m)); now repeat split.
Qed.

Lemma same_id_same_window (l : list WindowItem) (a b : WindowItem) :
  NoDup (map (@id C) l) -> In a l -> In b l -> id a = id b -> a = b.
Proof.
  induction l as [|x l IH]; [contradiction|]. cbn [map]. intros Hnd Ha Hb Hid.
  inversion Hnd as [|? ? Hx Hl]; subst.
  destruct Ha as [<-|Ha], Hb as [<-|Hb]; [reflexivity | | |now apply IH].
  - exfalso. apply Hx. rewrite Hid. now apply in_map.
  - exfalso. apply Hx. rewrite <- Hid. now apply in_map.
Qed.

Lemma focus_shown_ids (d d' : desktop) :
  map (@id C) (windows d') = map (@id C) (windows d) ->
  focusedWindow d' = focusedWindow d ->
  focus_shown d -> focus_shown d'.
Proof. unfold focus_shown. intros -> ->. exact (fun x => x). Qed.

Lemma focus_shown_close (i : jsstring) (d : desktop) :
  focus_shown d -> focus_shown (closeWindow i d).
Proof.
  unfold focus_shown, closeWindow, focused_is. cbn [windows focusedWindow].
  destruct (focusedWindow d) as [f|]; [|exact (fun x => x)].
  destruct (str_eqb f i) eqn:E.
  - intros _. destruct (first_id _) as [g|] eqn:Hg; [|exact I].
    now apply first_id_shown.
  - intros Hin. apply in_map_iff in Hin as (w & <- & Hw). apply in_map.
    apply filter_In. split; [exact Hw | now rewrite E].
Qed.

Lemma focus_shown_minimize (i : jsstring) (b : bool) (d : desktop) :
  focus_shown d -> focus_shown (setWindowMinimized i b d).
Proof.
  unfold focus_shown, setWindowMinimized. cbn [windows focusedWindow].
  rewrite minimize_ids.
  destruct (b && focused_is d i); [|exact (fun x => x)].
  intros _. destruct (first_id _) as [g|] eqn:Hg; [|exact I].
  apply first_id_shown in Hg. now apply ids_filter in Hg.
Qed.

Lemma focus_shown_task_item (win : WindowItem) (d : desktop) :
  In win (windows d) -> focus_shown d -> focus_shown (taskItemClick win d).
Proof.
  intros Hwin Hf. unfold focus_shown. rewrite taskItemClick_ids.
  unfold taskItemClick. destruct (negb (focused_is d (id win))); cbn [focusedWindow].
  - now apply in_map.
  - apply (focus_shown_minimize (id win) true) in Hf.
    unfold focus_shown in Hf. cbn [setWindowMinimized windows] in Hf.
    now rewrite minimize_ids in Hf.
Qed.

Lemma one_maximized_task_item (win : WindowItem) (d : desktop) :
  one_maximized d -> one_maximized (taskItemClick win d).
Proof.
  intros Hone.
  pose proof (unmaximized_one (focusedWindow d) Hone) as Hun.
  intros a b. rewrite taskItemClick_windows.
  destruct (negb (focused_is d (id win))); [destruct (set (minimized win))|].
  - apply (one_maximized_setWindowMinimized (id win) false Hun).
  - apply Hun.
  - apply (one_maximized_setWindowMinimized (id win) true Hun).
Qed.

End Facts.

(** X19. Two invariants of the desktop. From the first render on, and
    after every action on a window it shows (its buttons, its task item,
    a click on it) or on the keyboard (a new window, closing the focused
    one): the focused window, if any, is one of the windows; and the
    maximized windows all carry the same identifier, so that with distinct
    identifiers at most one window is maximized. *)
Theorem desktop_invariants :
  forall (C : Type),
    (forall uuid terminal,
        focus_shown (initial uuid terminal) /\ one_maximized (initial (C:=C) uuid terminal)) /\
    (forall (a : action C) (d : desktop C),
        on_shown a d -> focus_shown d -> one_maximized d ->
        focus_shown (act a d) /\ one_maximized (act a d)).
Proof.
  intros C. split.
  - intros uuid terminal. split.
    + unfold focus_shown, initial. cbn. destruct (nonempty uuid); [now left | exact I].
    + intros a b [<-|[]] [<-|[]] Hm. discriminate.
  - intros a d Hshown Hfocus Hone. destruct a; cbn [act on_shown] in *.
    + split.
      * unfold focus_shown, openWindow. cbn. rewrite map_app. apply in_or_app. right. now left.
      * intros a b. unfold openWindow. cbn [windows]. intros Ha Hb Hma Hmb.
        apply in_app_or in Ha as [Ha|[<-|[]]]; [|discriminate].
        apply in_app_or in Hb as [Hb|[<-|[]]]; [|discriminate].
        now apply Hone.
    + unfold closeFocused. destruct (focusedWindow d) as [f|] eqn:Hf; [|now split].
      split.
      * unfold focus_shown. cbn.
        destruct (find _ _) as [w|] eqn:Hfind; [|exact I]. cbn.
        apply find_some in Hfind as [Hw _]. now apply in_map.
      * now apply one_maximized_filter.
    + split; [now apply in_map | exact Hone].
    + split.
      * eapply focus_shown_ids; [apply maximize_ids | reflexivity | exact Hfocus].
      * now apply one_maximized_setWindowMaximized.
    + split; [now apply focus_shown_minimize | now apply one_maximized_setWindowMinimized].
    + split; [now apply focus_shown_close | now apply one_maximized_filter].
    + split; [now apply focus_shown_task_item | now apply one_maximized_task_item].
Qed.

Lemma desktop_invariants_witness :
  let a := {| id := js "a"; title := js "Terminal"; minimized := None;
              maximized := Some true; component := tt |} in
  let b := {| id := js "b"; title := js "Terminal"; minimized := Some true;
              maximized := None; component := tt |} in
  let d := {| windows := [a; b]; focusedWindow := Some (js "a") |} in
  focus_shown (act (TaskItem b) d) /\ one_maximized (act (TaskItem b) d).
Proof.
  intros a b d.
  apply (desktop_invariants unit).
  - right. left. reflexivity.
  - left. reflexivity.
  - intros x y [<-|[<-|[]]] [<-|[<-|[]]] Hx Hy; try reflexivity; discriminate.
Defined.

(** X20. Maximizing a window un-maximizes all others: after
    [setWindowMaximized(id, true)] a window is maximized exactly when it
    carries that identifier, and nothing else about the windows changes:
    their number, order, identifiers, titles and minimized flags. *)
Theorem maximize_is_exclusive :
  forall (C : Type) (i : jsstring) (d : desktop C),
    (forall w, In w (windows (setWindowMaximized i true d)) ->
               (set (maximized w) = true <-> id w = i)) /\
    map (@id C) (windows (setWindowMaximized i true d)) = map (@id C) (windows d) /\
    map (@title C) (windows (setWindowMaximized i true d)) = map (@title C) (windows d) /\
    map (@minimized C) (windows (setWindowMaximized i true d))
    = map (@minimized C) (windows d) /\
    focusedWindow (setWindowMaximized i true d) = focusedWindow d.
Proof.
  intros C i d. split; [|repeat split].
  - intros w Hin. rewrite (maximize_true i d w Hin). apply str_eqb_eq.
  - apply maximize_ids.
  - cbn [setWindowMaximized windows]. rewrite map_map. apply map_ext.
    intros w. now destruct (str_eqb (id w) i).
  - cbn [setWindowMaximized windows]. rewrite map_map. apply map_ext.
    intros w. now destruct (str_eqb (id w) i).
Qed.

Lemma maximize_is_exclusive_witness :
  let a := {| id := js "a"; title := js "Terminal"; minimized := None;
              maximized := Some true; component := tt |} in
  let b := {| id := js "b"; title := js "Terminal"; minimized := Some true;
              maximized := None; component := tt |} in
  let d := {| windows := [a; b]; focusedWindow := Some (js "a") |} in
  set (maximized (with_maximized b true)) = true <-> id (with_maximized b true) = js "b".
Proof.
  intros a b d.
  apply (@maximize_is_exclusive unit (js "b") d). right. left. reflexivity.
Defined.

(** X21. A click on a task item, for a desktop whose windows have distinct
    identifiers and at most one of them maximized. Afterwards no window is
    maximized. If the window was not focused it is now focused and shown
    (not minimized); if it was focused it is now minimized and the focus
    is on the first other window that is not minimized, or on none. *)
Theorem task_item_click :
  forall (C : Type) (win : WindowItem C) (d : desktop C),
    In win (windows d) -> NoDup (map (@id C) (windows d)) -> one_maximized d ->
    (forall w, In w (windows (taskItemClick win d)) -> set (maximized w) = false) /\
    (focused_is d (id win) = false ->
     focusedWindow (taskItemClick win d) = Some (id win) /\
     forall w, In w (windows (taskItemClick win d)) -> id w = id win ->
               set (minimized w) = false) /\
    (focused_is d (id win) = true ->
     (forall w, In w (windows (taskItemClick win d)) -> id w = id win ->
                set (minimized w) = true) /\
     focusedWindow (taskItemClick win d)
     = first_id (filter (fun w => negb (str_eqb (id w) (id win)) && negb (set (minimized w)))
                        (windows d))).
Proof.
  intros C win d Hwin Hnd Hone. split; [|split].
  - intros w. rewrite taskItemClick_windows.
    assert (Hmin : forall b w,
               In w (map (fun w => if str_eqb (id w) (id win) then with_minimized w b else w)
                         (unmaximized d)) ->
               set (maximized w) = false).
    { intros b w' Hin. apply in_map_iff in Hin as (w0 & <- & Hw0).
      pose proof (unmaximized_none w0 Hone Hw0) as Hw.
      now destruct (str_eqb (id w0) (id win)). }
    destruct (negb (focused_is d (id win))); [destruct (set (minimized win))|].
    + apply Hmin.
    + now apply unmaximized_none.
    + apply Hmin.
  - intros Hnot. split.
    + unfold taskItemClick. now rewrite Hnot.
    + intros w. rewrite taskItemClick_windows, Hnot. cbn [negb].
      destruct (set (minimized win)) eqn:Hmin.
      * intros Hin Hid. apply in_map_iff in Hin as (w0 & <- & Hw0).
        destruct (str_eqb (id w0) (id win)) eqn:E; [reflexivity|].
        apply str_eqb_neq in E. contradiction.
      * intros Hin Hid. destruct (unmaximized_origin d w Hin) as (w0 & Hw0 & Hid0 & Hm0).
        rewrite <- Hm0.
        rewrite (same_id_same_window (windows d) w0 win Hnd Hw0 Hwin)
          by congruence.
        exact Hmin.
  - intros Hfoc. split.
    + intros w. rewrite taskItemClick_windows, Hfoc. cbn [negb].
      intros Hin Hid. apply in_map_iff in Hin as (w0 & <- & Hw0).
      destruct (str_eqb (id w0) (id win)) eqn:E; [reflexivity|].
      apply str_eqb_neq in E. contradiction.
    + unfold taskItemClick. rewrite Hfoc. cbn [negb focusedWindow setWindowMinimized].
      now rewrite Hfoc.
Qed.

Lemma task_item_click_witness :
  let a := {| id := js "a"; title := js "Terminal"; minimized := None;
              maximized := Some true; component := tt |} in
  let b := {| id := js "b"; title := js "Terminal"; minimized := Some true;
              maximized := None; component := tt |} in
  let d := {| windows := [a; b]; focusedWindow := Some (js "a") |} in
  (forall w, In w (windows (taskItemClick b d)) -> set (maximized w) = false) /\
  focusedWindow (taskItemClick b d) = Some (js "b") /\
  focusedWindow (taskItemClick a d) = None.
Proof.
  intros a b d.
  assert (Hnd : NoDup (map (@id unit) (windows d))).
  { repeat constructor; cbn; intuition discriminate. }
  assert (Hone : one_maximized d).
  { intros x y [<-|[<-|[]]] [<-|[<-|[]]] Hx Hy; try reflexivity; discriminate. }
  split; [|split].
  - apply (@task_item_click unit b d); [right; left; reflexivity | exact Hnd | exact Hone].
  - apply (@task_item_click unit b d); [right; left; reflexivity | exact Hnd | exact Hone |].
    reflexivity.
  - apply (@task_item_click unit a d); [left; reflexivity | exact Hnd | exact Hone |].
    reflexivity.
Defined.

End DesktopFacts.
